(** * pg_plan_override: dynamic per-query planner GUC overrides

    A shallow embedding of [src/pg_plan_override.c] and the properties of
    its planner hook, rule cache, rule matcher and LIKE-style pattern
    matcher.

    The functions of the module are functions on a world: the statics
    of the module, the state of the backend, and a journal of the calls
    the module makes into the backend.  A function returns or raises
    ([ereport(ERROR)]); the world it has reached is kept in both cases.
    The backend (GUC table, planner, SPI, clock) is a parameter.
    Memory is not part of the model: [palloc] and its kin succeed and
    a copy of a string is the string. *)

From Stdlib Require Import ZArith List String Ascii Bool Lia Arith.
Import ListNotations.
Local Open Scope string_scope.
Local Open Scope list_scope.
Local Open Scope Z_scope.

(* ================================================================== *)
(** * C integers *)

(** [int64] and [int] values are integers of [Z]; a conversion to the
    type wraps around. *)
Definition to_int64 (z : Z) : Z := (z + 2 ^ 63) mod 2 ^ 64 - 2 ^ 63.
Definition to_int32 (z : Z) : Z := (z + 2 ^ 31) mod 2 ^ 32 - 2 ^ 31.

(* ================================================================== *)
(** * Data structures *)

Record OverrideRule := {
  query_id : Z;                     (* int64, 0 if not set *)
  query_pattern : option string;    (* NULL if not set *)
  guc_names : list string;
  guc_values : list string;
  num_gucs : Z;
  priority : Z
}.

(** What [palloc0] leaves in a slot of the rule array. *)
Definition zeroed_rule : OverrideRule :=
  {| query_id := 0; query_pattern := None; guc_names := []; guc_values := [];
     num_gucs := 0; priority := 0 |}.

(** [a[i] = x] on an array whose initialised prefix is the list [a]. *)
Definition array_set {A} (a : list A) (i : nat) (x : A) : list A :=
  firstn i a ++ x :: skipn (S i) a.

(* ------------------------------------------------------------------ *)
(** ** The JSONB payload of a rule, as its iterator delivers it *)

Inductive JsonbValue :=
| jbvNull
| jbvString (val : string)
| jbvNumeric (numeric_out : string)   (* the text [numeric_out] prints *)
| jbvBool (boolean : bool)
| jbvContainer.                       (* arrays, objects, binary *)

Inductive JsonbIteratorToken :=
| WJB_KEY | WJB_VALUE | WJB_ELEM
| WJB_BEGIN_ARRAY | WJB_END_ARRAY | WJB_BEGIN_OBJECT | WJB_END_OBJECT.

(** A [Jsonb] datum is the token sequence [JsonbIteratorNext] yields
    before [WJB_DONE]. *)
Definition Jsonb := list (JsonbIteratorToken * JsonbValue).

(** A row of the rule query: four nullable columns. *)
Record RuleTuple := {
  col_query_id : option Z;
  col_query_pattern : option string;
  col_gucs : option Jsonb;
  col_priority : option Z
}.

Definition null_tuple : RuleTuple :=
  {| col_query_id := None; col_query_pattern := None; col_gucs := None;
     col_priority := None |}.

(* ================================================================== *)
(** * Simple LIKE-style pattern matching (% and _ wildcards) *)

(** A [const char *] into a NUL-terminated string: the characters from
    the pointer up to the NUL. *)
Definition cstr := list ascii.

Definition is_percent (c : ascii) : bool := Ascii.eqb c "%".
Definition is_underscore (c : ascii) : bool := Ascii.eqb c "_".

Fixpoint skip_percent (p : cstr) : cstr :=
  match p with
  | c :: p' => if is_percent c then skip_percent p' else p
  | [] => []
  end.

Definition at_nul (p : cstr) : bool :=
  match p with [] => true | _ :: _ => false end.

(** The [while] loop over the text and the code after it.  [t_backtrack] and
    [p_backtrack] are set together; the branch that advances
    [t_backtrack] is entered with both set and [t_backtrack] before
    the NUL. *)
Fixpoint pattern_match_loop (fuel : nat) (t p : cstr)
    (t_backtrack p_backtrack : option cstr) {struct fuel} : option bool :=
  match fuel with
  | O => None
  | S fuel' =>
    match t with
    | [] => Some (at_nul (skip_percent p))
    | tc :: t' =>
      let mismatch :=
        match p_backtrack, t_backtrack with
        | Some pb, Some (_ :: tb') =>
            pattern_match_loop fuel' tb' pb (Some tb') (Some pb)
        | _, _ => Some false
        end in
      match p with
      | pc :: p' =>
        if is_percent pc then
          let p1 := skip_percent p in
          if at_nul p1 then Some true
          else pattern_match_loop fuel' t p1 (Some t) (Some p1)
        else if is_underscore pc || Ascii.eqb pc tc then
          pattern_match_loop fuel' t' p' t_backtrack p_backtrack
        else mismatch
      | [] => mismatch
      end
    end
  end.

(** More iterations than the loop can make. *)
Definition pattern_match_fuel (text pattern : cstr) : nat :=
  S (List.length text * S (List.length pattern) + List.length pattern).

Definition pattern_match (text pattern : string) : bool :=
  let t := list_ascii_of_string text in
  let p := list_ascii_of_string pattern in
  match pattern_match_loop (pattern_match_fuel t p) t p None None with
  | Some b => b
  | None => false
  end.



(* ================================================================== *)
(** * The PostgreSQL backend the module runs in *)

Inductive reply (E A : Type) :=
| Normal (a : A)
| Error (e : E).     (* ereport(ERROR): a non-local exit *)
Arguments Normal {E A} a.
Arguments Error {E A} e.

(** The backend functions the module calls.  [env] is the state of the
    backend outside this module: the GUC table, the clock, the catalogs,
    the SPI stack.  A backend function acts on [env] only; the statics
    of the module are out of its reach, and so an assignment through
    the backend to one of the three GUC variables of the module is
    outside the model.  The backend enters the module through the
    planner hook only. *)
Class Host := {
  env : Type;
  ErrorData : Type;
  Query : Type;
  PlannedStmt : Type;
  ParamListInfo : Type;
  queryId : Query -> Z;      (* uint64 *)
  (* utils/guc.h.  [GetConfigOption name false false]; NULL is [None]. *)
  GetConfigOption : string -> env -> reply ErrorData (option string);
  (* [set_config_option name value PGC_USERSET PGC_S_SESSION
      GUC_ACTION_SET true 0 false]; a NULL value is [None]. *)
  set_config_option :
    string -> option string -> env -> reply ErrorData Z * env;
  (* the planner this hook stands in front of *)
  prev_planner_hook :
    option (Query -> option string -> Z -> ParamListInfo -> env ->
            reply ErrorData PlannedStmt * env);
  standard_planner :
    Query -> option string -> Z -> ParamListInfo -> env ->
    reply ErrorData PlannedStmt * env;
  (* utils/timestamp.h *)
  GetCurrentTimestamp : env -> Z;
  (* executor/spi.h *)
  SPI_connect : env -> Z * env;
  SPI_finish : env -> env;
  (* parse analysis of a command string: the arguments of its planner call *)
  SPI_analyze :
    string -> env -> reply ErrorData (Query * Z * ParamListInfo) * env;
  (* execution of the planned command: the SPI result code *)
  SPI_run : string -> PlannedStmt -> bool -> Z -> env -> reply ErrorData Z * env;
  SPI_processed : env -> Z;
  SPI_tuptable : env -> list RuleTuple
}.

Definition SPI_OK_CONNECT : Z := 1.
Definition SPI_OK_SELECT : Z := 5.

Inductive elevel := LOG | WARNING.

(** A value printed through a format. *)
Inductive elog_arg :=
| arg_d (z : Z)
| arg_s (s : string).

Section Embedding.

Context {H : Host}.

(** Calls that leave the module, in the order they are made. *)
Inductive Call :=
| Call_GetConfigOption (name : string)
| Call_set_config_option (name : string) (value : option string)
| Call_planner (parse : Query) (query_string : option string)
| Call_SPI_connect
| Call_SPI_execute (src : string)
| Call_SPI_finish
| Call_elog (level : elevel) (fmt : string) (args : list elog_arg).

(* ================================================================== *)
(** * Static state *)

Record World := {
  (* GUC variables *)
  po_enabled : bool;
  po_debug : bool;
  po_cache_ttl : Z;
  (* Rule cache *)
  cached_rules : option (list OverrideRule);   (* NULL or the array *)
  cached_rules_count : Z;
  cache_loaded_at : Z;                          (* TimestampTz *)
  cache_context : bool;                         (* false: NULL *)
  (* Reentrancy guard *)
  loading_rules : bool;
  (* outside the module *)
  backend : env;
  journal : list Call
}.

Definition set_cached_rules v w :=
  {| po_enabled := po_enabled w; po_debug := po_debug w;
     po_cache_ttl := po_cache_ttl w; cached_rules := v;
     cached_rules_count := cached_rules_count w;
     cache_loaded_at := cache_loaded_at w; cache_context := cache_context w;
     loading_rules := loading_rules w; backend := backend w;
     journal := journal w |}.

Definition set_cached_rules_count v w :=
  {| po_enabled := po_enabled w; po_debug := po_debug w;
     po_cache_ttl := po_cache_ttl w; cached_rules := cached_rules w;
     cached_rules_count := v;
     cache_loaded_at := cache_loaded_at w; cache_context := cache_context w;
     loading_rules := loading_rules w; backend := backend w;
     journal := journal w |}.

Definition set_cache_loaded_at v w :=
  {| po_enabled := po_enabled w; po_debug := po_debug w;
     po_cache_ttl := po_cache_ttl w; cached_rules := cached_rules w;
     cached_rules_count := cached_rules_count w;
     cache_loaded_at := v; cache_context := cache_context w;
     loading_rules := loading_rules w; backend := backend w;
     journal := journal w |}.

Definition set_cache_context v w :=
  {| po_enabled := po_enabled w; po_debug := po_debug w;
     po_cache_ttl := po_cache_ttl w; cached_rules := cached_rules w;
     cached_rules_count := cached_rules_count w;
     cache_loaded_at := cache_loaded_at w; cache_context := v;
     loading_rules := loading_rules w; backend := backend w;
     journal := journal w |}.

Definition set_loading_rules v w :=
  {| po_enabled := po_enabled w; po_debug := po_debug w;
     po_cache_ttl := po_cache_ttl w; cached_rules := cached_rules w;
     cached_rules_count := cached_rules_count w;
     cache_loaded_at := cache_loaded_at w; cache_context := cache_context w;
     loading_rules := v; backend := backend w;
     journal := journal w |}.

Definition set_backend v w :=
  {| po_enabled := po_enabled w; po_debug := po_debug w;
     po_cache_ttl := po_cache_ttl w; cached_rules := cached_rules w;
     cached_rules_count := cached_rules_count w;
     cache_loaded_at := cache_loaded_at w; cache_context := cache_context w;
     loading_rules := loading_rules w; backend := v;
     journal := journal w |}.

Definition record_call (c : Call) w :=
  {| po_enabled := po_enabled w; po_debug := po_debug w;
     po_cache_ttl := po_cache_ttl w; cached_rules := cached_rules w;
     cached_rules_count := cached_rules_count w;
     cache_loaded_at := cache_loaded_at w; cache_context := cache_context w;
     loading_rules := loading_rules w; backend := backend w;
     journal := journal w ++ [c] |}.

(* ================================================================== *)
(** * Control: state, errors, nesting *)

(** A computation ends by returning, by raising (the [longjmp] of
    [ereport(ERROR)]; the world it leaves is kept), or is cut off when
    the nesting budget of the hook is used up. *)
Inductive outcome (A : Type) :=
| Returned (a : A) (w : World)
| Raised (e : ErrorData) (w : World)
| Unfinished.
Arguments Returned {A} a w.
Arguments Raised {A} e w.
Arguments Unfinished {A}.

Definition M (A : Type) := World -> outcome A.

Definition ret {A} (a : A) : M A := fun w => Returned a w.

Definition bind {A B} (m : M A) (k : A -> M B) : M B :=
  fun w =>
    match m w with
    | Returned a w' => k a w'
    | Raised e w' => Raised e w'
    | Unfinished => Unfinished
    end.

Definition gets {A} (f : World -> A) : M A := fun w => Returned (f w) w.
Definition modify (f : World -> World) : M unit := fun w => Returned tt (f w).
Definition PG_RE_THROW {A} (e : ErrorData) : M A := fun w => Raised e w.

(** [PG_TRY(); body PG_CATCH(); handler PG_END_TRY();] *)
Definition PG_TRY {A} (body : M A) (handler : ErrorData -> M A) : M A :=
  fun w =>
    match body w with
    | Raised e w' => handler e w'
    | r => r
    end.

Notation "x <- m ;; k" := (bind m (fun x => k))
  (at level 61, m at next level, right associativity).
Notation "m ;; k" := (bind m (fun _ => k))
  (at level 61, right associativity).

(** [for (i = start; i < start + count; i++) body], where [body]
    may update a local [acc]. *)
Fixpoint for_loop {T} (start : nat) (count : nat) (body : nat -> T -> M T)
    (acc : T) : M T :=
  match count with
  | O => ret acc
  | S count' => acc' <- body start acc ;; for_loop (S start) count' body acc'
  end.

(* ------------------------------------------------------------------ *)
(** ** Calls into the backend *)

Definition lift_reply {A} (r : reply ErrorData A * env) (w : World) : outcome A :=
  match r with
  | (Normal a, b) => Returned a (set_backend b w)
  | (Error e, b) => Raised e (set_backend b w)
  end.

Definition elog (level : elevel) (fmt : string) (args : list elog_arg) : M unit :=
  modify (record_call (Call_elog level fmt args)).

Definition call_GetConfigOption (name : string) : M (option string) :=
  fun w =>
    let w := record_call (Call_GetConfigOption name) w in
    match GetConfigOption name (backend w) with
    | Normal v => Returned v w
    | Error e => Raised e w
    end.

Definition call_set_config_option (name : string) (value : option string) : M Z :=
  fun w =>
    let w := record_call (Call_set_config_option name value) w in
    lift_reply (set_config_option name value (backend w)) w.

Definition call_SPI_connect : M Z :=
  fun w =>
    let w := record_call Call_SPI_connect w in
    let '(code, b) := SPI_connect (backend w) in
    Returned code (set_backend b w).

Definition call_SPI_finish : M unit :=
  fun w =>
    let w := record_call Call_SPI_finish w in
    Returned tt (set_backend (SPI_finish (backend w)) w).

Definition planner_hook_type : Type :=
  Query -> option string -> Z -> ParamListInfo -> M PlannedStmt.

(** [if (prev_planner_hook) prev_planner_hook(...) else standard_planner(...)] *)
Definition next_planner : planner_hook_type :=
  fun parse query_string cursorOptions boundParams w =>
    let w := record_call (Call_planner parse query_string) w in
    match prev_planner_hook with
    | Some prev =>
        lift_reply (prev parse query_string cursorOptions boundParams (backend w)) w
    | None =>
        lift_reply
          (standard_planner parse query_string cursorOptions boundParams (backend w)) w
    end.

(** [SPI_execute(src, read_only, tcount)]: the backend analyses the
    command, plans it through [planner_hook], which is this module's
    hook, and runs the plan. *)
Definition SPI_execute (planner_hook : planner_hook_type)
    (src : string) (read_only : bool) (tcount : Z) : M Z :=
  fun w =>
    let w := record_call (Call_SPI_execute src) w in
    match SPI_analyze src (backend w) with
    | (Error e, b) => Raised e (set_backend b w)
    | (Normal (parse, cursorOptions, boundParams), b) =>
        match planner_hook parse (Some src) cursorOptions boundParams
                (set_backend b w) with
        | Returned plan w' =>
            lift_reply (SPI_run src plan read_only tcount (backend w')) w'
        | Raised e w' => Raised e w'
        | Unfinished => Unfinished
        end
    end.

(** [TimestampDifferenceExceeds(start_time, stop_time, msec)] of the
    backend (utils/timestamp.h), with its [int msec]:
    [diff = stop_time - start_time; return diff >= msec * INT64CONST(1000)]. *)
Definition TimestampDifferenceExceeds (start_time stop_time msec : Z) : bool :=
  let diff := to_int64 (stop_time - start_time) in
  diff >=? to_int64 (to_int32 msec * 1000).



(* ================================================================== *)
(** * Rule cache loading (via SPI) *)

Definition free_rule_cache : M unit :=
  modify (set_cached_rules None) ;;
  modify (set_cached_rules_count 0).

(* ------------------------------------------------------------------ *)
(** ** JSONB GUC parsing *)

Definition string_val (v : JsonbValue) : string :=
  match v with jbvString val => val | _ => "" end.

(** The [while] loop of [parse_jsonb_gucs] over the tokens left. *)
Fixpoint parse_jsonb_gucs_loop (it : Jsonb) (names values : list string)
    (count : nat) (capacity : Z) : M (nat * list string * list string) :=
  match it with
  | [] => ret (count, names, values)
  | (WJB_KEY, v) :: it' =>
      (* Grow arrays if needed *)
      let capacity := if Z.of_nat count >=? capacity then capacity * 2 else capacity in
      let key := string_val v in
      parse_jsonb_gucs_loop it' (array_set names count key) values count capacity
  | (WJB_VALUE, v) :: it' =>
      match v with
      | jbvString val =>
          parse_jsonb_gucs_loop it' names (array_set values count val)
            (S count) capacity
      | jbvBool boolean =>
          parse_jsonb_gucs_loop it' names
            (array_set values count (if boolean then "on" else "off"))
            (S count) capacity
      | jbvNumeric numeric_out =>
          parse_jsonb_gucs_loop it' names (array_set values count numeric_out)
            (S count) capacity
      | _ =>
          (* Skip unsupported types *)
          elog WARNING "pg_plan_override: skipping non-scalar GUC value for '%s'"
            [arg_s (nth count names "")] ;;
          parse_jsonb_gucs_loop it' names values count capacity
      end
  | _ :: it' => parse_jsonb_gucs_loop it' names values count capacity
  end.

Definition parse_jsonb_gucs (jb : Jsonb) : M (nat * list string * list string) :=
  parse_jsonb_gucs_loop jb [] [] 0 8.

(* ------------------------------------------------------------------ *)
(** ** load_rules *)

Definition rules_table_sql : string :=
  "SELECT 1 FROM pg_catalog.pg_class c " ++
  "JOIN pg_catalog.pg_namespace n ON n.oid = c.relnamespace " ++
  "WHERE n.nspname = 'plan_override' " ++
  "AND c.relname = 'override_rules'".

Definition rules_query_sql : string :=
  "SELECT query_id, query_pattern, gucs, priority " ++
  "FROM plan_override.override_rules " ++
  "WHERE enabled " ++
  "ORDER BY priority DESC".

(** The body of the loop over the rows of the rule query. *)
Definition load_rule (i : nat) : M unit :=
  tuptable <- gets (fun w => SPI_tuptable (backend w)) ;;
  let tuple := nth i tuptable null_tuple in
  (* query_id *)
  let query_id := match col_query_id tuple with None => 0 | Some d => d end in
  (* query_pattern *)
  let query_pattern := col_query_pattern tuple in
  (* gucs (JSONB) *)
  gucs <- match col_gucs tuple with
          | Some datum => parse_jsonb_gucs datum
          | None => ret (O, [], [])
          end ;;
  let '(count, names, values) := gucs in
  (* priority *)
  let priority := match col_priority tuple with None => 0 | Some d => d end in
  let rule :=
    {| query_id := query_id; query_pattern := query_pattern;
       guc_names := names; guc_values := values;
       num_gucs := Z.of_nat count; priority := priority |} in
  modify (fun w =>
    set_cached_rules (option_map (fun a => array_set a i rule) (cached_rules w)) w).

Definition load_rules (planner_hook : planner_hook_type) : M unit :=
  (* Reentrancy guard: SPI queries go through the planner hook too *)
  modify (set_loading_rules true) ;;
  free_rule_cache ;;
  (* Create or reset the cache memory context *)
  modify (set_cache_context true) ;;
  code <- call_SPI_connect ;;
  if negb (code =? SPI_OK_CONNECT) then
    modify (set_loading_rules false) ;;
    elog WARNING "pg_plan_override: SPI_connect failed, cache not loaded" []
  else
  (* Check if the rules table exists (extension may not be CREATE'd yet) *)
  ret_ <- SPI_execute planner_hook rules_table_sql true 1 ;;
  processed <- gets (fun w => SPI_processed (backend w)) ;;
  if negb (ret_ =? SPI_OK_SELECT) || (processed =? 0) then
    call_SPI_finish ;;
    now <- gets (fun w => GetCurrentTimestamp (backend w)) ;;
    modify (set_cache_loaded_at now) ;;
    modify (set_loading_rules false)
  else
  ret_ <- SPI_execute planner_hook rules_query_sql true 0 ;;
  if negb (ret_ =? SPI_OK_SELECT) then
    call_SPI_finish ;;
    modify (set_loading_rules false) ;;
    elog WARNING "pg_plan_override: failed to load rules (SPI error %d)" [arg_d ret_]
  else
  processed <- gets (fun w => SPI_processed (backend w)) ;;
  modify (set_cached_rules_count (to_int32 processed)) ;;
  count <- gets cached_rules_count ;;
  if count =? 0 then
    call_SPI_finish ;;
    now <- gets (fun w => GetCurrentTimestamp (backend w)) ;;
    modify (set_cache_loaded_at now) ;;
    modify (set_loading_rules false)
  else
  modify (set_cached_rules (Some (repeat zeroed_rule (Z.to_nat count)))) ;;
  for_loop 0 (Z.to_nat count) (fun i _ => load_rule i) tt ;;
  call_SPI_finish ;;
  now <- gets (fun w => GetCurrentTimestamp (backend w)) ;;
  modify (set_cache_loaded_at now) ;;
  modify (set_loading_rules false) ;;
  debug <- gets po_debug ;;
  if debug then
    count <- gets cached_rules_count ;;
    elog LOG "pg_plan_override: loaded %d rule(s)" [arg_d count]
  else ret tt.

(* ================================================================== *)
(** * Query matching *)

(** [for (i = start; i < start + count; i++)
       if (test(cached_rules[i])) return &cached_rules[i];] *)
Fixpoint scan_rules (test : OverrideRule -> bool) (rules : list OverrideRule)
    (start count : nat) : option OverrideRule :=
  match count with
  | O => None
  | S count' =>
      let rule := nth start rules zeroed_rule in
      if test rule then Some rule
      else scan_rules test rules (S start) count'
  end.

Definition query_id_matches (parse : Query) (rule : OverrideRule) : bool :=
  negb (query_id rule =? 0) && (query_id rule =? to_int64 (queryId parse)).

Definition query_pattern_matches (query_string : string) (rule : OverrideRule)
  : bool :=
  match query_pattern rule with
  | Some pattern => pattern_match query_string pattern
  | None => false
  end.

Definition find_matching_rule (parse : Query) (query_string : option string)
    (w : World) : option OverrideRule :=
  match cached_rules w with
  | None => None
  | Some rules =>
    if cached_rules_count w =? 0 then None else
    let count := Z.to_nat (cached_rules_count w) in
    (* Pass 1: match by queryId (fast, exact) *)
    let pass1 :=
      if negb (queryId parse =? 0)
      then scan_rules (query_id_matches parse) rules 0 count
      else None in
    match pass1 with
    | Some rule => Some rule
    | None =>
      (* Pass 2: match by pattern (LIKE-style against query text) *)
      match query_string with
      | Some text => scan_rules (query_pattern_matches text) rules 0 count
      | None => None
      end
    end
  end.

(* ================================================================== *)
(** * Planner hook *)

(** The condition under "Refresh cache if TTL expired". *)
Definition cache_expired (w : World) : bool :=
  (cache_loaded_at w =? 0)
  || TimestampDifferenceExceeds (cache_loaded_at w)
       (GetCurrentTimestamp (backend w))
       (to_int64 (po_cache_ttl w * 1000)).

Definition refresh_if_expired (planner_hook : planner_hook_type) : M unit :=
  expired <- gets cache_expired ;;
  if expired then load_rules planner_hook else ret tt.

(** Save current GUC values *)
Definition save_guc_values (rule : OverrideRule) : M (list (option string)) :=
  for_loop 0 (Z.to_nat (num_gucs rule))
    (fun i saved_values =>
       val <- call_GetConfigOption (nth i (guc_names rule) "") ;;
       ret (array_set saved_values i val))
    [].

(** Set override GUC values *)
Definition set_override_gucs (rule : OverrideRule) : M unit :=
  for_loop 0 (Z.to_nat (num_gucs rule))
    (fun i _ =>
       call_set_config_option (nth i (guc_names rule) "")
         (Some (nth i (guc_values rule) "")) ;;
       ret tt)
    tt.

(** Restore original GUC values *)
Definition restore_guc_values (rule : OverrideRule)
    (saved_values : list (option string)) : M unit :=
  for_loop 0 (Z.to_nat (num_gucs rule))
    (fun i _ =>
       call_set_config_option (nth i (guc_names rule) "")
         (nth i saved_values None) ;;
       ret tt)
    tt.

(** The hook from "Save current GUC values" on, for the rule found. *)
Definition plan_with_overrides (rule : OverrideRule) : planner_hook_type :=
  fun parse query_string cursorOptions boundParams =>
  saved_values <- save_guc_values rule ;;
  set_override_gucs rule ;;
  debug <- gets po_debug ;;
  (if debug then
     elog LOG
       "pg_plan_override: applied %d GUC override(s) for query (queryId=%ld)"
       [arg_d (num_gucs rule); arg_d (query_id rule)]
   else ret tt) ;;
  (* Call planner with overrides in effect, guarantee restore on error *)
  PG_TRY
    (result <- next_planner parse query_string cursorOptions boundParams ;;
     restore_guc_values rule saved_values ;;
     ret result)
    (fun e =>
     (* Restore GUCs even on error *)
     restore_guc_values rule saved_values ;;
     PG_RE_THROW e).

(** The body of [po_planner]; [planner_hook] is what the backend calls
    when the SPI queries of [load_rules] are planned. *)
Definition po_planner_body (planner_hook : planner_hook_type)
  : planner_hook_type :=
  fun parse query_string cursorOptions boundParams =>
  enabled <- gets po_enabled ;;
  loading <- gets loading_rules ;;
  (* Fast path: disabled or reentrancy guard active *)
  if negb enabled || loading then
    next_planner parse query_string cursorOptions boundParams
  else
  (* Refresh cache if TTL expired *)
  refresh_if_expired planner_hook ;;
  (* Find a matching rule *)
  rule <- gets (find_matching_rule parse query_string) ;;
  match rule with
  | None =>
      (* No match: pass through *)
      next_planner parse query_string cursorOptions boundParams
  | Some rule =>
      plan_with_overrides rule parse query_string cursorOptions boundParams
  end.

(** [planner_hook = po_planner]: the hook is its own callee through SPI.
    [depth] bounds the nesting of its activations. *)
Fixpoint po_planner (depth : nat) : planner_hook_type :=
  match depth with
  | O => fun _ _ _ _ _ => Unfinished
  | S depth' => po_planner_body (po_planner depth')
  end.

(** SQL-callable: refresh_cache() *)
Definition pg_plan_override_refresh_cache (depth : nat) : M unit :=
  load_rules (po_planner depth).

(** The statics as their initialisers and [_PG_init] leave them. *)
Definition PG_init (b : env) : World :=
  {| po_enabled := true; po_debug := false; po_cache_ttl := 60;
     cached_rules := None; cached_rules_count := 0; cache_loaded_at := 0;
     cache_context := false; loading_rules := false;
     backend := b; journal := [] |}.

(* ================================================================== *)
(** * Vocabulary of the properties *)

(** The statements of [load_rules] up to and including [SPI_connect]. *)
Definition load_rules_connect : M Z :=
  modify (set_loading_rules true) ;;
  free_rule_cache ;;
  modify (set_cache_context true) ;;
  call_SPI_connect.

(** The statements of [plan_with_overrides] between the snapshot and
    the call of the planner. *)
Definition apply_overrides (rule : OverrideRule) : M unit :=
  set_override_gucs rule ;;
  debug <- gets po_debug ;;
  if debug then
    elog LOG
      "pg_plan_override: applied %d GUC override(s) for query (queryId=%ld)"
      [arg_d (num_gucs rule); arg_d (query_id rule)]
  else ret tt.

(** A refresh of the rule cache shows in the journal as its
    [SPI_connect]: [load_rules] makes the call once, and nothing else
    in the module does. *)
Definition is_refresh (c : Call) : bool :=
  match c with Call_SPI_connect => true | _ => false end.

Definition refreshes (calls : list Call) : nat :=
  List.length (filter is_refresh calls).

Definition is_warning (c : Call) : bool :=
  match c with Call_elog WARNING _ _ => true | _ => false end.

Definition is_assignment (c : Call) : bool :=
  match c with Call_set_config_option _ _ => true | _ => false end.

Definition world_of {A} (o : outcome A) : option World :=
  match o with
  | Returned _ w => Some w
  | Raised _ w => Some w
  | Unfinished => None
  end.

(** The cache holds zero rules. *)
Definition no_rules (w : World) : Prop :=
  cached_rules w = None /\ cached_rules_count w = 0.

(** The outcome [o] of a computation started in [w] is an end, by
    return or by raise, in a world related to [w] by [R]. *)
Definition ends {A} (R : World -> World -> Prop) (w : World) (o : outcome A)
  : Prop :=
  match o with
  | Returned _ w' => R w w'
  | Raised _ w' => R w w'
  | Unfinished => False
  end.

Definition respects (R : World -> World -> Prop) {A} (m : M A) : Prop :=
  forall w, ends R w (m w).

(** [R] is kept by the calls into the backend that [allowed] admits:
    it is a preorder that holds across a change of the backend state
    and across the entry of an admitted call in the journal. *)
Definition step_relation (R : World -> World -> Prop) (allowed : Call -> Prop)
  : Prop :=
  (forall w, R w w)
  /\ (forall w1 w2 w3, R w1 w2 -> R w2 w3 -> R w1 w3)
  /\ (forall b w, R w (set_backend b w))
  /\ (forall c w, allowed c -> R w (record_call c w)).

(** The statics of the module are the same. *)
Definition same_statics (w w' : World) : Prop :=
  po_enabled w' = po_enabled w /\ po_debug w' = po_debug w /\
  po_cache_ttl w' = po_cache_ttl w /\ cached_rules w' = cached_rules w /\
  cached_rules_count w' = cached_rules_count w /\
  cache_loaded_at w' = cache_loaded_at w /\
  cache_context w' = cache_context w /\ loading_rules w' = loading_rules w.

(** The journal has grown by calls that satisfy [P]. *)
Definition journal_adds (P : Call -> Prop) (w w' : World) : Prop :=
  exists calls, journal w' = journal w ++ calls /\ Forall P calls.

(** The journal has grown, by [k] refreshes among other calls. *)
Definition refreshed (k : nat) (w w' : World) : Prop :=
  exists calls, journal w' = journal w ++ calls /\ refreshes calls = k.


(** The settings of the backend behave as a table from names to
    values: an assignment that returns has taken effect, and has left
    the settings of other names as they were. *)
Definition settings_table : Prop :=
  (forall name value e r e',
      set_config_option name value e = (Normal r, e') ->
      GetConfigOption name e' = Normal value)
  /\ (forall name other value e r e',
      set_config_option name value e = (Normal r, e') ->
      other <> name ->
      GetConfigOption other e' = GetConfigOption other e).

(** [r] is the first rule of [rules], in their order, that has [P]. *)
Definition first_rule (P : OverrideRule -> Prop) (rules : list OverrideRule)
    (r : OverrideRule) : Prop :=
  exists before after,
    rules = before ++ r :: after /\ P r /\ Forall (fun r' => ~ P r') before.

(** The rule names the query by its identifier. *)
Definition has_query_id (parse : Query) (r : OverrideRule) : Prop :=
  query_id r <> 0 /\ query_id r = to_int64 (queryId parse).

(** The rule has a pattern and the pattern matches the text. *)
Definition has_pattern_for (text : string) (r : OverrideRule) : Prop :=
  exists pattern,
    query_pattern r = Some pattern /\ pattern_match text pattern = true.

(** The rule array and its count agree. *)
Definition cache_wf (w : World) : Prop :=
  match cached_rules w with
  | None => cached_rules_count w = 0
  | Some rules => cached_rules_count w = Z.of_nat (List.length rules)
  end.

(** The settings a rule names: [guc_names[i]] for [i < num_gucs]. *)
Definition names_setting (rule : OverrideRule) (name : string) : Prop :=
  exists i, (i < Z.to_nat (num_gucs rule))%nat
            /\ name = nth i (guc_names rule) "".

(** A call that, if it is an assignment, assigns a setting the rule
    names. *)
Definition rule_assignment (rule : OverrideRule) (c : Call) : Prop :=
  match c with
  | Call_set_config_option name _ => names_setting rule name
  | _ => True
  end.

End Embedding.

Arguments Returned {H A} a w.
Arguments Raised {H A} e w.
Arguments Unfinished {H A}.

Notation "x <- m ;; k" := (bind m (fun x => k))
  (at level 61, m at next level, right associativity).
Notation "m ;; k" := (bind m (fun _ => k))
  (at level 61, right associativity).

(* ================================================================== *)
(** * LIKE, as the specification words it *)

(** [like text pattern]: the whole text matches the whole pattern,
    where [%] stands for any run of characters, [_] for any one
    character and every other character for itself. *)
Inductive like : cstr -> cstr -> Prop :=
| like_end : like [] []
| like_percent u v p : like v p -> like (u ++ v) ("%"%char :: p)
| like_underscore c t p : like t p -> like (c :: t) ("_"%char :: p)
| like_char c t p :
    is_percent c = false -> is_underscore c = false ->
    like t p -> like (c :: t) (c :: p).

(** A pattern character other than [%] that accepts a text character. *)
Definition fits (pc tc : ascii) : Prop :=
  is_percent pc = false /\ (is_underscore pc || Ascii.eqb pc tc) = true.

(** A stretch of pattern without [%] matched against as long a stretch
    of text. *)
Definition pos_match (pre txt : cstr) : Prop := Forall2 fits pre txt.

(** The characters a text needs at least to match a pattern. *)
Fixpoint min_len (p : cstr) : nat :=
  match p with
  | [] => 0
  | c :: p' => if is_percent c then min_len p' else S (min_len p')
  end.


(** A pattern without wildcards. *)
Definition literal (p : cstr) : Prop :=
  Forall (fun c => is_percent c = false /\ is_underscore c = false) p.

(* ================================================================== *)
(** * A small backend to run the module on *)

Record ToyEnv := {
  toy_gucs : list (string * string);  (* the settings that have a value *)
  toy_frozen : list string;           (* settings whose assignment raises *)
  toy_clock : Z;
  toy_connect : Z;                    (* what [SPI_connect] returns *)
  toy_table : bool;                   (* plan_override.override_rules exists *)
  toy_select : Z;                     (* result code of the rule query *)
  toy_rows : list RuleTuple;          (* the enabled rules, by priority *)
  toy_processed : Z;
  toy_tuptable : list RuleTuple
}.

Definition toy_lookup (name : string) (gucs : list (string * string))
  : option string :=
  match find (fun nv => String.eqb (fst nv) name) gucs with
  | Some nv => Some (snd nv)
  | None => None
  end.

Definition toy_remove (name : string) (gucs : list (string * string)) :=
  filter (fun nv => negb (String.eqb (fst nv) name)) gucs.

Definition toy_assign (name : string) (value : option string)
    (gucs : list (string * string)) :=
  match value with
  | Some v => (name, v) :: toy_remove name gucs
  | None => toy_remove name gucs
  end.

Definition toy_with_gucs gucs frozen (e : ToyEnv) : ToyEnv :=
  {| toy_gucs := gucs; toy_frozen := frozen; toy_clock := toy_clock e;
     toy_connect := toy_connect e; toy_table := toy_table e;
     toy_select := toy_select e; toy_rows := toy_rows e;
     toy_processed := toy_processed e; toy_tuptable := toy_tuptable e |}.

Definition toy_with_result processed tuptable (e : ToyEnv) : ToyEnv :=
  {| toy_gucs := toy_gucs e; toy_frozen := toy_frozen e;
     toy_clock := toy_clock e;
     toy_connect := toy_connect e; toy_table := toy_table e;
     toy_select := toy_select e; toy_rows := toy_rows e;
     toy_processed := processed; toy_tuptable := tuptable |}.

Definition toy_set_config_option (name : string) (value : option string)
    (e : ToyEnv) : reply string Z * ToyEnv :=
  if existsb (String.eqb name) (toy_frozen e)
  then (Error ("cannot set " ++ name)%string, e)
  else (Normal 1, toy_with_gucs (toy_assign name value (toy_gucs e)) (toy_frozen e) e).

(** The plan tells which settings were in effect.  Query 13 fails;
    query 14 fails and leaves [work_mem] frozen; query 15 succeeds and
    leaves [work_mem] frozen. *)
Definition toy_planner (parse : Z) (query_string : option string)
    (cursorOptions : Z) (boundParams : unit) (e : ToyEnv)
  : reply string (list (string * string)) * ToyEnv :=
  if parse =? 13 then (Error "planner failed"%string, e)
  else if parse =? 14 then
    (Error "planner failed"%string,
     toy_with_gucs (toy_gucs e) ("work_mem"%string :: toy_frozen e) e)
  else if parse =? 15 then
    (Normal (toy_gucs e),
     toy_with_gucs (toy_gucs e) ("work_mem"%string :: toy_frozen e) e)
  else (Normal (toy_gucs e), e).

Definition toy_SPI_run (src : string) (plan : list (string * string))
    (read_only : bool) (tcount : Z) (e : ToyEnv) : reply string Z * ToyEnv :=
  if String.eqb src rules_table_sql then
    (Normal SPI_OK_SELECT,
     toy_with_result (if toy_table e then 1 else 0) [] e)
  else if toy_select e =? SPI_OK_SELECT then
    (Normal SPI_OK_SELECT,
     toy_with_result (Z.of_nat (List.length (toy_rows e))) (toy_rows e) e)
  else (Normal (toy_select e), toy_with_result 0 [] e).

#[local] Instance toy : Host := {|
  env := ToyEnv;
  ErrorData := string;
  Query := Z;
  PlannedStmt := list (string * string);
  ParamListInfo := unit;
  queryId := fun q => q;
  GetConfigOption := fun name e => Normal (toy_lookup name (toy_gucs e));
  set_config_option := toy_set_config_option;
  prev_planner_hook := None;
  standard_planner := toy_planner;
  GetCurrentTimestamp := toy_clock;
  SPI_connect := fun e => (toy_connect e, e);
  SPI_finish := fun e => e;
  SPI_analyze := fun src e => (Normal (0, 0, tt), e);
  SPI_run := toy_SPI_run;
  SPI_processed := toy_processed;
  SPI_tuptable := toy_tuptable
|}.

Definition toy_rule_1 : RuleTuple :=
  {| col_query_id := Some 42; col_query_pattern := None;
     col_gucs := Some [(WJB_BEGIN_OBJECT, jbvContainer);
                       (WJB_KEY, jbvString "enable_seqscan");
                       (WJB_VALUE, jbvBool false);
                       (WJB_KEY, jbvString "work_mem");
                       (WJB_VALUE, jbvString "64MB");
                       (WJB_END_OBJECT, jbvContainer)];
     col_priority := Some 10 |}.

Definition toy_rule_2 : RuleTuple :=
  {| col_query_id := None; col_query_pattern := Some "SELECT % FROM t_";
     col_gucs := Some [(WJB_BEGIN_OBJECT, jbvContainer);
                       (WJB_KEY, jbvString "work_mem");
                       (WJB_VALUE, jbvNumeric "128");
                       (WJB_KEY, jbvString "junk");
                       (WJB_VALUE, jbvNull);
                       (WJB_KEY, jbvString "jit");
                       (WJB_VALUE, jbvBool true);
                       (WJB_END_OBJECT, jbvContainer)];
     col_priority := None |}.

Definition toy_env : ToyEnv :=
  {| toy_gucs := [("work_mem", "4MB"); ("enable_seqscan", "on")];
     toy_frozen := []; toy_clock := 1000000000;
     toy_connect := SPI_OK_CONNECT; toy_table := true;
     toy_select := SPI_OK_SELECT; toy_rows := [toy_rule_1; toy_rule_2];
     toy_processed := 0; toy_tuptable := [] |}.

Definition toy_world : World := PG_init toy_env.

(** The module switched off. *)
Definition toy_disabled : World :=
  {| po_enabled := false; po_debug := false; po_cache_ttl := 60;
     cached_rules := None; cached_rules_count := 0; cache_loaded_at := 0;
     cache_context := false; loading_rules := false;
     backend := toy_env; journal := [] |}.

(** The store cannot be reached. *)
Definition toy_env_down : ToyEnv :=
  {| toy_gucs := toy_gucs toy_env; toy_frozen := []; toy_clock := toy_clock toy_env;
     toy_connect := 0; toy_table := true;
     toy_select := SPI_OK_SELECT; toy_rows := toy_rows toy_env;
     toy_processed := 0; toy_tuptable := [] |}.

(** The rules table is not there. *)
Definition toy_env_bare : ToyEnv :=
  {| toy_gucs := toy_gucs toy_env; toy_frozen := []; toy_clock := toy_clock toy_env;
     toy_connect := SPI_OK_CONNECT; toy_table := false;
     toy_select := SPI_OK_SELECT; toy_rows := [];
     toy_processed := 0; toy_tuptable := [] |}.

(** A rule that names a setting twice, in a cache loaded just now. *)
Definition toy_twice : OverrideRule :=
  {| query_id := 7; query_pattern := None;
     guc_names := ["work_mem"; "jit"; "work_mem"];
     guc_values := ["1MB"; "off"; "2MB"];
     num_gucs := 3; priority := 0 |}.

Definition toy_world_twice : World :=
  {| po_enabled := true; po_debug := true; po_cache_ttl := 60;
     cached_rules := Some [toy_twice]; cached_rules_count := 1;
     cache_loaded_at := toy_clock toy_env;
     cache_context := true; loading_rules := false;
     backend := toy_env; journal := [] |}.

(** The world a first load leaves. *)
Definition toy_loaded : World :=
  Eval vm_compute in
    match load_rules (po_planner 1) toy_world with
    | Returned _ w => w
    | _ => toy_world
    end.

(** The two rules of the small backend, as [load_rules] caches them. *)
Definition toy_cached_1 : OverrideRule :=
  {| query_id := 42; query_pattern := None;
     guc_names := ["enable_seqscan"; "work_mem"];
     guc_values := ["off"; "64MB"];
     num_gucs := 2; priority := 10 |}.

Definition toy_cached_2 : OverrideRule :=
  {| query_id := 0; query_pattern := Some "SELECT % FROM t_";
     guc_names := ["work_mem"; "jit"];
     guc_values := ["128"; "on"];
     num_gucs := 2; priority := 0 |}.

(** The worlds of a refresh without a rules table. *)
Definition toy_bare_connected : World :=
  Eval vm_compute in
    match load_rules_connect (PG_init toy_env_bare) with
    | Returned _ w => w
    | _ => PG_init toy_env_bare
    end.

Definition toy_bare_checked : World :=
  Eval vm_compute in
    match SPI_execute (po_planner 1) rules_table_sql true 1 toy_bare_connected with
    | Returned _ w => w
    | _ => toy_bare_connected
    end.

Definition toy_bare_refreshed : World :=
  Eval vm_compute in
    match load_rules (po_planner 1) (PG_init toy_env_bare) with
    | Returned _ w => w
    | _ => PG_init toy_env_bare
    end.

(** The world of a refresh that cannot connect. *)
Definition toy_down_refreshed : World :=
  Eval vm_compute in
    match load_rules (po_planner 1) (PG_init toy_env_down) with
    | Returned _ w => w
    | _ => PG_init toy_env_down
    end.

(* ================================================================== *)
(** * More vocabulary: payloads, loaded rules, computations that return *)

(** The text that [parse_jsonb_gucs] makes of a value: a string as it
    is, a boolean as [on] or [off], a number as [numeric_out] prints
    it; nothing of any other value. *)
Definition guc_text (v : JsonbValue) : option string :=
  match v with
  | jbvString val => Some val
  | jbvBool boolean => Some (if boolean then "on" else "off")
  | jbvNumeric numeric_out => Some numeric_out
  | _ => None
  end.

(** The tokens of a flat object [{k1: v1, ..., kn: vn}]. *)
Definition flat_object (pairs : list (string * JsonbValue)) : Jsonb :=
  (WJB_BEGIN_OBJECT, jbvContainer)
  :: flat_map (fun kv => [(WJB_KEY, jbvString (fst kv)); (WJB_VALUE, snd kv)])
       pairs
  ++ [(WJB_END_OBJECT, jbvContainer)].

(** The pairs of an object that have a text, and the keys of the others. *)
Definition kept_pairs (pairs : list (string * JsonbValue))
  : list (string * string) :=
  flat_map (fun kv => match guc_text (snd kv) with
                      | Some text => [(fst kv, text)]
                      | None => []
                      end) pairs.

Definition dropped_keys (pairs : list (string * JsonbValue)) : list string :=
  flat_map (fun kv => match guc_text (snd kv) with
                      | Some _ => []
                      | None => [fst kv]
                      end) pairs.

(** The tokens [parse_jsonb_gucs] looks at. *)
Definition key_or_value (tv : JsonbIteratorToken * JsonbValue) : bool :=
  match fst tv with
  | WJB_KEY | WJB_VALUE => true
  | _ => false
  end.

(** A pattern without [%]. *)
Definition no_percent (p : cstr) : Prop :=
  Forall (fun c => is_percent c = false) p.

Section MoreVocabulary.

Context {H : Host}.

Definition skip_warning (key : string) : Call :=
  Call_elog WARNING "pg_plan_override: skipping non-scalar GUC value for '%s'"
    [arg_s key].

(** [rule] is what [load_rules] makes of the row [tuple]. *)
Definition rule_of_tuple (tuple : RuleTuple) (rule : OverrideRule) : Prop :=
  query_id rule = match col_query_id tuple with None => 0 | Some d => d end
  /\ query_pattern rule = col_query_pattern tuple
  /\ priority rule = match col_priority tuple with None => 0 | Some d => d end
  /\ match col_gucs tuple with
     | None => num_gucs rule = 0 /\ guc_names rule = [] /\ guc_values rule = []
     | Some datum =>
         exists count w0 w0',
           parse_jsonb_gucs datum w0
           = Returned (count, guc_names rule, guc_values rule) w0'
           /\ num_gucs rule = Z.of_nat count
     end.

(** [m] returns from every world, and leaves the statics and the
    backend as they were. *)
Definition only_logs {A} (m : M A) : Prop :=
  forall w, exists a w',
    m w = Returned a w' /\ same_statics w w' /\ backend w' = backend w.

(** The statics other than the rule array are the same, and so is the
    backend. *)
Definition same_but_rules (w w' : World) : Prop :=
  po_enabled w' = po_enabled w /\ po_debug w' = po_debug w /\
  po_cache_ttl w' = po_cache_ttl w /\
  cached_rules_count w' = cached_rules_count w /\
  cache_loaded_at w' = cache_loaded_at w /\
  cache_context w' = cache_context w /\ loading_rules w' = loading_rules w /\
  backend w' = backend w.

(** A call other than [SPI_finish]. *)
Definition not_finish (c : Call) : Prop := c <> Call_SPI_finish.


Definition restore_calls (rule : OverrideRule)
    (saved_values : list (option string)) : list Call :=
  map (fun i => Call_set_config_option (nth i (guc_names rule) "")
                  (nth i saved_values None))
    (seq 0 (Z.to_nat (num_gucs rule))).


(** A call that is no call of SPI. *)
Definition not_spi (c : Call) : Prop :=
  match c with
  | Call_SPI_connect | Call_SPI_execute _ | Call_SPI_finish => False
  | _ => True
  end.

(** The reads of the snapshot up to and including entry [k]. *)
Definition snapshot_reads (rule : OverrideRule) (k : nat) : list Call :=
  map (fun i => Call_GetConfigOption (nth i (guc_names rule) "")) (seq 0 k).

(** The block of the hook under [PG_TRY], with its handler. *)
Definition protected_planner (rule : OverrideRule)
    (saved_values : list (option string)) : planner_hook_type :=
  fun parse query_string cursorOptions boundParams =>
  PG_TRY
    (result <- next_planner parse query_string cursorOptions boundParams ;;
     restore_guc_values rule saved_values ;;
     ret result)
    (fun e => restore_guc_values rule saved_values ;; PG_RE_THROW e).

(* ------------------------------------------------------------------ *)
(** ** Sessions *)

(** [load_rules], started in [w], comes to one of its three returns
    that load a rule set: [SPI_connect] succeeds, the query for the
    rules table returns, and either the table is not there or the rule
    query returns [SPI_OK_SELECT]. *)
Definition load_completes (planner_hook : planner_hook_type) (w : World)
  : bool :=
  match load_rules_connect w with
  | Returned code w1 =>
      (code =? SPI_OK_CONNECT)
      && match SPI_execute planner_hook rules_table_sql true 1 w1 with
         | Returned ret_ w2 =>
             negb (ret_ =? SPI_OK_SELECT) || (SPI_processed (backend w2) =? 0)
             || match SPI_execute planner_hook rules_query_sql true 0 w2 with
                | Returned ret' _ => ret' =? SPI_OK_SELECT
                | _ => false
                end
         | _ => false
         end
  | _ => false
  end.

(** The time of the last load that has loaded a rule set, after
    [load_rules] was started in [w]: the time at the return of this
    load if it loads a rule set, and [last], the time before, if not. *)
Definition stamp_of_load (planner_hook : planner_hook_type) (w : World)
    (last : option Z) : option Z :=
  match load_rules planner_hook w with
  | Returned _ w1 =>
      if load_completes planner_hook w
      then Some (GetCurrentTimestamp (backend w1))
      else last
  | _ => last
  end.

Definition loaded_time (last : option Z) : Z :=
  match last with Some t => t | None => 0 end.

(** The GUC variables of [_PG_init], as the backend assigns them. *)
Definition set_gucs (enabled debug : bool) (ttl : Z) (w : World) : World :=
  {| po_enabled := enabled; po_debug := debug; po_cache_ttl := ttl;
     cached_rules := cached_rules w;
     cached_rules_count := cached_rules_count w;
     cache_loaded_at := cache_loaded_at w; cache_context := cache_context w;
     loading_rules := loading_rules w; backend := backend w;
     journal := journal w |}.

(** [session w last]: [w] is a world of a session of the module, and
    [last] is the time of the last load of the session that has loaded
    a rule set, if there was one.  A session starts as [_PG_init]
    leaves the statics; then the backend moves on, the user assigns
    the GUC variables within the bounds [_PG_init] declares, the
    planner hook is called, and [refresh_cache()] is called. *)
Inductive session : World -> option Z -> Prop :=
| session_start b : session (PG_init b) None
| session_backend w last b :
    session w last -> session (set_backend b w) last
| session_gucs w last enabled debug ttl :
    session w last -> 1 <= ttl <= 3600 ->
    session (set_gucs enabled debug ttl w) last
| session_run w last depth parse query_string cursorOptions boundParams w' :
    session w last ->
    world_of (po_planner (S (S depth)) parse query_string cursorOptions
                boundParams w) = Some w' ->
    session w'
      (if po_enabled w && negb (loading_rules w) && cache_expired w
       then stamp_of_load (po_planner (S depth)) w last
       else last)
| session_refresh w last depth w' :
    session w last ->
    world_of (pg_plan_override_refresh_cache (S depth) w) = Some w' ->
    session w' (stamp_of_load (po_planner (S depth)) w last).

(** The cache is stale at [now]: no load has loaded a rule set, or the
    last one that has is [ttl] seconds old (times in microseconds). *)
Definition stale (last : option Z) (now ttl : Z) : Prop :=
  last = None \/ now - loaded_time last >= ttl * 1000000.

End MoreVocabulary.

(* ================================================================== *)
(** * A backend that refuses *)

(** The small backend, but reading a setting that has no value raises,
    and so does the analysis of any command other than the query for
    the rules table. *)
Definition toy_strict : Host := {|
  env := ToyEnv;
  ErrorData := string;
  Query := Z;
  PlannedStmt := list (string * string);
  ParamListInfo := unit;
  queryId := fun q => q;
  GetConfigOption := fun name e =>
    match toy_lookup name (toy_gucs e) with
    | Some v => Normal (Some v)
    | None => Error ("unrecognized configuration parameter " ++ name)%string
    end;
  set_config_option := toy_set_config_option;
  prev_planner_hook := None;
  standard_planner := toy_planner;
  GetCurrentTimestamp := toy_clock;
  SPI_connect := fun e => (toy_connect e, e);
  SPI_finish := fun e => e;
  SPI_analyze := fun src e =>
    if String.eqb src rules_table_sql then (Normal (0, 0, tt), e)
    else (Error "permission denied for table override_rules"%string, e);
  SPI_run := toy_SPI_run;
  SPI_processed := toy_processed;
  SPI_tuptable := toy_tuptable
|}.

Definition strict_world : @World toy_strict := @PG_init toy_strict toy_env.

(** A rule whose second entry names a setting the backend does not
    have, in a cache loaded just now. *)
Definition toy_unknown : OverrideRule :=
  {| query_id := 9; query_pattern := None;
     guc_names := ["work_mem"; "enable_nosuch"; "jit"];
     guc_values := ["1MB"; "off"; "on"];
     num_gucs := 3; priority := 0 |}.

Definition strict_cached : @World toy_strict :=
  {| po_enabled := true; po_debug := false; po_cache_ttl := 60;
     cached_rules := Some [toy_unknown]; cached_rules_count := 1;
     cache_loaded_at := toy_clock toy_env;
     cache_context := true; loading_rules := false;
     backend := (toy_env : @env toy_strict); journal := [] |}.

Local Close Scope Z_scope.

(* ================================================================== *)
(** * The pattern matcher computes LIKE *)

Lemma like_cons_fits pc tc t p :
  fits pc tc -> (like (tc :: t) (pc :: p) <-> like t p).
Proof.
  intros [Hp Hm]. split; intro H.
  - inversion H; subst; try assumption.
    discriminate Hp.
  - apply orb_true_iff in Hm. destruct Hm as [Hu | He].
    + apply Ascii.eqb_eq in Hu. subst pc. now constructor.
    + apply Ascii.eqb_eq in He. subst pc.
      destruct (is_underscore tc) eqn:Hu.
      * apply Ascii.eqb_eq in Hu. subst tc. now constructor.
      * now constructor.
Qed.

Lemma like_prefix pre txt t p :
  pos_match pre txt -> (like (txt ++ t) (pre ++ p) <-> like t p).
Proof.
  induction 1 as [| pc tc pre txt Hf _ IH]; simpl.
  - reflexivity.
  - rewrite like_cons_fits by assumption. exact IH.
Qed.

Lemma like_percent_inv t p :
  like t ("%"%char :: p) <-> exists u v, t = u ++ v /\ like v p.
Proof.
  split.
  - intro H. inversion H; subst.
    + eauto.
    + discriminate.
  - intros (u & v & -> & H). now constructor.
Qed.

Lemma like_percent_skip t p : like t p -> like t ("%"%char :: p).
Proof. intro H. exact (like_percent [] t p H). Qed.

Lemma like_percent_grow u v p :
  like v ("%"%char :: p) -> like (u ++ v) ("%"%char :: p).
Proof.
  rewrite !like_percent_inv. intros (a & b & -> & H).
  exists (u ++ a), b. now rewrite app_assoc.
Qed.

Lemma like_percent_percent t p :
  like t ("%"%char :: "%"%char :: p) <-> like t ("%"%char :: p).
Proof.
  split; intro H.
  - apply like_percent_inv in H. destruct H as (u & v & -> & H).
    now apply like_percent_grow.
  - now apply like_percent_skip.
Qed.

Lemma like_percent_collapse t p :
  like t ("%"%char :: p) <-> like t ("%"%char :: skip_percent p).
Proof.
  induction p as [| c p IH]; simpl; [reflexivity |].
  destruct (is_percent c) eqn:Hc; [| reflexivity].
  apply Ascii.eqb_eq in Hc. subst c.
  now rewrite like_percent_percent.
Qed.

Lemma like_min_len t p : like t p -> min_len p <= List.length t.
Proof.
  induction 1; simpl; try lia.
  - rewrite length_app. lia.
  - rewrite H. lia.
Qed.

Lemma min_len_skip p : min_len p = 0 <-> skip_percent p = [].
Proof.
  induction p as [| c p IH]; simpl; [tauto |].
  destruct (is_percent c); [exact IH |]. split; [lia | discriminate].
Qed.

Lemma min_len_app p q : min_len (p ++ q) = min_len p + min_len q.
Proof.
  induction p as [| c p IH]; simpl; [reflexivity |].
  destruct (is_percent c); lia.
Qed.

Lemma pos_match_min_len pre txt :
  pos_match pre txt -> min_len pre = List.length txt.
Proof.
  induction 1 as [| pc tc pre txt [Hp _] _ IH]; simpl; [reflexivity |].
  rewrite Hp. lia.
Qed.

Lemma like_nil_iff p : like [] p <-> skip_percent p = [].
Proof.
  split.
  - intro H. apply min_len_skip. apply like_min_len in H. simpl in H. lia.
  - induction p as [| c p IH]; simpl; [constructor |].
    destruct (is_percent c) eqn:Hc; [| discriminate].
    apply Ascii.eqb_eq in Hc. subst c. intro H.
    apply like_percent_skip. auto.
Qed.

Lemma like_all_percent t p :
  skip_percent p = [] -> like t ("%"%char :: p).
Proof.
  intro H. apply like_nil_iff in H.
  rewrite <- (app_nil_r t). now constructor.
Qed.

Lemma at_nul_true p : at_nul p = true <-> p = [].
Proof. destruct p; simpl; split; congruence. Qed.

Lemma skip_percent_length p : List.length (skip_percent p) <= List.length p.
Proof.
  induction p as [| c p IH]; simpl; [lia |].
  destruct (is_percent c); simpl; lia.
Qed.

Lemma app_suffix_by_length {A} (a b c d : list A) :
  a ++ b = c ++ d -> List.length d <= List.length b -> exists w, b = w ++ d.
Proof.
  revert c. induction a as [| x a IH]; intros c H Hl; simpl in H.
  - subst b. eauto.
  - destruct c as [| y c]; simpl in H.
    + subst d. simpl in Hl. rewrite length_app in Hl. lia.
    + injection H as _ H. eauto.
Qed.

Lemma like_split_prefix pre v q :
  Forall (fun c => is_percent c = false) pre ->
  like v (pre ++ q) ->
  exists v1 v2, v = v1 ++ v2 /\ List.length v1 = List.length pre /\ like v2 q.
Proof.
  intro Hpre. revert v.
  induction Hpre as [| c pre Hc _ IH]; intros v H; simpl in *.
  - exists [], v. auto.
  - inversion H as [| | c' t' p' L | c' t' p' _ _ L]; subst; try discriminate.
    + destruct (IH _ L) as (v1 & v2 & -> & Hl & H2).
      exists (c' :: v1), v2. simpl. auto.
    + destruct (IH _ L) as (v1 & v2 & -> & Hl & H2).
      exists (c :: v1), v2. simpl. auto.
Qed.

Lemma pos_match_no_percent pre txt :
  pos_match pre txt -> Forall (fun c => is_percent c = false) pre.
Proof. induction 1 as [| ? ? ? ? [? _]]; constructor; auto. Qed.

Lemma pos_match_length pre txt :
  pos_match pre txt -> List.length pre = List.length txt.
Proof. apply Forall2_length. Qed.

(** The step the matcher takes at a [%] while a backtrack point exists. *)
Lemma like_greedy pre txt t p0 :
  pos_match pre txt ->
  (like (txt ++ t) ("%"%char :: pre ++ "%"%char :: p0)
   <-> like t ("%"%char :: p0)).
Proof.
  intro Hm. split; intro H.
  - apply like_percent_inv in H. destruct H as (u & v & E & H).
    apply like_split_prefix in H; [| eapply pos_match_no_percent; eauto].
    destruct H as (v1 & v2 & -> & Hl & H2).
    assert (Hlen : List.length v2 <= List.length t).
    { apply (f_equal (@List.length _)) in E. rewrite !length_app in E.
      apply pos_match_length in Hm. lia. }
    rewrite app_assoc in E.
    destruct (app_suffix_by_length _ _ _ _ E Hlen) as (w & ->).
    now apply like_percent_grow.
  - apply like_percent_skip. now apply like_prefix.
Qed.

Lemma like_mismatch tc t p :
  match p with
  | [] => True
  | pc :: _ => is_percent pc = false /\ (is_underscore pc || Ascii.eqb pc tc) = false
  end ->
  ~ like (tc :: t) p.
Proof.
  destruct p as [| pc p]; intros H L; inversion L; subst.
  - destruct H as [H _]. discriminate.
  - destruct H as [_ H]. discriminate.
  - destruct H as [_ H]. rewrite Ascii.eqb_refl, orb_true_r in H. discriminate.
Qed.

(** One backtrack step: the text position after the last [%] moves on. *)
Lemma like_backtrack x txt tc t pre p :
  pos_match pre txt ->
  ~ like (tc :: t) p ->
  forall tb', txt ++ tc :: t = x :: tb' ->
  (like (x :: tb') ("%"%char :: pre ++ p) <-> like tb' ("%"%char :: pre ++ p)).
Proof.
  intros Hm Hno tb' E. split; intro H.
  - apply like_percent_inv in H. destruct H as (u & v & Euv & H).
    destruct u as [| y u]; simpl in Euv.
    + subst v. rewrite <- E in H. apply like_prefix in H; tauto.
    + injection Euv as _ ->. now constructor.
  - exact (like_percent_grow [x] tb' _ H).
Qed.

Section LoopCorrect.

Variable N : nat.

Lemma loop_backtrack_state fuel :
  forall t p txt pre,
    pos_match pre txt ->
    List.length (pre ++ p) <= N ->
    List.length (txt ++ t) * S N + List.length p < fuel ->
    exists b,
      pattern_match_loop fuel t p (Some (txt ++ t)) (Some (pre ++ p)) = Some b
      /\ (b = true <-> like (txt ++ t) ("%"%char :: pre ++ p)).
Proof.
  induction fuel as [| fuel IH]; intros t p txt pre Hm HN Hfuel; [lia |].
  assert (Hlen := pos_match_length _ _ Hm).
  (* what the backtrack branch does *)
  assert (Hback : forall tc t', t = tc :: t' -> ~ like t p ->
    exists b,
      match txt ++ t with
      | _ :: tb' => pattern_match_loop fuel tb' (pre ++ p) (Some tb') (Some (pre ++ p))
      | [] => Some false
      end = Some b
      /\ (b = true <-> like (txt ++ t) ("%"%char :: pre ++ p))).
  { intros tc t' -> Hno.
    destruct (txt ++ tc :: t') as [| x tb'] eqn:E.
    { destruct txt; discriminate. }
    destruct (IH tb' (pre ++ p) [] []) as (b & Hb & Hiff).
    - constructor.
    - exact HN.
    - apply (f_equal (@List.length _)) in E. simpl in *.
      rewrite !length_app in *. simpl in *. nia.
    - exists b. split; [exact Hb |]. simpl in Hiff. rewrite Hiff.
      symmetry. eapply like_backtrack; eauto. }
  destruct t as [| tc t'].
  - (* text exhausted *)
    simpl. eexists. split; [reflexivity |].
    rewrite at_nul_true, app_nil_r. split; intro H.
    + apply like_percent_skip. rewrite <- (app_nil_r txt).
      apply like_prefix; [assumption |]. now apply like_nil_iff.
    + apply like_min_len in H. simpl in H. rewrite min_len_app in H.
      rewrite (pos_match_min_len _ _ Hm) in H.
      apply min_len_skip. lia.
  - destruct p as [| pc p'].
    + cbn [pattern_match_loop].
      apply (Hback tc t' eq_refl). now apply like_mismatch.
    + cbn [pattern_match_loop].
      destruct (is_percent pc) eqn:Hpc.
      * apply Ascii.eqb_eq in Hpc. subst pc.
        assert (Hskip : skip_percent ("%"%char :: p') = skip_percent p')
          by reflexivity.
        rewrite Hskip.
        destruct (at_nul (skip_percent p')) eqn:Hnul.
        -- exists true. split; [reflexivity |]. split; [intros _ | reflexivity].
           apply at_nul_true in Hnul.
           apply like_percent_skip, like_prefix; [assumption |].
           now apply like_all_percent.
        -- destruct (IH (tc :: t') (skip_percent p') [] []) as (b & Hb & Hiff).
           ++ constructor.
           ++ simpl. pose proof (skip_percent_length p').
              rewrite length_app in HN. simpl in HN. lia.
           ++ simpl. pose proof (skip_percent_length p').
              rewrite !length_app in *. simpl in *. nia.
           ++ exists b. split; [exact Hb |]. simpl in Hiff. rewrite Hiff.
              rewrite <- like_percent_collapse. symmetry.
              now apply like_greedy.
      * destruct (is_underscore pc || Ascii.eqb pc tc) eqn:Hfit.
        -- destruct (IH t' p' (txt ++ [tc]) (pre ++ [pc])) as (b & Hb & Hiff).
           ++ apply Forall2_app; [assumption |]. repeat constructor; assumption.
           ++ rewrite <- app_assoc. exact HN.
           ++ rewrite <- app_assoc. simpl in *. lia.
           ++ rewrite <- !app_assoc in Hb, Hiff. simpl in Hb, Hiff. eauto.
        -- apply (Hback tc t' eq_refl). apply like_mismatch. auto.
Qed.

Lemma loop_initial_state fuel :
  forall t p,
    List.length p <= N ->
    List.length t * S N + List.length p < fuel ->
    exists b,
      pattern_match_loop fuel t p None None = Some b
      /\ (b = true <-> like t p).
Proof.
  induction fuel as [| fuel IH]; intros t p HN Hfuel; [lia |].
  destruct t as [| tc t'].
  - simpl. eexists. split; [reflexivity |].
    rewrite at_nul_true. symmetry. apply like_nil_iff.
  - destruct p as [| pc p'].
    + simpl. exists false. split; [reflexivity |].
      split; [discriminate |]. intro H. inversion H.
    + cbn [pattern_match_loop].
      destruct (is_percent pc) eqn:Hpc.
      * apply Ascii.eqb_eq in Hpc. subst pc.
        assert (Hskip : skip_percent ("%"%char :: p') = skip_percent p')
          by reflexivity.
        rewrite Hskip.
        destruct (at_nul (skip_percent p')) eqn:Hnul.
        -- exists true. split; [reflexivity |]. split; [intros _ | reflexivity].
           apply at_nul_true in Hnul. now apply like_all_percent.
        -- destruct (loop_backtrack_state fuel (tc :: t') (skip_percent p') [] [])
             as (b & Hb & Hiff).
           ++ constructor.
           ++ simpl. pose proof (skip_percent_length p'). simpl in HN. lia.
           ++ simpl. pose proof (skip_percent_length p'). simpl in *. nia.
           ++ exists b. split; [exact Hb |]. simpl in Hiff. rewrite Hiff.
              symmetry. apply like_percent_collapse.
      * destruct (is_underscore pc || Ascii.eqb pc tc) eqn:Hfit.
        -- destruct (IH t' p') as (b & Hb & Hiff).
           ++ simpl in HN. lia.
           ++ simpl in *. lia.
           ++ exists b. split; [exact Hb |]. rewrite Hiff. symmetry.
              apply like_cons_fits. split; assumption.
        -- exists false. split; [reflexivity |]. split; [discriminate |].
           intro H. exfalso. eapply like_mismatch; [| exact H]. simpl. auto.
Qed.

End LoopCorrect.

Lemma pattern_match_like text pattern :
  pattern_match text pattern = true
  <-> like (list_ascii_of_string text) (list_ascii_of_string pattern).
Proof.
  unfold pattern_match.
  set (t := list_ascii_of_string text). set (p := list_ascii_of_string pattern).
  destruct (loop_initial_state (List.length p) (pattern_match_fuel t p) t p)
    as (b & Hb & Hiff).
  - lia.
  - unfold pattern_match_fuel. lia.
  - rewrite Hb. exact Hiff.
Qed.

(** The iterations allowed are enough, and more change nothing. *)
Lemma pattern_match_loop_ends text pattern fuel :
  pattern_match_fuel (list_ascii_of_string text) (list_ascii_of_string pattern)
  <= fuel ->
  pattern_match_loop fuel (list_ascii_of_string text)
    (list_ascii_of_string pattern) None None
  = Some (pattern_match text pattern).
Proof.
  intro Hfuel. pose proof (pattern_match_like text pattern) as Hlike.
  revert Hfuel Hlike.
  set (t := list_ascii_of_string text). set (p := list_ascii_of_string pattern).
  intros Hfuel Hlike.
  destruct (loop_initial_state (List.length p) fuel t p) as (b & Hb & Hiff).
  - lia.
  - unfold pattern_match_fuel in Hfuel. lia.
  - rewrite Hb. f_equal.
    destruct b, (pattern_match text pattern); try reflexivity.
    + symmetry. apply Hlike, Hiff. reflexivity.
    + apply Hiff, Hlike. reflexivity.
Qed.

Lemma like_literal t p : literal p -> (like t p <-> t = p).
Proof.
  intro Hp. revert t. induction Hp as [| c p [Hc Hu] _ IH]; intro t.
  - split; intro H; [now inversion H | subst; constructor].
  - split; intro H.
    + inversion H; subst; try discriminate. f_equal. now apply IH.
    + subst t. constructor; try assumption. now apply IH.
Qed.

Lemma list_ascii_of_string_inj s1 s2 :
  list_ascii_of_string s1 = list_ascii_of_string s2 -> s1 = s2.
Proof.
  intro E. rewrite <- (string_of_list_ascii_of_string s1),
             <- (string_of_list_ascii_of_string s2). now rewrite E.
Qed.

Lemma pattern_match_literal text P :
  literal (list_ascii_of_string P) ->
  pattern_match text P = String.eqb text P.
Proof.
  intro HP.
  destruct (String.eqb text P) eqn:E.
  - apply String.eqb_eq in E. subst text.
    apply pattern_match_like. now apply like_literal.
  - destruct (pattern_match text P) eqn:Hm; [| reflexivity].
    apply pattern_match_like in Hm. apply like_literal in Hm; [| assumption].
    apply list_ascii_of_string_inj in Hm. apply String.eqb_neq in E. contradiction.
Qed.

Lemma at_nul_skip_percent p :
  at_nul (skip_percent p) = forallb is_percent p.
Proof.
  induction p as [| c p IH]; simpl; [reflexivity |].
  destruct (is_percent c); simpl; auto.
Qed.

Lemma like_trailing_percent t p stars :
  forallb is_percent stars = true -> like t p -> like t (p ++ stars).
Proof.
  intros Hs H. induction H; simpl; try (constructor; assumption).
  rewrite <- at_nul_skip_percent in Hs. apply at_nul_true in Hs.
  now apply like_nil_iff.
Qed.

Lemma list_ascii_of_string_app s1 s2 :
  list_ascii_of_string (s1 ++ s2)%string
  = list_ascii_of_string s1 ++ list_ascii_of_string s2.
Proof. induction s1 as [| c s1 IH]; simpl; [reflexivity | now rewrite IH]. Qed.

(** C5.  [pattern_match] is an anchored whole-string matcher: it answers
    true exactly when the whole text matches the whole pattern with [%]
    standing for any run of characters, [_] for any one character, and
    every other character (a backslash too: there is no escape) for
    itself; the loop ends within the iterations the model allows it.
    In particular a pattern without [%] and [_] matches the
    text equal to it and no other; once the text is used up the answer
    is whether the pattern left consists of [%] only; a match stays a
    match when [%]s are added at the end of the pattern; and the
    vectors of the specification hold. *)
Theorem pattern_match_is_like :
  (forall text pattern,
      pattern_match text pattern = true
      <-> like (list_ascii_of_string text) (list_ascii_of_string pattern))
  /\ (forall text pattern fuel,
      pattern_match_fuel (list_ascii_of_string text)
        (list_ascii_of_string pattern) <= fuel ->
      pattern_match_loop fuel (list_ascii_of_string text)
        (list_ascii_of_string pattern) None None
      = Some (pattern_match text pattern))
  /\ (forall text P,
      literal (list_ascii_of_string P) ->
      pattern_match text P = String.eqb text P)
  /\ (forall fuel p t_backtrack p_backtrack,
      pattern_match_loop (S fuel) [] p t_backtrack p_backtrack
      = Some (forallb is_percent p))
  /\ (forall text pattern stars,
      forallb is_percent (list_ascii_of_string stars) = true ->
      pattern_match text pattern = true ->
      pattern_match text (pattern ++ stars)%string = true)
  /\ (pattern_match "abc" "a%c" = true
      /\ pattern_match "ac" "a%c" = true
      /\ pattern_match "abc" "a_c" = true
      /\ pattern_match "abbc" "a_c" = false
      /\ pattern_match "abc" "%b%" = true
      /\ pattern_match "anything" "%" = true
      /\ pattern_match "a%c" "a\%c" = false
      /\ pattern_match "a\bc" "a\%c" = true).
Proof.
  split; [exact pattern_match_like |].
  split; [exact pattern_match_loop_ends |].
  split; [exact pattern_match_literal |].
  split.
  { intros. simpl. now rewrite at_nul_skip_percent. }
  split.
  { intros text pattern stars Hs Hm.
    apply pattern_match_like. rewrite list_ascii_of_string_app.
    apply like_trailing_percent; [assumption |]. now apply pattern_match_like. }
  repeat split; reflexivity.
Qed.

Lemma pattern_match_is_like_witness :
  pattern_match "SELECT 1" "SELECT 1" = String.eqb "SELECT 1" "SELECT 1"
  /\ pattern_match "SELECT 1" "SELECT _%%" = true.
Proof.
  split.
  - apply (proj1 (proj2 (proj2 pattern_match_is_like))).
    repeat constructor.
  - apply (proj1 (proj2 (proj2 (proj2 (proj2 pattern_match_is_like))))
             "SELECT 1" "SELECT _" "%%"); reflexivity.
Defined.
(* ================================================================== *)
(** * Reasoning about computations *)

Section Properties.

Context {H : Host}.

Lemma bind_returned {A B} (m : M A) (k : A -> M B) w b w' :
  bind m k w = Returned b w' ->
  exists a w1, m w = Returned a w1 /\ k a w1 = Returned b w'.
Proof.
  unfold bind. destruct (m w) as [a w1 | e w1 |]; try discriminate. eauto.
Qed.

Lemma bind_step {A B} (m : M A) (k : A -> M B) w a w1 :
  m w = Returned a w1 -> bind m k w = k a w1.
Proof. unfold bind. now intros ->. Qed.

Lemma bind_raised {A B} (m : M A) (k : A -> M B) w e w1 :
  m w = Raised e w1 -> bind m k w = Raised e w1.
Proof. unfold bind. now intros ->. Qed.

Lemma bind_assoc {A B C} (m : M A) (k : A -> M B) (k' : B -> M C) w :
  bind (bind m k) k' w = bind m (fun a => bind (k a) k') w.
Proof. unfold bind. destruct (m w); reflexivity. Qed.

Section Respects.

Variable R : World -> World -> Prop.
Variable allowed : Call -> Prop.
Hypothesis SR : step_relation R allowed.

Lemma R_refl : forall w, R w w.
Proof. apply SR. Qed.

Lemma R_trans : forall w1 w2 w3, R w1 w2 -> R w2 w3 -> R w1 w3.
Proof. apply SR. Qed.

Lemma R_backend : forall b w, R w (set_backend b w).
Proof. apply SR. Qed.

Lemma R_record : forall c w, allowed c -> R w (record_call c w).
Proof. apply SR. Qed.


Lemma respects_ret {A} (a : A) : respects R (ret a).
Proof. intro w. apply R_refl. Qed.

Lemma respects_gets {A} (f : World -> A) : respects R (gets f).
Proof. intro w. apply R_refl. Qed.

Lemma respects_modify (f : World -> World) :
  (forall w, R w (f w)) -> respects R (modify f).
Proof. intros Hf w. apply Hf. Qed.

Lemma respects_bind {A B} (m : M A) (k : A -> M B) :
  respects R m -> (forall a, respects R (k a)) -> respects R (bind m k).
Proof.
  intros Hm Hk w. unfold bind. specialize (Hm w).
  destruct (m w) as [a w1 | e w1 |]; try assumption.
  specialize (Hk a w1). simpl in Hm.
  destruct (k a w1); simpl in *; try assumption; eapply R_trans; eassumption.
Qed.

Lemma respects_PG_TRY {A} (body : M A) (handler : ErrorData -> M A) :
  respects R body -> (forall e, respects R (handler e)) ->
  respects R (PG_TRY body handler).
Proof.
  intros Hb Hh w. unfold PG_TRY. specialize (Hb w).
  destruct (body w) as [a w1 | e w1 |]; try assumption.
  specialize (Hh e w1). simpl in Hb.
  destruct (handler e w1); simpl in *; try assumption; eapply R_trans; eassumption.
Qed.

Lemma respects_PG_RE_THROW {A} e : respects R (@PG_RE_THROW H A e).
Proof. intro w. apply R_refl. Qed.

Lemma respects_for_loop {T} (body : nat -> T -> M T) count :
  forall start acc,
    (forall i a, (start <= i < start + count)%nat -> respects R (body i a)) ->
    respects R (for_loop start count body acc).
Proof.
  induction count as [| count IH]; intros start acc Hb; simpl.
  - apply respects_ret.
  - apply respects_bind.
    + apply Hb. lia.
    + intro a. apply IH. intros i a' Hi. apply Hb. lia.
Qed.

Lemma ends_lift_reply {A} (r : reply ErrorData A * env) w w0 :
  R w w0 -> ends R w (lift_reply r w0).
Proof.
  intro Hw. destruct r as [[a | e] b]; simpl;
    (eapply R_trans; [exact Hw | apply R_backend]).
Qed.

Lemma respects_elog level fmt args :
  allowed (Call_elog level fmt args) -> respects R (elog level fmt args).
Proof. intros Ha w. simpl. now apply R_record. Qed.

Lemma respects_GetConfigOption name :
  allowed (Call_GetConfigOption name) ->
  respects R (call_GetConfigOption name).
Proof.
  intros Ha w. unfold call_GetConfigOption.
  destruct (GetConfigOption name _); simpl; now apply R_record.
Qed.

Lemma respects_set_config_option name value :
  allowed (Call_set_config_option name value) ->
  respects R (call_set_config_option name value).
Proof.
  intros Ha w. unfold call_set_config_option.
  apply ends_lift_reply. now apply R_record.
Qed.

Lemma respects_SPI_connect :
  allowed Call_SPI_connect -> respects R call_SPI_connect.
Proof.
  intros Ha w. unfold call_SPI_connect.
  destruct (SPI_connect _) as [code b]. simpl.
  eapply R_trans; [apply R_record, Ha | apply R_backend].
Qed.

Lemma respects_SPI_finish :
  allowed Call_SPI_finish -> respects R call_SPI_finish.
Proof.
  intros Ha w. unfold call_SPI_finish. simpl.
  eapply R_trans; [apply R_record, Ha | apply R_backend].
Qed.

Lemma respects_next_planner parse query_string cursorOptions boundParams :
  allowed (Call_planner parse query_string) ->
  respects R (next_planner parse query_string cursorOptions boundParams).
Proof.
  intros Ha w. unfold next_planner.
  destruct prev_planner_hook; apply ends_lift_reply; now apply R_record.
Qed.

Lemma respects_SPI_execute planner_hook src read_only tcount :
  allowed (Call_SPI_execute src) ->
  (forall p q c b, respects R (planner_hook p q c b)) ->
  respects R (SPI_execute planner_hook src read_only tcount).
Proof.
  intros Ha Hh w. unfold SPI_execute.
  destruct (SPI_analyze src _) as [[[[parse co] bp] | e] b].
  - specialize (Hh parse (Some src) co bp
                  (set_backend b (record_call (Call_SPI_execute src) w))).
    assert (R0 : R w (set_backend b (record_call (Call_SPI_execute src) w)))
      by (eapply R_trans; [apply R_record, Ha | apply R_backend]).
    destruct (planner_hook _ _ _ _ _) as [plan w' | e w' |]; simpl in Hh.
    + apply ends_lift_reply. eapply R_trans; eassumption.
    + simpl. eapply R_trans; eassumption.
    + assumption.
  - simpl. eapply R_trans; [apply R_record, Ha | apply R_backend].
Qed.

Section Overrides.

Variable rule : OverrideRule.
Hypothesis allowed_get : forall name, allowed (Call_GetConfigOption name).
Hypothesis allowed_set :
  forall name value, names_setting rule name ->
                     allowed (Call_set_config_option name value).
Hypothesis allowed_elog : forall l f a, allowed (Call_elog l f a).
Hypothesis allowed_planner : forall p q, allowed (Call_planner p q).

Lemma respects_save_guc_values : respects R (save_guc_values rule).
Proof.
  apply respects_for_loop. intros i a _.
  apply respects_bind; [now apply respects_GetConfigOption |].
  intro. apply respects_ret.
Qed.

Lemma respects_set_override_gucs : respects R (set_override_gucs rule).
Proof.
  apply respects_for_loop. intros i a Hi.
  apply respects_bind; [| intro; apply respects_ret].
  apply respects_set_config_option, allowed_set. exists i. split; [lia | reflexivity].
Qed.

Lemma respects_restore_guc_values saved :
  respects R (restore_guc_values rule saved).
Proof.
  apply respects_for_loop. intros i a Hi.
  apply respects_bind; [| intro; apply respects_ret].
  apply respects_set_config_option, allowed_set. exists i. split; [lia | reflexivity].
Qed.


Lemma respects_plan_with_overrides parse query_string cursorOptions boundParams :
  respects R (plan_with_overrides rule parse query_string cursorOptions boundParams).
Proof.
  apply respects_bind; [apply respects_save_guc_values | intro saved].
  apply respects_bind; [apply respects_set_override_gucs | intros _].
  apply respects_bind; [apply respects_gets | intro debug].
  apply respects_bind.
  { destruct debug; [now apply respects_elog | apply respects_ret]. }
  intros _. apply respects_PG_TRY.
  - apply respects_bind; [now apply respects_next_planner | intro result].
    apply respects_bind; [apply respects_restore_guc_values | intros _].
    apply respects_ret.
  - intro e. apply respects_bind; [apply respects_restore_guc_values | intros _].
    apply respects_PG_RE_THROW.
Qed.

End Overrides.

End Respects.

(* ------------------------------------------------------------------ *)
(** ** The relations between worlds in use *)

Lemma ends_after {A} (R2 R3 : World -> World -> Prop) w w1 (o : outcome A) :
  (forall w', R2 w1 w' -> R3 w w') -> ends R2 w1 o -> ends R3 w o.
Proof. intro HR. destruct o; simpl; auto. Qed.

Lemma respects_returned {A} R (m : M A) w a w' :
  respects R m -> m w = Returned a w' -> R w w'.
Proof. intros Hm E. specialize (Hm w). now rewrite E in Hm. Qed.

Lemma respects_raised {A} R (m : M A) w e w' :
  respects R m -> m w = Raised e w' -> R w w'.
Proof. intros Hm E. specialize (Hm w). now rewrite E in Hm. Qed.

Lemma same_statics_refl w : same_statics w w.
Proof. unfold same_statics. tauto. Qed.

Lemma same_statics_trans w1 w2 w3 :
  same_statics w1 w2 -> same_statics w2 w3 -> same_statics w1 w3.
Proof. unfold same_statics. intuition congruence. Qed.

Lemma same_statics_backend b w : same_statics w (set_backend b w).
Proof. unfold same_statics. simpl. tauto. Qed.

Lemma same_statics_record c w : True -> same_statics w (record_call c w).
Proof. unfold same_statics. simpl. tauto. Qed.


Lemma journal_adds_refl P w : journal_adds P w w.
Proof. exists []. now rewrite app_nil_r. Qed.

Lemma journal_adds_trans P w1 w2 w3 :
  journal_adds P w1 w2 -> journal_adds P w2 w3 -> journal_adds P w1 w3.
Proof.
  intros (c1 & E1 & F1) (c2 & E2 & F2). exists (c1 ++ c2).
  rewrite E2, E1, app_assoc. split; [reflexivity | now apply Forall_app].
Qed.

Lemma journal_adds_backend P b w : journal_adds P w (set_backend b w).
Proof. exists []. simpl. now rewrite app_nil_r. Qed.

Lemma journal_adds_record P c w : P c -> journal_adds P w (record_call c w).
Proof. intro Hc. exists [c]. simpl. auto. Qed.

Lemma refreshes_app c1 c2 : refreshes (c1 ++ c2) = (refreshes c1 + refreshes c2)%nat.
Proof. unfold refreshes. now rewrite filter_app, length_app. Qed.

Lemma refreshed_compose j k w1 w2 w3 :
  refreshed j w1 w2 -> refreshed k w2 w3 -> refreshed (j + k) w1 w3.
Proof.
  intros (c1 & E1 & F1) (c2 & E2 & F2). exists (c1 ++ c2).
  rewrite E2, E1, app_assoc, refreshes_app. auto.
Qed.

Lemma refreshed_0_refl w : refreshed 0 w w.
Proof. exists []. now rewrite app_nil_r. Qed.

Lemma refreshed_0_trans w1 w2 w3 :
  refreshed 0 w1 w2 -> refreshed 0 w2 w3 -> refreshed 0 w1 w3.
Proof. apply (refreshed_compose 0 0). Qed.

Lemma refreshed_0_backend b w : refreshed 0 w (set_backend b w).
Proof. exists []. simpl. now rewrite app_nil_r. Qed.

Lemma refreshed_0_record c w :
  is_refresh c = false -> refreshed 0 w (record_call c w).
Proof. intro Hc. exists [c]. unfold refreshes. simpl. now rewrite Hc. Qed.

(* ------------------------------------------------------------------ *)
(** ** The planner behind the hook *)

Lemma same_statics_steps : step_relation same_statics (fun _ => True).
Proof.
  split; [exact same_statics_refl |].
  split; [exact same_statics_trans |].
  split; [exact same_statics_backend | exact same_statics_record].
Qed.

Lemma quiet_steps :
  step_relation (refreshed 0) (fun c => is_refresh c = false).
Proof.
  split; [exact refreshed_0_refl |].
  split; [exact refreshed_0_trans |].
  split; [exact refreshed_0_backend | exact refreshed_0_record].
Qed.

Lemma journal_adds_steps P : step_relation (journal_adds P) P.
Proof.
  split; [exact (journal_adds_refl P) |].
  split; [exact (journal_adds_trans P) |].
  split; [exact (journal_adds_backend P) | exact (journal_adds_record P)].
Qed.

Lemma next_planner_same_statics p q c b :
  respects same_statics (next_planner p q c b).
Proof. now apply (respects_next_planner _ _ same_statics_steps). Qed.

Lemma next_planner_quiet p q c b :
  respects (refreshed 0) (next_planner p q c b).
Proof. now apply (respects_next_planner _ _ quiet_steps). Qed.

(** The fast path of the hook. *)
Lemma po_planner_fast_path depth p q c b w :
  po_enabled w = false \/ loading_rules w = true ->
  po_planner (S depth) p q c b w = next_planner p q c b w.
Proof.
  intro Hw. simpl. unfold po_planner_body, bind, gets.
  destruct Hw as [-> | ->]; simpl; [reflexivity |].
  now rewrite orb_true_r.
Qed.

Lemma SPI_execute_hook_ext hook1 hook2 src read_only tcount w :
  (forall p q c b w, loading_rules w = true -> hook1 p q c b w = hook2 p q c b w) ->
  loading_rules w = true ->
  SPI_execute hook1 src read_only tcount w
  = SPI_execute hook2 src read_only tcount w.
Proof.
  intros Hext Hw. unfold SPI_execute.
  destruct (SPI_analyze src _) as [[[[parse co] bp] | e] b]; [| reflexivity].
  now rewrite Hext.
Qed.

Lemma SPI_execute_same_statics hook src read_only tcount :
  (forall p q c b, respects same_statics (hook p q c b)) ->
  respects same_statics (SPI_execute hook src read_only tcount).
Proof. intro Hh. now apply (respects_SPI_execute _ _ same_statics_steps). Qed.

Lemma bind_ext {A B} (m : M A) (k1 k2 : A -> M B) w :
  (forall a w', m w = Returned a w' -> k1 a w' = k2 a w') ->
  bind m k1 w = bind m k2 w.
Proof. intro Hk. unfold bind. destruct (m w); auto. Qed.

Lemma bind_ext2 {A B} (m1 m2 : M A) (k1 k2 : A -> M B) w :
  m1 w = m2 w ->
  (forall a w', m2 w = Returned a w' -> k1 a w' = k2 a w') ->
  bind m1 k1 w = bind m2 k2 w.
Proof. intros E Hk. unfold bind. rewrite E. destruct (m2 w); auto. Qed.

Lemma bind_modify {B} (f : World -> World) (k : unit -> M B) w :
  bind (modify f) k w = k tt (f w).
Proof. reflexivity. Qed.

Lemma bind_gets {A B} (f : World -> A) (k : A -> M B) w :
  bind (gets f) k w = k (f w) w.
Proof. reflexivity. Qed.

Lemma bind_ret {A B} (a : A) (k : A -> M B) w : bind (ret a) k w = k a w.
Proof. reflexivity. Qed.

Lemma call_SPI_connect_eq w :
  call_SPI_connect w
  = Returned (fst (SPI_connect (backend w)))
      (set_backend (snd (SPI_connect (backend w)))
         (record_call Call_SPI_connect w)).
Proof.
  unfold call_SPI_connect. simpl. now destruct (SPI_connect (backend w)).
Qed.

Lemma bind_SPI_connect {B} (k : Z -> M B) w :
  bind call_SPI_connect k w
  = k (fst (SPI_connect (backend w)))
      (set_backend (snd (SPI_connect (backend w)))
         (record_call Call_SPI_connect w)).
Proof. unfold bind. now rewrite call_SPI_connect_eq. Qed.

Lemma bind_SPI_finish {B} (k : unit -> M B) w :
  bind call_SPI_finish k w
  = k tt (set_backend (SPI_finish (backend w)) (record_call Call_SPI_finish w)).
Proof. reflexivity. Qed.

Lemma bind_elog {B} level fmt args (k : unit -> M B) w :
  bind (elog level fmt args) k w = k tt (record_call (Call_elog level fmt args) w).
Proof. reflexivity. Qed.

(** What [load_rules] does depends on the hook only where the hook is
    entered with the guard set. *)
Lemma load_rules_hook_ext hook1 hook2 w :
  (forall p q c b w, loading_rules w = true -> hook1 p q c b w = hook2 p q c b w) ->
  (forall p q c b, respects same_statics (hook2 p q c b)) ->
  load_rules hook1 w = load_rules hook2 w.
Proof.
  intros Hext Hst. unfold load_rules, free_rule_cache.
  repeat (rewrite bind_modify || rewrite bind_assoc).
  set (w0 := set_cache_context true _).
  rewrite !bind_SPI_connect.
  set (w1 := set_backend _ _).
  assert (G1 : loading_rules w1 = true) by reflexivity.
  destruct (negb _); [reflexivity |].
  apply bind_ext2; [now apply SPI_execute_hook_ext |]. intros ret1 w2 E2.
  assert (G2 : loading_rules w2 = true).
  { apply (respects_returned _ _ _ _ _ (SPI_execute_same_statics _ _ _ _ Hst)) in E2.
    destruct E2 as (_ & _ & _ & _ & _ & _ & _ & E2). congruence. }
  rewrite !bind_gets.
  destruct (_ || _); [reflexivity |].
  apply bind_ext2; [now apply SPI_execute_hook_ext | reflexivity].
Qed.

Lemma load_rules_fast depth w :
  load_rules (po_planner (S depth)) w = load_rules next_planner w.
Proof.
  apply load_rules_hook_ext.
  - intros. apply po_planner_fast_path. now right.
  - apply next_planner_same_statics.
Qed.

Lemma po_planner_depth depth p q c b w :
  po_planner (S (S depth)) p q c b w = po_planner 2 p q c b w.
Proof.
  change (po_planner_body (po_planner (S depth)) p q c b w
          = po_planner_body (po_planner 1) p q c b w).
  unfold po_planner_body.
  rewrite !bind_gets. destruct (negb _ || _); [reflexivity |].
  unfold refresh_if_expired. rewrite !bind_assoc, !bind_gets.
  destruct (cache_expired w); [| reflexivity].
  unfold bind. now rewrite !load_rules_fast.
Qed.

Lemma next_planner_journal p q c b :
  respects (fun w w' => journal w' = journal w ++ [Call_planner p q])
    (next_planner p q c b).
Proof.
  intro w. unfold next_planner.
  destruct prev_planner_hook as [prev |];
    [destruct (prev _ _ _ _ _) as [[r | e] b']
    | destruct (standard_planner _ _ _ _ _) as [[r | e] b']]; reflexivity.
Qed.

Lemma ends_and {A} (R1 R2 : World -> World -> Prop) w (o : outcome A) :
  ends R1 w o -> ends R2 w o -> ends (fun w w' => R1 w w' /\ R2 w w') w o.
Proof. destruct o; simpl; auto. Qed.

Lemma next_planner_direct p q c b w :
  ends (fun w w' =>
          same_statics w w' /\ journal w' = journal w ++ [Call_planner p q])
    w (next_planner p q c b w).
Proof.
  apply ends_and; [apply next_planner_same_statics | apply next_planner_journal].
Qed.

(** C9.  With [pg_plan_override.enabled] off the hook is the planner
    behind it: the same outcome, in a world whose statics are as they
    were and whose journal has one more entry, the call of the planner;
    no refresh, no lookup of a rule, no assignment, no message. *)
Theorem disabled_hook_is_the_planner depth parse query_string cursorOptions
    boundParams w :
  po_enabled w = false ->
  po_planner (S depth) parse query_string cursorOptions boundParams w
  = next_planner parse query_string cursorOptions boundParams w
  /\ ends (fun w w' =>
             same_statics w w'
             /\ journal w' = journal w ++ [Call_planner parse query_string])
       w (po_planner (S depth) parse query_string cursorOptions boundParams w).
Proof.
  intro Hoff.
  rewrite po_planner_fast_path by now left.
  split; [reflexivity | apply next_planner_direct].
Qed.

(* ------------------------------------------------------------------ *)
(** ** The calls of a refresh *)

Lemma quiet_same_journal w w' : journal w' = journal w -> refreshed 0 w w'.
Proof. intro E. exists []. now rewrite app_nil_r. Qed.

Ltac quiet :=
  repeat first
    [ apply (respects_ret _ _ quiet_steps)
    | apply (respects_gets _ _ quiet_steps)
    | apply (respects_bind _ _ quiet_steps)
    | apply (respects_elog _ _ quiet_steps); reflexivity
    | apply (respects_SPI_finish _ _ quiet_steps); reflexivity
    | apply respects_modify; intro; apply quiet_same_journal; reflexivity
    | match goal with
      | |- respects _ (if ?c then _ else _) => destruct c
      | |- respects _ (match ?x with _ => _ end) => destruct x
      end
    | intro ].

Lemma parse_jsonb_gucs_loop_quiet it :
  forall names values count capacity,
    respects (refreshed 0) (parse_jsonb_gucs_loop it names values count capacity).
Proof.
  induction it as [| [tok v] it IH]; intros names values count capacity; simpl.
  - quiet.
  - destruct tok; try apply IH.
    destruct v; try apply IH;
      (apply (respects_bind _ _ quiet_steps); [quiet | intros _; apply IH]).
Qed.

Lemma load_rule_quiet i : respects (refreshed 0) (load_rule i).
Proof.
  unfold load_rule.
  apply (respects_bind _ _ quiet_steps); [quiet | intro tuptable].
  apply (respects_bind _ _ quiet_steps).
  - destruct (col_gucs _); [apply parse_jsonb_gucs_loop_quiet | quiet].
  - intros [[count names] values]. quiet.
Qed.

Lemma SPI_execute_quiet src read_only tcount :
  respects (refreshed 0) (SPI_execute next_planner src read_only tcount).
Proof.
  apply (respects_SPI_execute _ _ quiet_steps); [reflexivity |].
  intros. apply next_planner_quiet.
Qed.

Lemma load_rules_refreshed w : ends (refreshed 1) w (load_rules next_planner w).
Proof.
  unfold load_rules, free_rule_cache.
  repeat (rewrite bind_modify || rewrite bind_assoc).
  rewrite bind_SPI_connect.
  match goal with |- ends _ _ (?rest ?w1) =>
    assert (Hrest : respects (refreshed 0) rest);
      [| apply (ends_after (refreshed 0) (refreshed 1) w w1); [| apply Hrest]]
  end.
  - destruct (negb _); [quiet |].
    apply (respects_bind _ _ quiet_steps); [apply SPI_execute_quiet | intro ret1].
    apply (respects_bind _ _ quiet_steps); [quiet | intro processed].
    destruct (_ || _); [quiet |].
    apply (respects_bind _ _ quiet_steps); [apply SPI_execute_quiet | intro ret2].
    destruct (negb _); [quiet |].
    apply (respects_bind _ _ quiet_steps); [quiet | intro processed2].
    apply (respects_bind _ _ quiet_steps); [quiet | intros _].
    apply (respects_bind _ _ quiet_steps); [quiet | intro count].
    destruct (count =? 0)%Z; [quiet |].
    apply (respects_bind _ _ quiet_steps); [quiet | intros _].
    apply (respects_bind _ _ quiet_steps); [| intros _; quiet].
    apply (respects_for_loop _ _ quiet_steps). intros. apply load_rule_quiet.
  - intros w' Hq. refine (refreshed_compose 1 0 _ _ _ _ Hq).
    exists [Call_SPI_connect]. split; reflexivity.
Qed.

(** The guard is set by [load_rules] itself: what a refresh does is the
    same whether it is entered with the guard set or clear. *)
Lemma load_rules_sets_the_guard hook g w :
  load_rules hook (set_loading_rules g w) = load_rules hook w.
Proof. reflexivity. Qed.

(** C7.  While [loading_rules] is set, the hook is the planner behind
    it, whatever the age and the content of the cache: the same
    outcome, the statics untouched, the call of the planner the one new
    entry of the journal.  So the planner calls that the SPI queries of
    [load_rules] cause are such direct calls, a load counts one
    refresh, its own, however deep the hook may nest, and the hook
    never nests deeper than once: two levels give the outcome of any
    greater number. *)
Theorem reentry_skips_the_engine :
  (forall depth parse query_string cursorOptions boundParams w,
      loading_rules w = true ->
      po_planner (S depth) parse query_string cursorOptions boundParams w
      = next_planner parse query_string cursorOptions boundParams w
      /\ ends (fun w w' =>
                 same_statics w w'
                 /\ journal w' = journal w ++ [Call_planner parse query_string])
           w (po_planner (S depth) parse query_string cursorOptions boundParams w))
  /\ (forall depth w,
      load_rules (po_planner (S depth)) w = load_rules next_planner w)
  /\ (forall depth w,
      ends (refreshed 1) w (load_rules (po_planner (S depth)) w))
  /\ (forall depth parse query_string cursorOptions boundParams w,
      po_planner (S (S depth)) parse query_string cursorOptions boundParams w
      = po_planner 2 parse query_string cursorOptions boundParams w).
Proof.
  split; [| split; [| split]].
  - intros depth parse query_string cursorOptions boundParams w Hw.
    rewrite po_planner_fast_path by now right.
    split; [reflexivity | apply next_planner_direct].
  - apply load_rules_fast.
  - intros depth w. rewrite load_rules_fast. apply load_rules_refreshed.
  - apply po_planner_depth.
Qed.

(* ------------------------------------------------------------------ *)
(** ** The reentrancy guard *)

Lemma modify_returned (f : World -> World) w u w' :
  modify f w = Returned u w' -> w' = f w.
Proof. unfold modify. now intros [= _ <-]. Qed.



Lemma plan_with_overrides_same_statics rule p q c b :
  respects same_statics (plan_with_overrides rule p q c b).
Proof. now apply (respects_plan_with_overrides _ _ same_statics_steps). Qed.

Lemma plan_with_overrides_quiet rule p q c b :
  respects (refreshed 0) (plan_with_overrides rule p q c b).
Proof. now apply (respects_plan_with_overrides _ _ quiet_steps). Qed.

(** The hook after its refresh: the lookup of a rule and what follows. *)
Lemma po_planner_unfold depth p q c b w :
  po_enabled w = true -> loading_rules w = false ->
  po_planner (S depth) p q c b w
  = bind (refresh_if_expired (po_planner depth))
      (fun _ =>
         rule <- gets (find_matching_rule p q) ;;
         match rule with
         | None => next_planner p q c b
         | Some rule => plan_with_overrides rule p q c b
         end) w.
Proof.
  intros He Hl. simpl. unfold po_planner_body.
  rewrite !bind_gets, He, Hl. reflexivity.
Qed.

Lemma after_refresh_same_statics p q c b :
  respects same_statics
    (rule <- gets (find_matching_rule p q) ;;
     match rule with
     | None => next_planner p q c b
     | Some rule => plan_with_overrides rule p q c b
     end).
Proof.
  apply (respects_bind _ _ same_statics_steps);
    [apply (respects_gets _ _ same_statics_steps) |].
  intros [rule |];
    [apply plan_with_overrides_same_statics | apply next_planner_same_statics].
Qed.

Lemma after_refresh_quiet p q c b :
  respects (refreshed 0)
    (rule <- gets (find_matching_rule p q) ;;
     match rule with
     | None => next_planner p q c b
     | Some rule => plan_with_overrides rule p q c b
     end).
Proof.
  apply (respects_bind _ _ quiet_steps);
    [apply (respects_gets _ _ quiet_steps) |].
  intros [rule |];
    [apply plan_with_overrides_quiet | apply next_planner_quiet].
Qed.



(* ------------------------------------------------------------------ *)
(** ** Staleness *)

Lemma to_int64_small z :
  (- 2 ^ 63 <= z < 2 ^ 63)%Z -> to_int64 z = z.
Proof. intro Hz. unfold to_int64. rewrite Z.mod_small; lia. Qed.

Lemma to_int32_small z :
  (- 2 ^ 31 <= z < 2 ^ 31)%Z -> to_int32 z = z.
Proof. intro Hz. unfold to_int32. rewrite Z.mod_small; lia. Qed.

Lemma cache_expired_iff w :
  (1 <= po_cache_ttl w <= 3600)%Z ->
  (- 2 ^ 63 <= GetCurrentTimestamp (backend w) - cache_loaded_at w < 2 ^ 63)%Z ->
  cache_expired w = true
  <-> (cache_loaded_at w = 0
       \/ GetCurrentTimestamp (backend w) - cache_loaded_at w
          >= po_cache_ttl w * 1000000)%Z.
Proof.
  intros Httl Hdiff. unfold cache_expired, TimestampDifferenceExceeds.
  rewrite (to_int64_small (_ - _)) by assumption.
  rewrite (to_int64_small (po_cache_ttl w * 1000)) by lia.
  rewrite to_int32_small by lia.
  rewrite to_int64_small by lia.
  rewrite orb_true_iff, Z.eqb_eq, Z.geb_le. lia.
Qed.

(** A call of the hook with the module enabled and the guard clear
    refreshes the cache exactly when the cache is stale, and then once:
    the test the hook makes is true if and only if [cache_loaded_at] is
    still 0 (no load has set it) or the time since [cache_loaded_at] is
    at least [po_cache_ttl] seconds, and the journal of the call counts
    one refresh if the test is true and none otherwise. *)
Lemma hook_counts_refreshes depth parse query_string cursorOptions boundParams w :
  po_enabled w = true ->
  loading_rules w = false ->
  (1 <= po_cache_ttl w <= 3600)%Z ->
  (- 2 ^ 63 <= GetCurrentTimestamp (backend w) - cache_loaded_at w < 2 ^ 63)%Z ->
  (cache_expired w = true
   <-> (cache_loaded_at w = 0
        \/ GetCurrentTimestamp (backend w) - cache_loaded_at w
           >= po_cache_ttl w * 1000000)%Z)
  /\ ends (refreshed (if cache_expired w then 1 else 0)) w
       (po_planner (S (S depth)) parse query_string cursorOptions boundParams w).
Proof.
  intros He Hl Httl Hdiff. split; [now apply cache_expired_iff |].
  rewrite po_planner_unfold by assumption.
  unfold refresh_if_expired. rewrite bind_assoc, bind_gets.
  destruct (cache_expired w).
  - pose proof (load_rules_refreshed w) as Hload.
    rewrite <- (load_rules_fast depth) in Hload.
    unfold bind at 1.
    destruct (load_rules (po_planner (S depth)) w) as [u w1 | e w1 |];
      simpl in Hload; [| exact Hload | exact Hload].
    apply (ends_after (refreshed 0) _ w w1); [| apply after_refresh_quiet].
    intros w' Hq. exact (refreshed_compose 1 0 _ _ _ Hload Hq).
  - rewrite bind_ret. apply after_refresh_quiet.
Qed.

(* ------------------------------------------------------------------ *)
(** ** A refresh that finds no rules to load *)

Lemma load_rules_connect_eq w :
  load_rules_connect w
  = Returned (fst (SPI_connect (backend w)))
      (set_backend (snd (SPI_connect (backend w)))
         (record_call Call_SPI_connect
            (set_cache_context true
               (set_cached_rules_count 0
                  (set_cached_rules None (set_loading_rules true w)))))).
Proof.
  unfold load_rules_connect, free_rule_cache.
  repeat (rewrite bind_modify || rewrite bind_assoc).
  now rewrite call_SPI_connect_eq.
Qed.

Lemma load_rules_opening {B} (k : Z -> M B) w :
  (modify (set_loading_rules true) ;;
   free_rule_cache ;;
   modify (set_cache_context true) ;;
   code <- call_SPI_connect ;;
   k code) w
  = k (fst (SPI_connect (backend w)))
      (set_backend (snd (SPI_connect (backend w)))
         (record_call Call_SPI_connect
            (set_cache_context true
               (set_cached_rules_count 0
                  (set_cached_rules None (set_loading_rules true w)))))).
Proof.
  unfold free_rule_cache.
  repeat (rewrite bind_modify || rewrite bind_assoc).
  now rewrite bind_SPI_connect.
Qed.

Lemma SPI_execute_while_loading depth src read_only tcount w :
  loading_rules w = true ->
  ends (fun w w' =>
          same_statics w w'
          /\ journal_adds (fun c => is_warning c = false) w w')
    w (SPI_execute (po_planner (S depth)) src read_only tcount w).
Proof.
  intro Hw.
  rewrite (SPI_execute_hook_ext _ next_planner); [| | assumption].
  - apply ends_and.
    + apply SPI_execute_same_statics, next_planner_same_statics.
    + apply (respects_SPI_execute _ _ (journal_adds_steps _)); [reflexivity |].
      intros. now apply (respects_next_planner _ _ (journal_adds_steps _)).
  - intros. apply po_planner_fast_path. now right.
Qed.

Lemma warnings_app c1 c2 :
  filter is_warning (c1 ++ c2) = filter is_warning c1 ++ filter is_warning c2.
Proof. apply filter_app. Qed.

Lemma no_warnings calls :
  Forall (fun c => is_warning c = false) calls -> filter is_warning calls = [].
Proof.
  induction 1 as [| c calls Hc _ IH]; simpl; [reflexivity |]. now rewrite Hc.
Qed.

(** The returns of [load_rules] that load no rule.  In a refresh (with the hook of any depth as
    the planner hook of its SPI queries), once the opening statements
    of [load_rules] have returned from [SPI_connect]:
    - if the connection failed, [load_rules] returns with zero rules
      cached, the guard clear, a warning in the journal and
      [cache_loaded_at] as it was before the refresh;
    - if the query for the rules table returns something else than
      [SPI_OK_SELECT] or no row (the table is absent), [load_rules]
      returns with zero rules cached, the guard clear,
      [cache_loaded_at] set to the current time, and no warning added
      to the journal;
    - if the table is there and the rule query returns something else
      than [SPI_OK_SELECT], [load_rules] returns with zero rules
      cached, the guard clear, a warning in the journal and
      [cache_loaded_at] as it was before the refresh. *)
Lemma load_rules_returns_without_rules depth w code w1 :
  load_rules_connect w = Returned code w1 ->
  let hook := po_planner (S depth) in
  (code <> SPI_OK_CONNECT ->
   exists w',
     load_rules hook w = Returned tt w'
     /\ no_rules w' /\ loading_rules w' = false
     /\ cache_loaded_at w' = cache_loaded_at w
     /\ journal w' =
        journal w1 ++
        [Call_elog WARNING
           "pg_plan_override: SPI_connect failed, cache not loaded" []])
  /\ (code = SPI_OK_CONNECT ->
      forall ret w2,
        SPI_execute hook rules_table_sql true 1 w1 = Returned ret w2 ->
        (ret <> SPI_OK_SELECT \/ SPI_processed (backend w2) = 0%Z ->
         exists w',
           load_rules hook w = Returned tt w'
           /\ no_rules w' /\ loading_rules w' = false
           /\ cache_loaded_at w' = GetCurrentTimestamp (backend w')
           /\ journal w' = journal w2 ++ [Call_SPI_finish]
           /\ filter is_warning (journal w') = filter is_warning (journal w))
        /\ (ret = SPI_OK_SELECT -> SPI_processed (backend w2) <> 0%Z ->
            forall ret' w3,
              SPI_execute hook rules_query_sql true 0 w2 = Returned ret' w3 ->
              ret' <> SPI_OK_SELECT ->
              exists w',
                load_rules hook w = Returned tt w'
                /\ no_rules w' /\ loading_rules w' = false
                /\ cache_loaded_at w' = cache_loaded_at w
                /\ journal w' =
                   journal w3 ++
                   [Call_SPI_finish;
                    Call_elog WARNING
                      "pg_plan_override: failed to load rules (SPI error %d)"
                      [arg_d ret']])).
Proof.
  intros Hc hook. rewrite load_rules_connect_eq in Hc.
  injection Hc as <- <-.
  unfold load_rules. rewrite load_rules_opening.
  set (code := fst (SPI_connect (backend w))).
  set (w1 := set_backend _ _).
  split.
  - intro Hcode. apply Z.eqb_neq in Hcode. rewrite Hcode. cbn [negb].
    eexists. split; [reflexivity |]. simpl. unfold no_rules. simpl. tauto.
  - intros Hcode ret1 w2 E2. rewrite Hcode, Z.eqb_refl. cbn [negb].
    rewrite (bind_step _ _ _ _ _ E2), bind_gets.
    assert (S2 := SPI_execute_while_loading depth rules_table_sql true 1 w1 eq_refl).
    fold hook in S2. rewrite E2 in S2. simpl in S2.
    destruct S2 as [(_ & _ & _ & R2 & C2 & L2 & _ & G2) (calls2 & J2 & F2)].
    split.
    + intro Hret.
      assert (Hcond : negb (ret1 =? SPI_OK_SELECT)%Z
                      || (SPI_processed (backend w2) =? 0)%Z = true).
      { apply orb_true_iff. destruct Hret as [Hret | Hret].
        - left. apply negb_true_iff. now apply Z.eqb_neq.
        - right. now apply Z.eqb_eq. }
      rewrite Hcond. eexists. split; [reflexivity |].
      unfold no_rules. simpl. rewrite R2, C2. simpl.
      repeat split; try reflexivity.
      rewrite J2. simpl. rewrite !warnings_app. simpl.
      rewrite (no_warnings _ F2). now rewrite !app_nil_r.
    + intros Hret Hproc ret2 w3 E3 Hret2.
      assert (Hcond : negb (ret1 =? SPI_OK_SELECT)%Z
                      || (SPI_processed (backend w2) =? 0)%Z = false).
      { apply orb_false_iff. split.
        - apply negb_false_iff. now apply Z.eqb_eq.
        - now apply Z.eqb_neq. }
      rewrite Hcond. rewrite (bind_step _ _ _ _ _ E3).
      apply Z.eqb_neq in Hret2. rewrite Hret2. cbn [negb].
      assert (S3 := SPI_execute_while_loading depth rules_query_sql true 0 w2 G2).
      fold hook in S3. rewrite E3 in S3. simpl in S3.
      destruct S3 as [(_ & _ & _ & R3 & C3 & L3 & _ & G3) _].
      eexists. split; [reflexivity |].
      unfold no_rules. simpl. rewrite R3, C3, L3, R2, C2, L2. simpl.
      rewrite <- app_assoc. repeat split; reflexivity.
Qed.

(* ------------------------------------------------------------------ *)
(** ** Query matching *)

Lemma skipn_nth_cons {A} (d : A) l : forall i,
  (i < List.length l)%nat -> skipn i l = nth i l d :: skipn (S i) l.
Proof.
  induction l as [| x l IH]; intros i Hi; simpl in Hi; [lia |].
  destruct i as [| i]; [reflexivity |].
  simpl. apply IH. lia.
Qed.

Lemma scan_rules_find test rules count :
  forall start,
    (start + count = List.length rules)%nat ->
    scan_rules test rules start count = find test (skipn start rules).
Proof.
  induction count as [| count IH]; intros start Hlen; simpl.
  - rewrite skipn_all2 by lia. reflexivity.
  - rewrite (skipn_nth_cons zeroed_rule) by lia. simpl.
    destruct (test _); [reflexivity |]. apply IH. lia.
Qed.

Lemma find_first_rule (test : OverrideRule -> bool) (P : OverrideRule -> Prop) rules r :
  (forall r, test r = true <-> P r) ->
  first_rule P rules r -> find test rules = Some r.
Proof.
  intros HP (before & after & -> & Hr & Hb).
  induction Hb as [| r' before Hr' _ IH]; simpl.
  - apply HP in Hr. now rewrite Hr.
  - destruct (test r') eqn:E; [| exact IH]. apply HP in E. contradiction.
Qed.

Lemma find_no_rule (test : OverrideRule -> bool) (P : OverrideRule -> Prop) rules :
  (forall r, test r = true <-> P r) ->
  Forall (fun r => ~ P r) rules -> find test rules = None.
Proof.
  intros HP Hn. induction Hn as [| r rules Hr _ IH]; simpl; [reflexivity |].
  destruct (test r) eqn:E; [| exact IH]. apply HP in E. contradiction.
Qed.

Lemma query_id_matches_iff parse r :
  query_id_matches parse r = true <-> has_query_id parse r.
Proof.
  unfold query_id_matches, has_query_id.
  rewrite andb_true_iff, negb_true_iff, Z.eqb_neq, Z.eqb_eq. reflexivity.
Qed.

Lemma query_pattern_matches_iff text r :
  query_pattern_matches text r = true <-> has_pattern_for text r.
Proof.
  unfold query_pattern_matches, has_pattern_for.
  destruct (query_pattern r) as [pattern |].
  - split; [eauto | now intros (p & [= <-] & Hp)].
  - split; [discriminate | now intros (p & [=] & _)].
Qed.

Lemma find_matching_rule_eq parse query_string w rules :
  cached_rules w = Some rules ->
  cached_rules_count w = Z.of_nat (List.length rules) ->
  find_matching_rule parse query_string w
  = match (if negb (queryId parse =? 0)%Z
           then find (query_id_matches parse) rules else None) with
    | Some rule => Some rule
    | None =>
        match query_string with
        | Some text => find (query_pattern_matches text) rules
        | None => None
        end
    end.
Proof.
  intros Hr Hc. unfold find_matching_rule. rewrite Hr, Hc.
  destruct rules as [| r0 rules0] eqn:E.
  - simpl. destruct (negb _), query_string; reflexivity.
  - rewrite <- E in *. replace (Z.of_nat (List.length rules) =? 0)%Z with false
      by (symmetry; apply Z.eqb_neq; subst rules; simpl; lia).
    rewrite Nat2Z.id.
    destruct (negb _), query_string;
      rewrite ?scan_rules_find by reflexivity; reflexivity.
Qed.

(** C4.  With the rule array and its count in agreement:
    - if the query identifier is not 0, a rule that is the first, in
      the order of the array, to have an identifier that is not 0 and
      equals the query's (as an [int64]) is the rule found, whatever
      the query text and the patterns of the rules;
    - if the identifier is 0 or no rule has it, and there is a query
      text, a rule that is the first to have a pattern that matches the
      text is the rule found, and no rule is found if no pattern
      matches;
    - if the identifier is 0 or no rule has it, and there is no query
      text, no rule is found.
    With no array or a count of 0 no rule is found. *)
Theorem find_matching_rule_two_passes parse query_string w :
  (forall rules,
      cached_rules w = Some rules ->
      cached_rules_count w = Z.of_nat (List.length rules) ->
      (queryId parse <> 0%Z ->
       forall r, first_rule (has_query_id parse) rules r ->
                 find_matching_rule parse query_string w = Some r)
      /\ (queryId parse = 0%Z
          \/ Forall (fun r => ~ has_query_id parse r) rules ->
          (forall text r,
              query_string = Some text ->
              first_rule (has_pattern_for text) rules r ->
              find_matching_rule parse query_string w = Some r)
          /\ (forall text,
              query_string = Some text ->
              Forall (fun r => ~ has_pattern_for text r) rules ->
              find_matching_rule parse query_string w = None)
          /\ (query_string = None ->
              find_matching_rule parse query_string w = None)))
  /\ (cached_rules w = None \/ cached_rules_count w = 0%Z ->
      find_matching_rule parse query_string w = None).
Proof.
  split.
  - intros rules Hr Hc.
    rewrite (find_matching_rule_eq _ _ _ _ Hr Hc). split.
    + intros Hq r Hfirst. apply Z.eqb_neq in Hq. rewrite Hq. simpl.
      now rewrite (find_first_rule _ _ _ _ (query_id_matches_iff parse) Hfirst).
    + intro Hpass1.
      assert (E : (if negb (queryId parse =? 0)%Z
                   then find (query_id_matches parse) rules else None) = None).
      { destruct Hpass1 as [Hq | Hn].
        - apply Z.eqb_eq in Hq. now rewrite Hq.
        - rewrite (find_no_rule _ _ _ (query_id_matches_iff parse) Hn).
          now destruct (negb _). }
      rewrite E. repeat split.
      * intros text r -> Hfirst.
        exact (find_first_rule _ _ _ _ (query_pattern_matches_iff text) Hfirst).
      * intros text -> Hn.
        exact (find_no_rule _ _ _ (query_pattern_matches_iff text) Hn).
      * now intros ->.
  - intros [Hn | Hz]; unfold find_matching_rule.
    + now rewrite Hn.
    + rewrite Hz. now destruct (cached_rules w).
Qed.

(* ------------------------------------------------------------------ *)
(** ** Snapshot, apply, restore *)

Lemma for_loop_returned {T} (Inv : nat -> T -> World -> Prop)
    (body : nat -> T -> M T) count :
  forall start acc w acc' w',
    for_loop start count body acc w = Returned acc' w' ->
    Inv start acc w ->
    (forall i a w0 a' w0',
        (start <= i < start + count)%nat ->
        body i a w0 = Returned a' w0' -> Inv i a w0 -> Inv (S i) a' w0') ->
    Inv (start + count)%nat acc' w'.
Proof.
  induction count as [| count IH]; intros start acc w acc' w' E H0 Hstep;
    simpl in E.
  - unfold ret in E. injection E as <- <-. now rewrite Nat.add_0_r.
  - apply bind_returned in E. destruct E as (a1 & w1 & E1 & E2).
    replace (start + S count)%nat with (S start + count)%nat by lia.
    apply (IH _ _ _ _ _ E2).
    + apply (Hstep start acc w); [lia | assumption | assumption].
    + intros i a w0 a' w0' Hi. apply Hstep. lia.
Qed.

Lemma for_loop_split {T} (body : nat -> T -> M T) k m :
  forall start acc w,
    for_loop start (k + m) body acc w
    = bind (for_loop start k body acc)
        (fun acc' => for_loop (start + k) m body acc') w.
Proof.
  induction k as [| k IH]; intros start acc w; simpl.
  - rewrite bind_ret. now rewrite Nat.add_0_r.
  - rewrite bind_assoc. apply bind_ext. intros a w' _.
    rewrite IH. now replace (S start + k)%nat with (start + S k)%nat by lia.
Qed.

(** A loop stops where its body raises. *)
Lemma for_loop_raised {T} (body : nat -> T -> M T) k count acc w acck wk e w' :
  (k < count)%nat ->
  for_loop 0 k body acc w = Returned acck wk ->
  body k acck wk = Raised e w' ->
  for_loop 0 count body acc w = Raised e w'.
Proof.
  intros Hk Ek Eb.
  replace count with (k + S (count - S k))%nat by lia.
  rewrite for_loop_split, (bind_step _ _ _ _ _ Ek). simpl.
  now rewrite (bind_raised _ _ _ _ _ Eb).
Qed.

Lemma call_GetConfigOption_returned name w v w' :
  call_GetConfigOption name w = Returned v w' ->
  GetConfigOption name (backend w) = Normal v /\ backend w' = backend w.
Proof.
  unfold call_GetConfigOption. simpl.
  destruct (GetConfigOption name (backend w)); [| discriminate].
  now intros [= <- <-].
Qed.

Lemma call_set_config_option_returned name value w r w' :
  call_set_config_option name value w = Returned r w' ->
  set_config_option name value (backend w) = (Normal r, backend w').
Proof.
  unfold call_set_config_option. simpl.
  destruct (set_config_option name value (backend w)) as [[r0 | e] b];
    simpl; [| discriminate].
  now intros [= <- <-].
Qed.

Lemma array_set_end {A} (a : list A) (x : A) :
  array_set a (List.length a) x = a ++ [x].
Proof.
  unfold array_set. rewrite firstn_all, skipn_all2 by (simpl; lia). reflexivity.
Qed.

(** The snapshot reads the settings and leaves the backend alone. *)
Lemma save_guc_values_returned rule w1 saved w2 :
  save_guc_values rule w1 = Returned saved w2 ->
  backend w2 = backend w1
  /\ forall i, (i < Z.to_nat (num_gucs rule))%nat ->
               GetConfigOption (nth i (guc_names rule) "") (backend w1)
               = Normal (nth i saved None).
Proof.
  intro E. unfold save_guc_values in E.
  apply (for_loop_returned
           (fun i acc w0 =>
              backend w0 = backend w1 /\ List.length acc = i
              /\ forall j, (j < i)%nat ->
                   GetConfigOption (nth j (guc_names rule) "") (backend w1)
                   = Normal (nth j acc None))) in E.
  - simpl in E. tauto.
  - repeat split. intros j Hj. lia.
  - intros i a w0 a' w0' _ Eb (Hb & Hl & Hj).
    apply bind_returned in Eb. destruct Eb as (v & w0'' & Ev & Er).
    unfold ret in Er. injection Er as <- <-.
    apply call_GetConfigOption_returned in Ev. destruct Ev as [Ev Eb].
    subst i. rewrite array_set_end. rewrite length_app. simpl.
    split; [congruence |]. split; [lia |].
    intros j Hlt. destruct (Nat.eq_dec j (List.length a)) as [-> | Hne].
    + rewrite nth_middle. congruence.
    + rewrite app_nth1 by lia. apply Hj. lia.
Qed.

Section Assignments.

Hypothesis table : settings_table.

Variable rule : OverrideRule.
Variable val : nat -> option string.

(** The loop of assignments [guc_names[i] := val i], as both the apply
    and the restore loop are. *)
Lemma assignments_returned w w' :
  for_loop 0 (Z.to_nat (num_gucs rule))
    (fun i (_ : unit) =>
       call_set_config_option (nth i (guc_names rule) "") (val i) ;; ret tt)
    tt w = Returned tt w' ->
  (forall name, ~ names_setting rule name ->
                GetConfigOption name (backend w') = GetConfigOption name (backend w))
  /\ (forall target : string -> reply ErrorData (option string),
         (forall i, (i < Z.to_nat (num_gucs rule))%nat ->
                    Normal (val i) = target (nth i (guc_names rule) "")) ->
         forall i, (i < Z.to_nat (num_gucs rule))%nat ->
                   GetConfigOption (nth i (guc_names rule) "") (backend w')
                   = target (nth i (guc_names rule) "")).
Proof.
  destruct table as [Hsame Hother].
  intro E.
  apply (for_loop_returned
           (fun i (_ : unit) w0 =>
              (i <= Z.to_nat (num_gucs rule))%nat
              /\ (forall name, ~ names_setting rule name ->
                    GetConfigOption name (backend w0)
                    = GetConfigOption name (backend w))
              /\ (forall target : string -> reply ErrorData (option string),
                    (forall i, (i < Z.to_nat (num_gucs rule))%nat ->
                       Normal (val i) = target (nth i (guc_names rule) "")) ->
                    forall j, (j < i)%nat ->
                      GetConfigOption (nth j (guc_names rule) "") (backend w0)
                      = target (nth j (guc_names rule) "")))) in E.
  - simpl in E. destruct E as (_ & E1 & E2). split; [exact E1 |].
    intros target Ht i Hi. now apply E2.
  - split; [lia |]. split; [reflexivity |]. intros target _ j Hj. lia.
  - intros i [] w0 [] w0' Hi Eb (_ & Hout & Hin).
    apply bind_returned in Eb. destruct Eb as (r & w0'' & Es & Er).
    unfold ret in Er. injection Er as <-.
    apply call_set_config_option_returned in Es.
    split; [lia |]. split.
    + intros name Hn. rewrite <- (Hout name Hn).
      apply (Hother _ _ _ _ _ _ Es).
      intros ->. apply Hn. exists i. split; [lia | reflexivity].
    + intros target Ht j Hj.
      destruct (string_dec (nth j (guc_names rule) "") (nth i (guc_names rule) ""))
        as [Eq | Ne].
      * rewrite Eq, (Hsame _ _ _ _ _ Es). apply Ht. lia.
      * rewrite (Hother _ _ _ _ _ _ Es Ne).
        assert (j <> i) by (intros ->; now apply Ne).
        apply Hin; [assumption | lia].
Qed.

End Assignments.

Lemma apply_overrides_returned rule w2 w3 :
  apply_overrides rule w2 = Returned tt w3 ->
  exists w, set_override_gucs rule w2 = Returned tt w /\ backend w3 = backend w.
Proof.
  unfold apply_overrides. intro E.
  apply bind_returned in E. destruct E as ([] & w & Es & E).
  exists w. split; [exact Es |].
  rewrite bind_gets in E. destruct (po_debug w).
  - unfold elog in E. apply modify_returned in E. now subst w3.
  - unfold ret in E. now injection E as <-.
Qed.

Lemma plan_with_overrides_eq rule p q c b w :
  plan_with_overrides rule p q c b w
  = (saved_values <- save_guc_values rule ;;
     apply_overrides rule ;;
     PG_TRY
       (result <- next_planner p q c b ;;
        restore_guc_values rule saved_values ;;
        ret result)
       (fun e => restore_guc_values rule saved_values ;; PG_RE_THROW e)) w.
Proof.
  unfold plan_with_overrides, apply_overrides.
  apply bind_ext. intros saved w1 _.
  rewrite bind_assoc. apply bind_ext. intros [] w2 _.
  rewrite bind_assoc. rewrite !bind_gets. now destruct (po_debug w2).
Qed.

(** The hook with a rule found for the query. *)
Lemma po_planner_matched depth p q c b w u w1 rule :
  po_enabled w = true -> loading_rules w = false ->
  refresh_if_expired (po_planner (S depth)) w = Returned u w1 ->
  find_matching_rule p q w1 = Some rule ->
  po_planner (S (S depth)) p q c b w = plan_with_overrides rule p q c b w1.
Proof.
  intros He Hl Hr Hf. rewrite po_planner_unfold by assumption.
  rewrite (bind_step _ _ _ _ _ Hr), bind_gets, Hf. reflexivity.
Qed.

Lemma plan_with_overrides_protected rule p q c b w1 saved w2 w3 :
  save_guc_values rule w1 = Returned saved w2 ->
  apply_overrides rule w2 = Returned tt w3 ->
  plan_with_overrides rule p q c b w1
  = PG_TRY
      (result <- next_planner p q c b ;;
       restore_guc_values rule saved ;;
       ret result)
      (fun e => restore_guc_values rule saved ;; PG_RE_THROW e) w3.
Proof.
  intros Hs Ha. rewrite plan_with_overrides_eq.
  now rewrite (bind_step _ _ _ _ _ Hs), (bind_step _ _ _ _ _ Ha).
Qed.


Lemma plan_with_overrides_assigns rule p q c b :
  respects (journal_adds (rule_assignment rule)) (plan_with_overrides rule p q c b).
Proof.
  apply (respects_plan_with_overrides _ _ (journal_adds_steps _)); simpl; auto.
Qed.

Lemma restored_settings rule saved w1 w2 w4 w5 :
  settings_table ->
  save_guc_values rule w1 = Returned saved w2 ->
  restore_guc_values rule saved w4 = Returned tt w5 ->
  (forall name, names_setting rule name ->
                GetConfigOption name (backend w5) = GetConfigOption name (backend w1))
  /\ (forall name, ~ names_setting rule name ->
                   GetConfigOption name (backend w5) = GetConfigOption name (backend w4)).
Proof.
  intros table Hs Hr.
  apply save_guc_values_returned in Hs. destruct Hs as [_ Hs].
  apply (assignments_returned table rule (fun i => nth i saved None)) in Hr.
  destruct Hr as [Hout Hin]. split; [| exact Hout].
  intros name (i & Hi & ->).
  apply (Hin (fun name => GetConfigOption name (backend w1))); [| exact Hi].
  intros j Hj. symmetry. now apply Hs.
Qed.

Lemma applied_settings rule w1 saved w2 w3 :
  settings_table ->
  save_guc_values rule w1 = Returned saved w2 ->
  apply_overrides rule w2 = Returned tt w3 ->
  forall name, ~ names_setting rule name ->
               GetConfigOption name (backend w3) = GetConfigOption name (backend w1).
Proof.
  intros table Hs Ha name Hn.
  apply save_guc_values_returned in Hs. destruct Hs as [<- _].
  apply apply_overrides_returned in Ha. destruct Ha as (w & Ha & ->).
  apply (assignments_returned table rule (fun i => Some (nth i (guc_values rule) "")))
    in Ha.
  now apply Ha.
Qed.

(** C8.  On a backend whose settings behave as a table, let a call of
    the hook find a rule, and let the snapshot, the assignments of the
    rule, the planner and the restore all return.  Then the hook
    returns what the planner returned; every setting the rule names
    (be it named once or several times) then has the value it had
    before the snapshot; a setting the rule does not name is what it
    was, both after the assignments of the rule and across the restore;
    and every assignment the hook makes is to a setting the rule
    names. *)
Theorem overrides_are_undone depth parse query_string cursorOptions boundParams
    w u w1 rule saved w2 w3 result w4 w5 :
  settings_table ->
  po_enabled w = true -> loading_rules w = false ->
  refresh_if_expired (po_planner (S depth)) w = Returned u w1 ->
  find_matching_rule parse query_string w1 = Some rule ->
  save_guc_values rule w1 = Returned saved w2 ->
  apply_overrides rule w2 = Returned tt w3 ->
  next_planner parse query_string cursorOptions boundParams w3
  = Returned result w4 ->
  restore_guc_values rule saved w4 = Returned tt w5 ->
  po_planner (S (S depth)) parse query_string cursorOptions boundParams w
  = Returned result w5
  /\ (forall name, names_setting rule name ->
                   GetConfigOption name (backend w5)
                   = GetConfigOption name (backend w1))
  /\ (forall name, ~ names_setting rule name ->
                   GetConfigOption name (backend w3)
                   = GetConfigOption name (backend w1)
                   /\ GetConfigOption name (backend w5)
                      = GetConfigOption name (backend w4))
  /\ journal_adds (rule_assignment rule) w1 w5.
Proof.
  intros table He Hl Hr Hf Hs Ha Hp Hrest.
  assert (Hrun : po_planner (S (S depth)) parse query_string cursorOptions
                   boundParams w = Returned result w5).
  { rewrite (po_planner_matched _ _ _ _ _ _ _ _ _ He Hl Hr Hf).
    rewrite (plan_with_overrides_protected _ _ _ _ _ _ _ _ _ Hs Ha).
    unfold PG_TRY.
    now rewrite (bind_step _ _ _ _ _ Hp), (bind_step _ _ _ _ _ Hrest). }
  destruct (restored_settings _ _ _ _ _ _ table Hs Hrest) as [Hin Hout].
  split; [exact Hrun |]. split; [exact Hin |]. split.
  - intros name Hn. split; [| now apply Hout].
    now apply (applied_settings _ _ _ _ _ table Hs Ha).
  - rewrite (po_planner_matched _ _ _ _ _ _ _ _ _ He Hl Hr Hf) in Hrun.
    exact (respects_returned _ _ _ _ _ (plan_with_overrides_assigns _ _ _ _ _) Hrun).
Qed.

Lemma restore_guc_values_journal rule saved w4 w5 :
  restore_guc_values rule saved w4 = Returned tt w5 ->
  journal w5
  = journal w4
    ++ map (fun i => Call_set_config_option (nth i (guc_names rule) "")
                       (nth i saved None))
         (seq 0 (Z.to_nat (num_gucs rule))).
Proof.
  intro E. unfold restore_guc_values in E.
  apply (for_loop_returned
           (fun i (_ : unit) w0 =>
              journal w0
              = journal w4
                ++ map (fun i => Call_set_config_option
                                   (nth i (guc_names rule) "") (nth i saved None))
                     (seq 0 i))) in E.
  - exact E.
  - simpl. now rewrite app_nil_r.
  - intros i [] w0 [] w0' _ Eb Hj.
    apply bind_returned in Eb. destruct Eb as (r & w0'' & Es & Er).
    unfold ret in Er. injection Er as <-.
    unfold call_set_config_option in Es.
    destruct (set_config_option _ _ _) as [[r0 | e0] b0]; simpl in Es;
      [| discriminate].
    injection Es as _ <-. rewrite seq_S, map_app, app_assoc, <- Hj.
    reflexivity.
Qed.

(** On a backend whose settings behave as a table, let a call of
    the hook find a rule, let the snapshot and the assignments of the
    rule return, let the planner raise [e], and let the restore
    return.  Then the hook raises [e], the planner's own error, in the
    world the restore has left: after the planner's failure the journal
    has the assignments of the saved values, one for each entry of the
    rule and in their order, and every setting the rule names then has
    the value it had before the snapshot. *)
Lemma planner_error_after_restore depth parse query_string
    cursorOptions boundParams w u w1 rule saved w2 w3 e w4 w5 :
  settings_table ->
  po_enabled w = true -> loading_rules w = false ->
  refresh_if_expired (po_planner (S depth)) w = Returned u w1 ->
  find_matching_rule parse query_string w1 = Some rule ->
  save_guc_values rule w1 = Returned saved w2 ->
  apply_overrides rule w2 = Returned tt w3 ->
  next_planner parse query_string cursorOptions boundParams w3 = Raised e w4 ->
  restore_guc_values rule saved w4 = Returned tt w5 ->
  po_planner (S (S depth)) parse query_string cursorOptions boundParams w
  = Raised e w5
  /\ journal w5
     = journal w4
       ++ map (fun i => Call_set_config_option (nth i (guc_names rule) "")
                          (nth i saved None))
            (seq 0 (Z.to_nat (num_gucs rule)))
  /\ (forall name, names_setting rule name ->
                   GetConfigOption name (backend w5)
                   = GetConfigOption name (backend w1)).
Proof.
  intros table He Hl Hr Hf Hs Ha Hp Hrest.
  split; [| split].
  - rewrite (po_planner_matched _ _ _ _ _ _ _ _ _ He Hl Hr Hf).
    rewrite (plan_with_overrides_protected _ _ _ _ _ _ _ _ _ Hs Ha).
    unfold PG_TRY.
    now rewrite (bind_raised _ _ _ _ _ Hp), (bind_step _ _ _ _ _ Hrest).
  - now apply restore_guc_values_journal.
  - apply (restored_settings _ _ _ _ _ _ table Hs Hrest).
Qed.

(** C3, as the code has it.  Let a call of the hook find a rule and the
    snapshot return.
    - If an assignment of the rule raises, the hook raises that error
      there and then.
    - If the planner raises and then an assignment of the restore
      raises, the hook raises the error of the restore, in the world
      that assignment has left.
    - If the planner returns and then an assignment of the restore
      raises [e'], the hook goes on as its handler does in the world
      that assignment has left: the restore once more from its first
      entry, then [e'] raised again; it does not return.
    - The restore loop and the apply loop stop at an assignment that
      raises: the loop raises that error in the world that assignment
      has left. *)
Theorem assignment_errors_propagate depth parse query_string cursorOptions
    boundParams w u w1 rule saved w2 :
  po_enabled w = true -> loading_rules w = false ->
  refresh_if_expired (po_planner (S depth)) w = Returned u w1 ->
  find_matching_rule parse query_string w1 = Some rule ->
  save_guc_values rule w1 = Returned saved w2 ->
  let run :=
    po_planner (S (S depth)) parse query_string cursorOptions boundParams w in
  (forall e w3, apply_overrides rule w2 = Raised e w3 -> run = Raised e w3)
  /\ (forall w3,
      apply_overrides rule w2 = Returned tt w3 ->
      (forall e w4 e' w5,
          next_planner parse query_string cursorOptions boundParams w3
          = Raised e w4 ->
          restore_guc_values rule saved w4 = Raised e' w5 ->
          run = Raised e' w5)
      /\ (forall result w4 e' w5,
          next_planner parse query_string cursorOptions boundParams w3
          = Returned result w4 ->
          restore_guc_values rule saved w4 = Raised e' w5 ->
          run = (restore_guc_values rule saved ;; PG_RE_THROW e') w5
          /\ forall r w6, run <> Returned r w6))
  /\ (forall k w0 wk e w',
      (k < Z.to_nat (num_gucs rule))%nat ->
      for_loop 0 k
        (fun i (_ : unit) =>
           call_set_config_option (nth i (guc_names rule) "")
             (nth i saved None) ;; ret tt) tt w0 = Returned tt wk ->
      call_set_config_option (nth k (guc_names rule) "") (nth k saved None) wk
      = Raised e w' ->
      restore_guc_values rule saved w0 = Raised e w')
  /\ (forall k w0 wk e w',
      (k < Z.to_nat (num_gucs rule))%nat ->
      for_loop 0 k
        (fun i (_ : unit) =>
           call_set_config_option (nth i (guc_names rule) "")
             (Some (nth i (guc_values rule) "")) ;; ret tt) tt w0
      = Returned tt wk ->
      call_set_config_option (nth k (guc_names rule) "")
        (Some (nth k (guc_values rule) "")) wk = Raised e w' ->
      set_override_gucs rule w0 = Raised e w').
Proof.
  intros He Hl Hr Hf Hs run. subst run.
  rewrite (po_planner_matched _ _ _ _ _ _ _ _ _ He Hl Hr Hf).
  split; [| split; [| split]].
  - intros e w3 Ha. rewrite plan_with_overrides_eq.
    now rewrite (bind_step _ _ _ _ _ Hs), (bind_raised _ _ _ _ _ Ha).
  - intros w3 Ha.
    rewrite (plan_with_overrides_protected _ _ _ _ _ _ _ _ _ Hs Ha).
    unfold PG_TRY. split.
    + intros e w4 e' w5 Hp Hrest.
      now rewrite (bind_raised _ _ _ _ _ Hp), (bind_raised _ _ _ _ _ Hrest).
    + intros result w4 e' w5 Hp Hrest.
      rewrite (bind_step _ _ _ _ _ Hp), (bind_raised _ _ _ _ _ Hrest).
      split; [reflexivity |].
      intros r w6. unfold bind, PG_RE_THROW.
      destruct (restore_guc_values rule saved w5); discriminate.
  - intros k w0 wk e w' Hk Ek Eb. unfold restore_guc_values.
    apply (for_loop_raised _ k _ tt w0 tt wk); [assumption | assumption |].
    now rewrite (bind_raised _ _ _ _ _ Eb).
  - intros k w0 wk e w' Hk Ek Eb. unfold set_override_gucs.
    apply (for_loop_raised _ k _ tt w0 tt wk); [assumption | assumption |].
    now rewrite (bind_raised _ _ _ _ _ Eb).
Qed.

(* ------------------------------------------------------------------ *)
(** ** The rule array and its count *)

Lemma parse_jsonb_gucs_loop_same_statics it :
  forall names values count capacity,
    respects same_statics (parse_jsonb_gucs_loop it names values count capacity).
Proof.
  induction it as [| [tok v] it IH]; intros names values count capacity; simpl.
  - apply (respects_ret _ _ same_statics_steps).
  - destruct tok; try apply IH.
    destruct v; try apply IH;
      (apply (respects_bind _ _ same_statics_steps);
       [now apply (respects_elog _ _ same_statics_steps) | intros _; apply IH]).
Qed.

Lemma array_set_length {A} (a : list A) i x :
  (i < List.length a)%nat -> List.length (array_set a i x) = List.length a.
Proof.
  intro Hi. unfold array_set.
  rewrite length_app, length_firstn. cbn [List.length]. rewrite length_skipn. lia.
Qed.

Lemma load_rule_returned i w u w' n :
  load_rule i w = Returned u w' -> (i < n)%nat ->
  (exists a, cached_rules w = Some a /\ List.length a = n) ->
  cached_rules_count w' = cached_rules_count w
  /\ exists a', cached_rules w' = Some a' /\ List.length a' = n.
Proof.
  unfold load_rule. rewrite bind_gets. intros E Hi (a & Ha & Hn).
  apply bind_returned in E. destruct E as ([[count names] values] & w0 & Ep & E).
  assert (Hs : same_statics w w0).
  { destruct (col_gucs _).
    - exact (respects_returned _ _ _ _ _
               (parse_jsonb_gucs_loop_same_statics _ _ _ _ _) Ep).
    - unfold ret in Ep. injection Ep as _ _ _ <-. apply same_statics_refl. }
  destruct Hs as (_ & _ & _ & Hr & Hc & _).
  apply modify_returned in E. subst w'. simpl. rewrite Hr, Ha. simpl.
  split; [exact Hc |]. eexists. split; [reflexivity |].
  rewrite array_set_length; lia.
Qed.

(** A refresh that returns leaves the rule array and its count in
    agreement, when the number of rows fits the [int] count. *)
Lemma load_rules_cache_wf depth w u w' :
  load_rules (po_planner (S depth)) w = Returned u w' ->
  (0 <= cached_rules_count w')%Z ->
  cache_wf w'.
Proof.
  rewrite load_rules_fast. unfold load_rules. rewrite load_rules_opening.
  set (w1 := set_backend _ _).
  assert (W1 : cached_rules w1 = None /\ cached_rules_count w1 = 0%Z)
    by (split; reflexivity).
  clearbody w1. destruct W1 as [R1 C1].
  unfold cache_wf.
  destruct (negb _).
  { rewrite bind_modify. unfold elog. intros E _.
    apply modify_returned in E. subst w'. simpl. now rewrite R1. }
  intros E. apply bind_returned in E. destruct E as (ret1 & w2 & E2 & E).
  apply (respects_returned _ _ _ _ _
           (SPI_execute_same_statics _ _ _ _ next_planner_same_statics)) in E2.
  destruct E2 as (_ & _ & _ & R2 & C2 & _).
  rewrite bind_gets in E.
  destruct (_ || _).
  { rewrite bind_SPI_finish, bind_gets, bind_modify in E.
    apply modify_returned in E. subst w'. simpl. rewrite R2, R1. congruence. }
  apply bind_returned in E. destruct E as (ret2 & w3 & E3 & E).
  apply (respects_returned _ _ _ _ _
           (SPI_execute_same_statics _ _ _ _ next_planner_same_statics)) in E3.
  destruct E3 as (_ & _ & _ & R3 & C3 & _).
  destruct (negb _).
  { rewrite bind_SPI_finish, bind_modify in E. unfold elog in E.
    apply modify_returned in E. subst w'. simpl. rewrite R3, R2, R1. congruence. }
  rewrite bind_gets, bind_modify, bind_gets in E.
  cbn [cached_rules_count set_cached_rules_count] in E.
  set (count := to_int32 _) in E.
  destruct (count =? 0)%Z eqn:Hz.
  { rewrite bind_SPI_finish, bind_gets, bind_modify in E.
    apply modify_returned in E. subst w'. simpl. rewrite R3, R2, R1.
    intros _. now apply Z.eqb_eq. }
  rewrite bind_modify in E.
  apply bind_returned in E. destruct E as ([] & w4 & E4 & E).
  apply (for_loop_returned
           (fun (i : nat) (_ : unit) w0 =>
              cached_rules_count w0 = count
              /\ exists a, cached_rules w0 = Some a
                           /\ List.length a = Z.to_nat count)) in E4.
  - destruct E4 as (C4 & a & R4 & L4).
    assert (Hfinal : cached_rules w' = Some a /\ cached_rules_count w' = count).
    { rewrite bind_SPI_finish, bind_gets, bind_modify, bind_modify, bind_gets in E.
      cbn [po_debug set_loading_rules set_cache_loaded_at set_backend record_call] in E.
      destruct (po_debug w4).
      - rewrite bind_gets in E. unfold elog in E.
        apply modify_returned in E. subst w'. simpl. split; assumption.
      - unfold ret in E. injection E as _ <-. simpl. split; assumption. }
    destruct Hfinal as [-> ->]. intro Hpos. rewrite L4. lia.
  - simpl. split; [reflexivity |]. eexists. split; [reflexivity |].
    apply repeat_length.
  - intros i [] w0 [] w0' Hi Eb (C0 & Ha).
    destruct (load_rule_returned _ _ _ _ (Z.to_nat count) Eb) as [C0' Ha'];
      [lia | exact Ha |].
    split; [congruence | exact Ha'].
Qed.

End Properties.

(* ================================================================== *)
(** * Runs on the small backend *)

Local Open Scope Z_scope.

Lemma toy_lookup_remove name gucs : toy_lookup name (toy_remove name gucs) = None.
Proof.
  unfold toy_lookup, toy_remove.
  induction gucs as [| [n v] gucs IH]; simpl; [reflexivity |].
  destruct (String.eqb n name) eqn:E; simpl; [exact IH |].
  now rewrite E.
Qed.

Lemma toy_lookup_remove_other name other gucs :
  other <> name ->
  toy_lookup other (toy_remove name gucs) = toy_lookup other gucs.
Proof.
  intro Hne. unfold toy_lookup, toy_remove.
  induction gucs as [| [n v] gucs IH]; simpl; [reflexivity |].
  destruct (String.eqb n name) eqn:E; simpl.
  - apply String.eqb_eq in E. subst n.
    replace (String.eqb name other) with false
      by (symmetry; apply String.eqb_neq; congruence).
    exact IH.
  - destruct (String.eqb n other); [reflexivity | exact IH].
Qed.

Lemma toy_settings_table : @settings_table toy.
Proof.
  split.
  - intros name value e r e'. simpl. unfold toy_set_config_option.
    destruct (existsb _ _); [discriminate |]. intros [= _ <-]. simpl.
    destruct value as [v |]; simpl.
    + unfold toy_lookup. simpl. now rewrite String.eqb_refl.
    + now rewrite toy_lookup_remove.
  - intros name other value e r e'. simpl. unfold toy_set_config_option.
    destruct (existsb _ _); [discriminate |]. intros [= _ <-] Hne. simpl.
    f_equal. destruct value as [v |]; simpl.
    + unfold toy_lookup at 1. simpl.
      replace (String.eqb name other) with false
        by (symmetry; apply String.eqb_neq; congruence).
      now apply toy_lookup_remove_other.
    + now apply toy_lookup_remove_other.
Qed.

Lemma disabled_hook_is_the_planner_witness :
  po_enabled toy_disabled = false
  /\ po_planner 1 42 (Some "SELECT 1") 0 tt toy_disabled
     = next_planner 42 (Some "SELECT 1") 0 tt toy_disabled.
Proof.
  split; [reflexivity |].
  apply (disabled_hook_is_the_planner (H:=toy) 0 42 (Some "SELECT 1") 0 tt toy_disabled).
  reflexivity.
Defined.

Lemma reentry_skips_the_engine_witness :
  loading_rules (set_loading_rules true toy_world) = true
  /\ po_planner 1 42 (Some "SELECT 1") 0 tt (set_loading_rules true toy_world)
     = next_planner 42 (Some "SELECT 1") 0 tt (set_loading_rules true toy_world).
Proof.
  split; [reflexivity |].
  apply (proj1 (reentry_skips_the_engine (H:=toy)) 0%nat 42 (Some "SELECT 1") 0 tt
           (set_loading_rules true toy_world)).
  reflexivity.
Defined.




(** C2 fails on the code.  With a store that cannot be reached, the
    refresh returns with zero rules and a warning, but
    [cache_loaded_at] is still 0, not the current time, and the next
    staleness test is true again.  With the rules table absent, the
    refresh sets [cache_loaded_at] but reports no warning. *)
Lemma failed_refresh_keeps_cache_stale :
  load_rules (po_planner 1) (PG_init toy_env_down)
  = Returned tt toy_down_refreshed
  /\ filter is_warning (journal toy_down_refreshed)
     = [Call_elog WARNING
          "pg_plan_override: SPI_connect failed, cache not loaded" []]
  /\ cache_loaded_at toy_down_refreshed = 0
  /\ GetCurrentTimestamp (backend toy_down_refreshed) = 1000000000
  /\ cache_expired toy_down_refreshed = true
  /\ load_rules (po_planner 1) (PG_init toy_env_bare)
     = Returned tt toy_bare_refreshed
  /\ cache_loaded_at toy_bare_refreshed = 1000000000
  /\ filter is_warning (journal toy_bare_refreshed) = [].
Proof. repeat split; vm_compute; reflexivity. Qed.

Lemma find_matching_rule_two_passes_witness :
  find_matching_rule 42 (Some "SELECT 1 FROM t1") toy_loaded = Some toy_cached_1
  /\ find_matching_rule 5 (Some "SELECT 1 FROM t1") toy_loaded = Some toy_cached_2.
Proof.
  split.
  - destruct (find_matching_rule_two_passes (H:=toy) 42 (Some "SELECT 1 FROM t1")
                toy_loaded) as [T _].
    destruct (T [toy_cached_1; toy_cached_2] eq_refl eq_refl) as [T1 _].
    apply T1; [discriminate |].
    exists [], [toy_cached_2]. split; [reflexivity |].
    split; [split; [discriminate | reflexivity] | constructor].
  - destruct (find_matching_rule_two_passes (H:=toy) 5 (Some "SELECT 1 FROM t1")
                toy_loaded) as [T _].
    destruct (T [toy_cached_1; toy_cached_2] eq_refl eq_refl) as [_ T2].
    destruct T2 as [T2 _].
    + right. repeat constructor; intros [Hz He]; [discriminate He | now apply Hz].
    + apply (T2 "SELECT 1 FROM t1"%string); [reflexivity |].
      exists [toy_cached_1], []. split; [reflexivity |]. split.
      * exists "SELECT % FROM t_"%string. split; reflexivity.
      * repeat constructor. intros (pattern & Hp & _). discriminate Hp.
Defined.

Lemma overrides_are_undone_witness :
  exists w1 w3 result w4 w5,
    po_planner 2 7 (Some "SELECT 1") 0 tt toy_world_twice = Returned result w5
    /\ (forall name, names_setting toy_twice name ->
                     GetConfigOption name (backend w5)
                     = GetConfigOption name (backend w1))
    /\ (forall name, ~ names_setting toy_twice name ->
                     GetConfigOption name (backend w3)
                     = GetConfigOption name (backend w1)
                     /\ GetConfigOption name (backend w5)
                        = GetConfigOption name (backend w4))
    /\ journal_adds (rule_assignment toy_twice) w1 w5.
Proof.
  do 5 eexists.
  eapply (overrides_are_undone (H:=toy) 0 7 (Some "SELECT 1"%string) 0 tt
            toy_world_twice).
  - exact toy_settings_table.
  - reflexivity.
  - reflexivity.
  - vm_compute. reflexivity.
  - vm_compute. reflexivity.
  - vm_compute. reflexivity.
  - vm_compute. reflexivity.
  - vm_compute. reflexivity.
  - vm_compute. reflexivity.
Defined.


Lemma assignment_errors_propagate_witness :
  exists w5,
    po_planner 2 14 (Some "SELECT a FROM t1") 0 tt toy_world
    = Raised "cannot set work_mem"%string w5.
Proof.
  eexists.
  eassert (T : _).
  { eapply (assignment_errors_propagate (H:=toy) 0 14
              (Some "SELECT a FROM t1"%string) 0 tt toy_world);
      [reflexivity | reflexivity
       | vm_compute; reflexivity | vm_compute; reflexivity
       | vm_compute; reflexivity]. }
  cbv zeta in T. destruct T as (_ & T & _).
  edestruct T as [T1 _]; [vm_compute; reflexivity |].
  eapply T1; vm_compute; reflexivity.
Defined.

(** C3 fails on the code.  The hook finds the second rule for the
    query; the snapshot and the two assignments of the rule return;
    the planner raises its error; the first assignment of the restore
    raises another.  The hook raises that other error, not the
    planner's, and the second entry of the restore is never assigned:
    [jit], unset before the call, is left at the value of the rule. *)
Lemma restore_error_replaces_planner_error :
  exists w1 saved w2 w3 w4 w5,
    refresh_if_expired (po_planner 1) toy_world = Returned tt w1
    /\ find_matching_rule 14 (Some "SELECT a FROM t1") w1 = Some toy_cached_2
    /\ save_guc_values toy_cached_2 w1 = Returned saved w2
    /\ apply_overrides toy_cached_2 w2 = Returned tt w3
    /\ next_planner 14 (Some "SELECT a FROM t1") 0 tt w3
       = Raised "planner failed"%string w4
    /\ po_planner 2 14 (Some "SELECT a FROM t1") 0 tt toy_world
       = Raised "cannot set work_mem"%string w5
    /\ filter is_assignment (journal w5)
       = [Call_set_config_option "work_mem" (Some "128"%string);
          Call_set_config_option "jit" (Some "on"%string);
          Call_set_config_option "work_mem" (Some "4MB"%string)]
    /\ GetConfigOption "jit" (backend w1) = Normal None
    /\ GetConfigOption "jit" (backend w5) = Normal (Some "on"%string).
Proof.
  do 6 eexists.
  split; [vm_compute; reflexivity |].
  split; [vm_compute; reflexivity |].
  split; [vm_compute; reflexivity |].
  split; [vm_compute; reflexivity |].
  split; [vm_compute; reflexivity |].
  split; [vm_compute; reflexivity |].
  split; [vm_compute; reflexivity |].
  split; vm_compute; reflexivity.
Qed.

Local Close Scope Z_scope.
(* ================================================================== *)
(** * More about the pattern matcher *)

Lemma like_plain_cons c tc t p :
  is_percent c = false -> is_underscore c = false ->
  (like (tc :: t) (c :: p) <-> tc = c /\ like t p).
Proof.
  intros Hc Hu. split.
  - intro L. inversion L; subst; try discriminate. auto.
  - intros [-> L]. now constructor.
Qed.

Lemma like_literal_app P q t :
  literal P -> (like t (P ++ q) <-> exists u, t = P ++ u /\ like u q).
Proof.
  intro HP. revert t. induction HP as [| c P [Hc Hu] _ IH]; intro t; simpl.
  - split; [eauto | now intros (u & -> & L)].
  - split.
    + intro L. destruct t as [| tc t]; [inversion L; subst; discriminate |].
      apply like_plain_cons in L; [| assumption | assumption].
      destruct L as [-> L]. apply IH in L. destruct L as (u & -> & L). eauto.
    + intros (u & -> & L). apply like_plain_cons; [assumption | assumption |].
      split; [reflexivity |]. apply IH. eauto.
Qed.

Lemma like_any t : like t ["%"%char].
Proof. now apply like_all_percent. Qed.

Lemma like_prefix_idiom P t :
  literal P -> (like t (P ++ ["%"%char]) <-> exists rest, t = P ++ rest).
Proof.
  intro HP. rewrite like_literal_app by assumption. split.
  - intros (u & -> & _). eauto.
  - intros (u & ->). exists u. split; [reflexivity | apply like_any].
Qed.

Lemma like_suffix_idiom P t :
  literal P -> (like t ("%"%char :: P) <-> exists front, t = front ++ P).
Proof.
  intro HP. rewrite like_percent_inv. split.
  - intros (u & v & -> & L). apply like_literal in L; [| assumption].
    subst v. eauto.
  - intros (u & ->). exists u, P. split; [reflexivity |].
    now apply like_literal.
Qed.

Lemma like_infix_idiom P t :
  literal P ->
  (like t ("%"%char :: P ++ ["%"%char])
   <-> exists front rest, t = front ++ P ++ rest).
Proof.
  intro HP. rewrite like_percent_inv. split.
  - intros (u & v & -> & L). apply like_prefix_idiom in L; [| assumption].
    destruct L as (rest & ->). eauto.
  - intros (u & rest & ->). exists u, (P ++ rest). split; [reflexivity |].
    apply like_prefix_idiom; eauto.
Qed.

Lemma string_of_list_app l1 l2 :
  string_of_list_ascii (l1 ++ l2)
  = (string_of_list_ascii l1 ++ string_of_list_ascii l2)%string.
Proof. induction l1 as [| c l1 IH]; simpl; [reflexivity | now rewrite IH]. Qed.

Lemma string_split_iff (s a : string) :
  (exists rest, list_ascii_of_string s = list_ascii_of_string a ++ rest)
  <-> exists rest : string, s = (a ++ rest)%string.
Proof.
  split.
  - intros (rest & E). exists (string_of_list_ascii rest).
    apply list_ascii_of_string_inj.
    now rewrite list_ascii_of_string_app, list_ascii_of_string_of_list_ascii.
  - intros (rest & ->). exists (list_ascii_of_string rest).
    apply list_ascii_of_string_app.
Qed.

(** X1.  The three usual shapes of a pattern around a text [P] without
    wildcards: [P%] matches the texts that begin with [P], [%P] those
    that end with [P], and [%P%] those that contain [P]. *)
Theorem pattern_match_idioms text P :
  literal (list_ascii_of_string P) ->
  (pattern_match text (P ++ "%") = true
   <-> exists rest : string, text = (P ++ rest)%string)
  /\ (pattern_match text ("%" ++ P) = true
      <-> exists front : string, text = (front ++ P)%string)
  /\ (pattern_match text ("%" ++ P ++ "%") = true
      <-> exists front rest : string, text = (front ++ P ++ rest)%string).
Proof.
  intro HP. split; [| split].
  - rewrite pattern_match_like, list_ascii_of_string_app.
    change (list_ascii_of_string "%") with ["%"%char].
    rewrite like_prefix_idiom by assumption. apply string_split_iff.
  - rewrite pattern_match_like.
    change (list_ascii_of_string ("%" ++ P))
      with ("%"%char :: list_ascii_of_string P).
    rewrite like_suffix_idiom by assumption. split.
    + intros (front & E). exists (string_of_list_ascii front).
      apply list_ascii_of_string_inj.
      now rewrite list_ascii_of_string_app, list_ascii_of_string_of_list_ascii.
    + intros (front & ->). exists (list_ascii_of_string front).
      apply list_ascii_of_string_app.
  - rewrite pattern_match_like.
    change (list_ascii_of_string ("%" ++ P ++ "%"))
      with ("%"%char :: list_ascii_of_string (P ++ "%")).
    rewrite list_ascii_of_string_app.
    change (list_ascii_of_string "%") with ["%"%char].
    rewrite like_infix_idiom by assumption. split.
    + intros (front & rest & E).
      exists (string_of_list_ascii front), (string_of_list_ascii rest).
      apply list_ascii_of_string_inj.
      now rewrite !list_ascii_of_string_app, !list_ascii_of_string_of_list_ascii.
    + intros (front & rest & ->).
      exists (list_ascii_of_string front), (list_ascii_of_string rest).
      now rewrite !list_ascii_of_string_app.
Qed.

Lemma pattern_match_idioms_witness :
  pattern_match "SELECT * FROM orders" ("SELECT" ++ "%") = true
  <-> exists rest : string, "SELECT * FROM orders" = ("SELECT" ++ rest)%string.
Proof.
  apply (proj1 (pattern_match_idioms "SELECT * FROM orders" "SELECT"
                  ltac:(repeat constructor))).
Defined.

Lemma string_length_list s :
  String.length s = List.length (list_ascii_of_string s).
Proof. induction s as [| c s IH]; simpl; [reflexivity | now rewrite IH]. Qed.

Lemma like_no_percent_length t p :
  no_percent p -> like t p -> List.length t = List.length p.
Proof.
  intros Hp L. induction L; simpl.
  - reflexivity.
  - inversion Hp; subst. discriminate.
  - inversion Hp; subst. f_equal. auto.
  - inversion Hp; subst. f_equal. auto.
Qed.

(** X2.  A text that matches a pattern has at least as many characters
    as the pattern has characters other than [%], and exactly as many
    as the pattern has characters when the pattern has no [%]. *)
Theorem pattern_match_length text pattern :
  pattern_match text pattern = true ->
  (min_len (list_ascii_of_string pattern) <= String.length text)%nat
  /\ (no_percent (list_ascii_of_string pattern) ->
      String.length text = String.length pattern).
Proof.
  intro Hm. apply pattern_match_like in Hm. rewrite !string_length_list.
  split.
  - now apply like_min_len.
  - intro Hp. now apply like_no_percent_length.
Qed.

Lemma pattern_match_length_witness :
  (min_len (list_ascii_of_string "a_%z") <= String.length "abcz")%nat.
Proof.
  apply (proj1 (pattern_match_length "abcz" "a_%z" eq_refl)).
Defined.

Section MoreProperties.

Context {H : Host}.

(* ------------------------------------------------------------------ *)
(** ** What the matcher returns *)

Lemma scan_rules_some test rules count :
  forall start r,
    scan_rules test rules start count = Some r ->
    test r = true
    /\ exists i, (start <= i < start + count)%nat /\ nth i rules zeroed_rule = r.
Proof.
  induction count as [| count IH]; intros start r E; simpl in E; [discriminate |].
  destruct (test (nth start rules zeroed_rule)) eqn:T.
  - injection E as <-. split; [exact T |]. exists start. split; [lia | reflexivity].
  - apply IH in E. destruct E as (Ht & i & Hi & E). split; [exact Ht |].
    exists i. split; [lia | exact E].
Qed.

Lemma scan_rules_in test rules start count r :
  test zeroed_rule = false ->
  scan_rules test rules start count = Some r ->
  test r = true /\ In r rules.
Proof.
  intros Hz E. apply scan_rules_some in E. destruct E as (Ht & i & _ & E).
  split; [exact Ht |].
  destruct (Nat.lt_ge_cases i (List.length rules)) as [Hi | Hi].
  - rewrite <- E. now apply nth_In.
  - rewrite nth_overflow in E by assumption. subst r. congruence.
Qed.

(** X3.  A rule that [find_matching_rule] returns is a rule of the
    cache, and it matches the query: by its identifier, which is then
    not 0 and equal to the query's, or by its pattern, which is then
    set and matches the query text.  So a rule with neither an
    identifier nor a pattern is never returned. *)
Theorem find_matching_rule_sound parse query_string w r :
  find_matching_rule parse query_string w = Some r ->
  (exists rules, cached_rules w = Some rules /\ In r rules)
  /\ ((queryId parse <> 0%Z /\ has_query_id parse r)
      \/ (exists text, query_string = Some text /\ has_pattern_for text r))
  /\ ~ (query_id r = 0%Z /\ query_pattern r = None).
Proof.
  unfold find_matching_rule. intro E.
  destruct (cached_rules w) as [rules |]; [| discriminate].
  destruct (cached_rules_count w =? 0)%Z; [discriminate |].
  assert (Hmain :
    In r rules
    /\ ((queryId parse <> 0%Z /\ has_query_id parse r)
        \/ (exists text, query_string = Some text /\ has_pattern_for text r))).
  { destruct (negb (queryId parse =? 0)%Z) eqn:Hq.
    - destruct (scan_rules (query_id_matches parse) rules 0 _) as [r1 |] eqn:S1.
      + injection E as <-.
        apply scan_rules_in in S1; [| reflexivity]. destruct S1 as [Ht Hin].
        split; [exact Hin |]. left. split.
        * apply negb_true_iff, Z.eqb_neq in Hq. exact Hq.
        * now apply query_id_matches_iff.
      + destruct query_string as [text |]; [| discriminate].
        apply scan_rules_in in E; [| reflexivity]. destruct E as [Ht Hin].
        split; [exact Hin |]. right. exists text. split; [reflexivity |].
        now apply query_pattern_matches_iff.
    - destruct query_string as [text |]; [| discriminate].
      apply scan_rules_in in E; [| reflexivity]. destruct E as [Ht Hin].
      split; [exact Hin |]. right. exists text. split; [reflexivity |].
      now apply query_pattern_matches_iff. }
  destruct Hmain as [Hin Hm]. split; [eauto |]. split; [exact Hm |].
  intros [Hid Hpat]. destruct Hm as [[_ [Hne _]] | (text & _ & pattern & Hp & _)].
  - contradiction.
  - congruence.
Qed.

(* ------------------------------------------------------------------ *)
(** ** JSONB GUC parsing *)

Lemma parse_jsonb_gucs_loop_filter it :
  forall names values count capacity w,
    parse_jsonb_gucs_loop it names values count capacity w
    = parse_jsonb_gucs_loop (filter key_or_value it) names values count
        capacity w.
Proof.
  induction it as [| [tok v] it IH]; intros names values count capacity w;
    [reflexivity |].
  destruct tok; simpl; try apply IH.
  destruct v; simpl; apply IH.
Qed.

(** X4.  [parse_jsonb_gucs] looks at the keys and the values of a
    payload and at nothing else: what it does for a payload is what it
    does for the payload without its tokens of structure (the begin
    and the end of an object or an array, the elements of an array).
    The pairs of an object nested in the payload so count as settings
    of the rule. *)
Theorem parse_jsonb_gucs_ignores_structure jb w :
  parse_jsonb_gucs jb w = parse_jsonb_gucs (filter key_or_value jb) w.
Proof. apply parse_jsonb_gucs_loop_filter. Qed.

Lemma array_set_firstn {A} (a : list A) i x :
  (i <= List.length a)%nat -> firstn i (array_set a i x) = firstn i a.
Proof.
  intro Hi. unfold array_set.
  rewrite firstn_app, length_firstn, Nat.min_l by assumption.
  rewrite Nat.sub_diag, firstn_firstn, Nat.min_id. simpl. apply app_nil_r.
Qed.

Lemma array_set_nth {A} (a : list A) i x d :
  (i <= List.length a)%nat -> nth i (array_set a i x) d = x.
Proof.
  intro Hi. unfold array_set.
  rewrite app_nth2; rewrite length_firstn, Nat.min_l by assumption; [| lia].
  now rewrite Nat.sub_diag.
Qed.

Lemma array_set_length_next {A} (a : list A) i x :
  (i <= List.length a <= S i)%nat -> List.length (array_set a i x) = S i.
Proof.
  intro Hi. unfold array_set.
  rewrite length_app, length_firstn. cbn [List.length]. rewrite length_skipn. lia.
Qed.

Lemma firstn_next {A} (a : list A) i d :
  (i < List.length a)%nat -> firstn (S i) a = firstn i a ++ [nth i a d].
Proof.
  revert i. induction a as [| y a IH]; intros i Hi; simpl in Hi; [lia |].
  destruct i as [| i]; [reflexivity |].
  change (y :: firstn (S i) a = (y :: firstn i a) ++ [nth i a d]).
  rewrite (IH i) by lia. reflexivity.
Qed.

Lemma kept_pairs_some k v text pairs :
  guc_text v = Some text ->
  kept_pairs ((k, v) :: pairs) = (k, text) :: kept_pairs pairs
  /\ dropped_keys ((k, v) :: pairs) = dropped_keys pairs.
Proof. intro Ht. unfold kept_pairs, dropped_keys. simpl. now rewrite Ht. Qed.

Lemma kept_pairs_none k v pairs :
  guc_text v = None ->
  kept_pairs ((k, v) :: pairs) = kept_pairs pairs
  /\ dropped_keys ((k, v) :: pairs) = k :: dropped_keys pairs.
Proof. intro Ht. unfold kept_pairs, dropped_keys. simpl. now rewrite Ht. Qed.

(** The loop over the tokens of the pairs of a flat object. *)
Lemma parse_jsonb_gucs_loop_pairs pairs tail :
  forall names values count capacity w,
    List.length values = count ->
    (count <= List.length names <= S count)%nat ->
    exists names' capacity' w',
      parse_jsonb_gucs_loop
        (flat_map (fun kv => [(WJB_KEY, jbvString (fst kv)); (WJB_VALUE, snd kv)])
           pairs ++ tail)
        names values count capacity w
      = parse_jsonb_gucs_loop tail names'
          (values ++ map snd (kept_pairs pairs))
          (count + List.length (kept_pairs pairs)) capacity' w'
      /\ firstn (count + List.length (kept_pairs pairs)) names'
         = firstn count names ++ map fst (kept_pairs pairs)
      /\ (count + List.length (kept_pairs pairs) <= List.length names'
          <= S (count + List.length (kept_pairs pairs)))%nat
      /\ journal w' = journal w ++ map skip_warning (dropped_keys pairs)
      /\ same_statics w w' /\ backend w' = backend w.
Proof.
  induction pairs as [| [k v] pairs IH]; intros names values count capacity w Hv Hn.
  - exists names, capacity, w. simpl.
    rewrite !app_nil_r, !Nat.add_0_r.
    split; [reflexivity |]. split; [reflexivity |]. split; [lia |].
    split; [reflexivity |]. split; [apply same_statics_refl | reflexivity].
  - cbn [flat_map app fst snd parse_jsonb_gucs_loop string_val].
    set (capacity1 := if (Z.of_nat count >=? capacity)%Z then _ else _).
    set (names1 := array_set names count k).
    assert (L1 : List.length names1 = S count)
      by (apply array_set_length_next; lia).
    assert (F1 : firstn count names1 = firstn count names)
      by (apply array_set_firstn; lia).
    assert (N1 : nth count names1 ""%string = k)
      by (apply array_set_nth; lia).
    assert (F2 : firstn (S count) names1 = firstn count names ++ [k]).
    { rewrite (firstn_next _ _ ""%string) by lia. now rewrite F1, N1. }
    destruct (guc_text v) as [text |] eqn:Ht.
    + (* a value with a text: kept *)
      destruct (kept_pairs_some k v text pairs Ht) as [-> ->].
      assert (Estep :
        forall rest,
          match v with
          | jbvString val =>
              parse_jsonb_gucs_loop rest names1 (array_set values count val)
                (S count) capacity1
          | jbvNumeric numeric_out =>
              parse_jsonb_gucs_loop rest names1
                (array_set values count numeric_out) (S count) capacity1
          | jbvBool boolean =>
              parse_jsonb_gucs_loop rest names1
                (array_set values count (if boolean then "on" else "off")%string)
                (S count) capacity1
          | _ =>
              elog WARNING
                "pg_plan_override: skipping non-scalar GUC value for '%s'"
                [arg_s (nth count names1 ""%string)] ;;
              parse_jsonb_gucs_loop rest names1 values count capacity1
          end w
          = parse_jsonb_gucs_loop rest names1 (values ++ [text]) (S count)
              capacity1 w).
      { intro rest. subst count. rewrite <- array_set_end.
        destruct v; simpl in Ht; try discriminate;
          injection Ht as <-; reflexivity. }
      rewrite Estep.
      destruct (IH names1 (values ++ [text]) (S count) capacity1 w)
        as (names' & capacity' & w' & E & Hf & Hl & Hj & Hs & Hb).
      * rewrite length_app. simpl. lia.
      * lia.
      * exists names', capacity', w'. cbn [List.length map fst snd].
        rewrite <- app_assoc in E. cbn [app] in E.
        rewrite F2, <- app_assoc in Hf. cbn [app] in Hf.
        replace (count + S (List.length (kept_pairs pairs)))%nat
          with (S count + List.length (kept_pairs pairs))%nat by lia.
        split; [exact E |]. split; [exact Hf |]. split; [exact Hl |].
        split; [exact Hj |]. split; assumption.
    + (* any other value: skipped with a warning *)
      destruct (kept_pairs_none k v pairs Ht) as [-> ->].
      assert (Estep :
        forall rest,
          match v with
          | jbvString val =>
              parse_jsonb_gucs_loop rest names1 (array_set values count val)
                (S count) capacity1
          | jbvNumeric numeric_out =>
              parse_jsonb_gucs_loop rest names1
                (array_set values count numeric_out) (S count) capacity1
          | jbvBool boolean =>
              parse_jsonb_gucs_loop rest names1
                (array_set values count (if boolean then "on" else "off")%string)
                (S count) capacity1
          | _ =>
              elog WARNING
                "pg_plan_override: skipping non-scalar GUC value for '%s'"
                [arg_s (nth count names1 ""%string)] ;;
              parse_jsonb_gucs_loop rest names1 values count capacity1
          end w
          = parse_jsonb_gucs_loop rest names1 values count capacity1
              (record_call (skip_warning k) w)).
      { intro rest. rewrite N1.
        destruct v; simpl in Ht; try discriminate; reflexivity. }
      rewrite Estep.
      destruct (IH names1 values count capacity1
                  (record_call (skip_warning k) w))
        as (names' & capacity' & w' & E & Hf & Hl & Hj & Hs & Hb);
        [assumption | lia |].
      exists names', capacity', w'.
      rewrite F1 in Hf. cbn [journal record_call] in Hj.
      rewrite <- app_assoc in Hj.
      split; [exact E |]. split; [exact Hf |]. split; [exact Hl |].
      split; [exact Hj |]. split; [| exact Hb].
      eapply same_statics_trans; [| exact Hs]. now apply same_statics_record.
Qed.

(** X5.  For the payload of a flat object, [parse_jsonb_gucs] returns
    the pairs whose value is a string, a boolean or a number, in the
    order of the object: the count is their number, the names are
    their keys, the values are their values as text ([on] and [off]
    for booleans).  A pair with any other value is left out, with a
    warning that names its key, and the pairs after it are kept.  The
    function only logs: it returns, and leaves the statics and the
    backend as they were. *)
Theorem parse_jsonb_gucs_flat_object pairs w :
  exists names w',
    parse_jsonb_gucs (flat_object pairs) w
    = Returned (List.length (kept_pairs pairs), names,
                map snd (kept_pairs pairs)) w'
    /\ firstn (List.length (kept_pairs pairs)) names
       = map fst (kept_pairs pairs)
    /\ journal w' = journal w ++ map skip_warning (dropped_keys pairs)
    /\ same_statics w w' /\ backend w' = backend w.
Proof.
  unfold parse_jsonb_gucs, flat_object.
  cbn [parse_jsonb_gucs_loop].
  destruct (parse_jsonb_gucs_loop_pairs pairs [(WJB_END_OBJECT, jbvContainer)]
              [] [] 0%nat 8%Z w)
    as (names' & capacity' & w' & E & Hf & Hl & Hj & Hs & Hb);
    [reflexivity | simpl; lia |].
  exists names', w'. rewrite E. simpl in Hf, Hj |- *.
  split; [reflexivity |]. split; [exact Hf |]. split; [exact Hj |].
  split; assumption.
Qed.

(* ------------------------------------------------------------------ *)
(** ** A refresh that loads rules, and a refresh that raises *)

Lemma parse_jsonb_gucs_loop_only_logs it :
  forall names values count capacity,
    only_logs (parse_jsonb_gucs_loop it names values count capacity).
Proof.
  induction it as [| [tok v] it IH]; intros names values count capacity w.
  - exists (count, names, values), w. simpl.
    split; [reflexivity |]. split; [apply same_statics_refl | reflexivity].
  - destruct tok; simpl; try apply IH.
    destruct v; simpl; try apply IH;
      (unfold bind, elog, modify;
       match goal with
       | |- context [parse_jsonb_gucs_loop _ ?n ?v ?c ?k (record_call ?call w)] =>
           destruct (IH n v c k (record_call call w))
             as (a & w' & E & Hs & Hb)
       end;
       exists a, w'; split; [exact E |]; split;
       [eapply same_statics_trans; [now apply same_statics_record | exact Hs]
       | exact Hb]).
Qed.

Lemma array_set_nth_other {A} (a : list A) i j x d :
  (i < List.length a)%nat -> j <> i ->
  nth j (array_set a i x) d = nth j a d.
Proof.
  intros Hi Hne. unfold array_set.
  destruct (Nat.lt_ge_cases j i) as [Hlt | Hge].
  - rewrite app_nth1 by (rewrite length_firstn; lia).
    rewrite nth_firstn.
    now destruct (Nat.ltb_spec j i); [| lia].
  - rewrite app_nth2 by (rewrite length_firstn; lia).
    rewrite length_firstn, Nat.min_l by lia.
    destruct (j - i)%nat as [| m] eqn:E; [lia |]. cbn [nth].
    rewrite nth_skipn. f_equal. lia.
Qed.

Lemma load_rule_spec i w a :
  cached_rules w = Some a -> (i < List.length a)%nat ->
  exists rule w',
    load_rule i w = Returned tt w'
    /\ rule_of_tuple (nth i (SPI_tuptable (backend w)) null_tuple) rule
    /\ cached_rules w' = Some (array_set a i rule)
    /\ same_but_rules w w'.
Proof.
  intros Ha Hi. unfold load_rule. rewrite bind_gets.
  set (tuple := nth i (SPI_tuptable (backend w)) null_tuple).
  destruct (col_gucs tuple) as [datum |] eqn:Hg.
  - destruct (parse_jsonb_gucs_loop_only_logs datum [] [] 0%nat 8%Z w)
      as ([[count names] values] & w0 & E & Hs & Hb).
    fold (parse_jsonb_gucs datum) in E.
    rewrite (bind_step _ _ _ _ _ E). unfold modify.
    destruct Hs as (S1 & S2 & S3 & S4 & S5 & S6 & S7 & S8).
    eexists. eexists. split; [reflexivity |].
    split; [| split]; cycle 1.
    + simpl. rewrite S4, Ha. reflexivity.
    + unfold same_but_rules. simpl. tauto.
    + unfold rule_of_tuple. rewrite Hg. cbn [query_id query_pattern priority
        guc_names guc_values num_gucs].
      split; [reflexivity |]. split; [reflexivity |]. split; [reflexivity |].
      exists count, w, w0. split; [exact E | reflexivity].
  - rewrite bind_ret. unfold modify.
    eexists. eexists. split; [reflexivity |].
    split; [| split]; cycle 1.
    + simpl. rewrite Ha. reflexivity.
    + unfold same_but_rules. simpl. tauto.
    + unfold rule_of_tuple. rewrite Hg. cbn [query_id query_pattern priority
        guc_names guc_values num_gucs].
      split; [reflexivity |]. split; [reflexivity |]. split; [reflexivity |].
      split; [reflexivity |]. split; reflexivity.
Qed.

Lemma same_but_rules_trans w1 w2 w3 :
  same_but_rules w1 w2 -> same_but_rules w2 w3 -> same_but_rules w1 w3.
Proof. unfold same_but_rules. intuition congruence. Qed.

(** The loop of [load_rules] over the rows. *)
Lemma load_rows_loop count :
  forall start w a,
    cached_rules w = Some a ->
    (start + count <= List.length a)%nat ->
    exists a' w',
      for_loop start count (fun i (_ : unit) => load_rule i) tt w
      = Returned tt w'
      /\ cached_rules w' = Some a' /\ List.length a' = List.length a
      /\ (forall j, (j < start)%nat ->
                    nth j a' zeroed_rule = nth j a zeroed_rule)
      /\ (forall j, (start <= j < start + count)%nat ->
                    rule_of_tuple (nth j (SPI_tuptable (backend w)) null_tuple)
                      (nth j a' zeroed_rule))
      /\ same_but_rules w w'.
Proof.
  induction count as [| count IH]; intros start w a Ha Hlen.
  - exists a, w. simpl. split; [reflexivity |]. split; [exact Ha |].
    split; [reflexivity |]. split; [reflexivity |].
    split; [intros j Hj; lia |]. unfold same_but_rules. tauto.
  - destruct (load_rule_spec start w a Ha) as (rule & w1 & E1 & Hr & Ha1 & Hs1);
      [lia |].
    destruct (IH (S start) w1 (array_set a start rule) Ha1)
      as (a' & w' & E & Ha' & Hl & Hbefore & Hin & Hs).
    { rewrite array_set_length by lia. lia. }
    exists a', w'. cbn [for_loop]. rewrite (bind_step _ _ _ _ _ E1).
    split; [exact E |]. split; [exact Ha' |].
    split; [rewrite Hl; apply array_set_length; lia |].
    assert (Hb : backend w1 = backend w) by apply Hs1.
    split; [| split].
    + intros j Hj. rewrite Hbefore by lia. apply array_set_nth_other; lia.
    + intros j Hj. destruct (Nat.eq_dec j start) as [-> | Hne].
      * rewrite Hbefore by lia. rewrite array_set_nth by lia. exact Hr.
      * rewrite <- Hb. apply Hin. lia.
    + eapply same_but_rules_trans; eassumption.
Qed.

Lemma length_repeat_rules n : List.length (repeat zeroed_rule n) = n.
Proof. apply repeat_length. Qed.

(** X6.  A refresh that finds rules.  Once [SPI_connect] has succeeded,
    the query for the rules table has returned a row and the rule
    query has returned [SPI_OK_SELECT], [load_rules] returns; with
    [count] the number of rows as the code reads it (the 64-bit
    [SPI_processed] truncated to [int]):
    - if [count] is zero, no rule is cached, the guard is clear,
      [cache_loaded_at] is the current time and the journal has grown
      by [SPI_finish] alone;
    - if [count] is positive, the cache holds [count] rules, the rule
      at index [i] is the one made of row [i] of the result (NULL
      [query_id] and [priority] read as 0, a NULL [gucs] as no
      setting, another [gucs] as [parse_jsonb_gucs] parses it), the
      guard is clear, [cache_loaded_at] is the current time and the
      connection has been closed. *)
Theorem load_rules_loads_the_rows depth w w1 w2 w3 :
  load_rules_connect w = Returned SPI_OK_CONNECT w1 ->
  SPI_execute (po_planner (S depth)) rules_table_sql true 1 w1
  = Returned SPI_OK_SELECT w2 ->
  SPI_processed (backend w2) <> 0%Z ->
  SPI_execute (po_planner (S depth)) rules_query_sql true 0 w2
  = Returned SPI_OK_SELECT w3 ->
  (to_int32 (SPI_processed (backend w3)) = 0%Z ->
   exists w',
     load_rules (po_planner (S depth)) w = Returned tt w'
     /\ no_rules w' /\ loading_rules w' = false
     /\ cache_loaded_at w' = GetCurrentTimestamp (backend w')
     /\ journal w' = journal w3 ++ [Call_SPI_finish])
  /\ ((0 < to_int32 (SPI_processed (backend w3)))%Z ->
      exists rules w',
        load_rules (po_planner (S depth)) w = Returned tt w'
        /\ cached_rules w' = Some rules
        /\ cached_rules_count w' = to_int32 (SPI_processed (backend w3))
        /\ Z.of_nat (List.length rules) = cached_rules_count w'
        /\ (forall i, (i < List.length rules)%nat ->
                      rule_of_tuple
                        (nth i (SPI_tuptable (backend w3)) null_tuple)
                        (nth i rules zeroed_rule))
        /\ loading_rules w' = false
        /\ cache_loaded_at w' = GetCurrentTimestamp (backend w')
        /\ backend w' = SPI_finish (backend w3)).
Proof.
  intros Hc E2 Hproc E3. rewrite load_rules_connect_eq in Hc.
  injection Hc as Hcode <-.
  unfold load_rules. rewrite load_rules_opening.
  rewrite Hcode, Z.eqb_refl. cbn [negb].
  set (w1 := set_backend _ _) in *.
  rewrite (bind_step _ _ _ _ _ E2), bind_gets.
  assert (S2 := SPI_execute_while_loading depth rules_table_sql true 1 w1 eq_refl).
  rewrite E2 in S2. simpl in S2.
  destruct S2 as [(_ & D2 & _ & R2 & C2 & L2 & _ & G2) _].
  apply Z.eqb_neq in Hproc. rewrite Hproc, Z.eqb_refl. cbn [negb orb].
  rewrite (bind_step _ _ _ _ _ E3). rewrite Z.eqb_refl. cbn [negb].
  assert (S3 := SPI_execute_while_loading depth rules_query_sql true 0 w2 G2).
  rewrite E3 in S3. simpl in S3.
  destruct S3 as [(_ & D3 & _ & R3 & C3 & L3 & _ & G3) _].
  rewrite bind_gets, bind_modify, bind_gets.
  cbn [cached_rules_count set_cached_rules_count].
  set (count := to_int32 (SPI_processed (backend w3))).
  split.
  - intro Hz. rewrite Hz. cbn [Z.eqb].
    eexists. split; [reflexivity |].
    unfold no_rules. simpl. rewrite R3, R2. simpl.
    repeat split; reflexivity.
  - intro Hpos. assert (Hne : (count =? 0)%Z = false) by (apply Z.eqb_neq; lia).
    rewrite Hne. rewrite bind_modify.
    set (w4 := set_cached_rules _ _).
    destruct (load_rows_loop (Z.to_nat count) 0 w4
                (repeat zeroed_rule (Z.to_nat count)) eq_refl)
      as (rules & w5 & E5 & R5 & Len5 & _ & Hrows & Hs5).
    { rewrite length_repeat_rules. lia. }
    rewrite length_repeat_rules in Len5.
    destruct Hs5 as (_ & D5 & _ & C5 & _ & _ & _ & B5).
    rewrite (bind_step _ _ _ _ _ E5).
    rewrite bind_SPI_finish, bind_gets, !bind_modify, bind_gets.
    exists rules.
    assert (Hlen : Z.of_nat (List.length rules) = count) by (rewrite Len5; lia).
    assert (Hrows' : forall i, (i < List.length rules)%nat ->
              rule_of_tuple (nth i (SPI_tuptable (backend w3)) null_tuple)
                (nth i rules zeroed_rule)).
    { intros i Hi. apply (Hrows i). lia. }
    match goal with
    | |- context [if ?d then _ else _] => destruct d eqn:Hd
    end.
    + eexists. split; [reflexivity |]. simpl. rewrite R5, C5, B5. simpl.
      split; [reflexivity |]. split; [reflexivity |]. split; [exact Hlen |].
      split; [exact Hrows' |]. repeat split; reflexivity.
    + eexists. split; [reflexivity |]. simpl. rewrite R5, C5, B5. simpl.
      split; [reflexivity |]. split; [reflexivity |]. split; [exact Hlen |].
      split; [exact Hrows' |]. repeat split; reflexivity.
Qed.

Lemma bind_raised_inv {A B} (m : M A) (k : A -> M B) w e w' :
  bind m k w = Raised e w' ->
  m w = Raised e w'
  \/ exists a w1, m w = Returned a w1 /\ k a w1 = Raised e w'.
Proof.
  unfold bind. destruct (m w) as [a w1 | e1 w1 |]; intro E;
    try discriminate.
  - right. eauto.
  - left. injection E as -> ->. reflexivity.
Qed.

Lemma SPI_execute_loading depth src read_only tcount w :
  loading_rules w = true ->
  ends (fun w w' => same_statics w w' /\ journal_adds not_finish w w')
    w (SPI_execute (po_planner (S depth)) src read_only tcount w).
Proof.
  intro Hw.
  rewrite (SPI_execute_hook_ext _ next_planner); [| | assumption].
  - apply ends_and.
    + apply SPI_execute_same_statics, next_planner_same_statics.
    + apply (respects_SPI_execute _ _ (journal_adds_steps _)); [discriminate |].
      intros. apply (respects_next_planner _ _ (journal_adds_steps _)).
      discriminate.
  - intros. apply po_planner_fast_path. now right.
Qed.

Lemma load_rules_raised depth w e w' :
  load_rules (po_planner (S depth)) w = Raised e w' ->
  ((exists w0,
      SPI_execute (po_planner (S depth)) rules_table_sql true 1 w0
      = Raised e w')
   \/ (exists w0,
         SPI_execute (po_planner (S depth)) rules_query_sql true 0 w0
         = Raised e w'))
  /\ loading_rules w' = true /\ no_rules w'
  /\ cache_loaded_at w' = cache_loaded_at w
  /\ (exists calls,
        journal w' = journal w ++ calls /\ ~ In Call_SPI_finish calls)
  /\ (forall d p q c b,
        po_planner (S d) p q c b w' = next_planner p q c b w').
Proof.
  unfold load_rules. rewrite load_rules_opening.
  set (w1 := set_backend _ _).
  assert (J1 : journal_adds not_finish w w1).
  { exists [Call_SPI_connect]. split; [reflexivity |].
    constructor; [discriminate | constructor]. }
  assert (Hend : forall w0 w2,
            same_statics w1 w0 -> journal_adds not_finish w1 w0 ->
            same_statics w0 w2 /\ journal_adds not_finish w0 w2 ->
            loading_rules w2 = true /\ no_rules w2
            /\ cache_loaded_at w2 = cache_loaded_at w
            /\ (exists calls,
                   journal w2 = journal w ++ calls
                   /\ ~ In Call_SPI_finish calls)
            /\ (forall d p q c b,
                   po_planner (S d) p q c b w2 = next_planner p q c b w2)).
  { intros w0 w2 S0 J0 [S2 J2].
    assert (S02 := same_statics_trans _ _ _ S0 S2).
    destruct S02 as (_ & _ & _ & R & C & L & _ & G).
    assert (Hg : loading_rules w2 = true) by (rewrite G; reflexivity).
    split; [exact Hg |].
    split; [split; [rewrite R | rewrite C]; reflexivity |].
    split; [rewrite L; reflexivity |].
    split.
    - destruct (journal_adds_trans _ _ _ _ J1
                  (journal_adds_trans _ _ _ _ J0 J2)) as (calls & Ej & F).
      exists calls. split; [exact Ej |].
      intro Hin. rewrite Forall_forall in F. now apply (F _ Hin).
    - intros. apply po_planner_fast_path. now right. }
  destruct (negb _); [discriminate |].
  intro E. apply bind_raised_inv in E.
  assert (T2 := SPI_execute_loading depth rules_table_sql true 1 w1 eq_refl).
  destruct E as [E | (ret1 & w2 & E2 & E)].
  { rewrite E in T2. simpl in T2.
    split; [left; now exists w1 |].
    apply (Hend w1 w'); [apply same_statics_refl | apply journal_adds_refl
                        | exact T2]. }
  rewrite E2 in T2. simpl in T2. destruct T2 as [S2 J2].
  rewrite bind_gets in E.
  destruct (negb _ || _); [discriminate |].
  apply bind_raised_inv in E.
  assert (G2 : loading_rules w2 = true) by (now rewrite (proj2 (proj2 (proj2
    (proj2 (proj2 (proj2 (proj2 S2)))))))).
  assert (T3 := SPI_execute_loading depth rules_query_sql true 0 w2 G2).
  destruct E as [E | (ret2 & w3 & E3 & E)].
  { rewrite E in T3. simpl in T3.
    split; [right; now exists w2 |].
    now apply (Hend w2 w'). }
  exfalso.
  destruct (negb _); [discriminate |].
  rewrite bind_gets, bind_modify, bind_gets in E.
  destruct (_ =? 0)%Z; [discriminate |].
  rewrite bind_modify in E.
  match type of E with
  | bind (for_loop 0 ?n _ _) _ ?w4 = _ =>
      destruct (load_rows_loop n 0 w4 (repeat zeroed_rule n) eq_refl)
        as (rules & w5 & E5 & _); [rewrite length_repeat_rules; lia |]
  end.
  rewrite (bind_step _ _ _ _ _ E5) in E.
  rewrite bind_SPI_finish, bind_gets, !bind_modify, bind_gets in E.
  match type of E with
  | context [if ?d then _ else _] => destruct d
  end; discriminate.
Qed.

(** X7.  A refresh that raises.  [load_rules] raises only where one of
    its two SPI queries raises, and then it leaves the reentrancy guard
    set: no rule is cached, [cache_loaded_at] is as before the
    refresh, [SPI_finish] has not been called, and the hook called in
    the world it leaves is the planner alone.  A call of the hook that
    makes this refresh raises the same error. *)
Theorem load_rules_raise_keeps_the_guard depth w e w' :
  load_rules (po_planner (S depth)) w = Raised e w' ->
  ((exists w0,
      SPI_execute (po_planner (S depth)) rules_table_sql true 1 w0
      = Raised e w')
   \/ (exists w0,
         SPI_execute (po_planner (S depth)) rules_query_sql true 0 w0
         = Raised e w'))
  /\ loading_rules w' = true /\ no_rules w'
  /\ cache_loaded_at w' = cache_loaded_at w
  /\ (exists calls,
        journal w' = journal w ++ calls /\ ~ In Call_SPI_finish calls)
  /\ (forall d p q c b,
        po_planner (S d) p q c b w' = next_planner p q c b w')
  /\ (po_enabled w = true -> loading_rules w = false ->
      cache_expired w = true ->
      forall p q c b,
        po_planner (S (S depth)) p q c b w = Raised e w').
Proof.
  intro E.
  destruct (load_rules_raised _ _ _ _ E) as (H1 & H2 & H3 & H4 & H5 & H6).
  split; [exact H1 |]. split; [exact H2 |]. split; [exact H3 |].
  split; [exact H4 |]. split; [exact H5 |]. split; [exact H6 |].
  intros He Hl Hx p q c b.
  rewrite po_planner_unfold by assumption.
  unfold refresh_if_expired. rewrite bind_assoc, bind_gets, Hx.
  now rewrite (bind_raised _ _ _ _ _ E).
Qed.

(* ------------------------------------------------------------------ *)
(** ** The hook with a rule found *)

Lemma for_loop_raised_inv {T} (body : nat -> T -> M T) count :
  forall start acc w e w',
    for_loop start count body acc w = Raised e w' ->
    exists k acck wk,
      (k < count)%nat
      /\ for_loop start k body acc w = Returned acck wk
      /\ body (start + k)%nat acck wk = Raised e w'.
Proof.
  induction count as [| count IH]; intros start acc w e w' E; simpl in E.
  - discriminate.
  - apply bind_raised_inv in E. destruct E as [E | (a & w1 & E1 & E)].
    + exists 0%nat, acc, w. split; [lia |]. split; [reflexivity |].
      now rewrite Nat.add_0_r.
    + destruct (IH _ _ _ _ _ E) as (k & acck & wk & Hk & Ek & Eb).
      exists (S k), acck, wk. split; [lia |]. split.
      * cbn [for_loop]. now rewrite (bind_step _ _ _ _ _ E1).
      * now replace (start + S k)%nat with (S start + k)%nat by lia.
Qed.

Lemma save_guc_values_prefix rule k w1 acc wk :
  for_loop 0 k
    (fun i saved_values =>
       val <- call_GetConfigOption (nth i (guc_names rule) "") ;;
       ret (array_set saved_values i val))
    [] w1 = Returned acc wk ->
  backend wk = backend w1 /\ same_statics w1 wk
  /\ journal wk = journal w1 ++ snapshot_reads rule k
  /\ forall j, (j < k)%nat ->
       exists v, GetConfigOption (nth j (guc_names rule) "") (backend w1)
                 = Normal v.
Proof.
  intro E.
  apply (for_loop_returned
           (fun i (_ : list (option string)) w0 =>
              backend w0 = backend w1 /\ same_statics w1 w0
              /\ journal w0 = journal w1 ++ snapshot_reads rule i
              /\ forall j, (j < i)%nat ->
                   exists v,
                     GetConfigOption (nth j (guc_names rule) "") (backend w1)
                     = Normal v)) in E.
  - exact E.
  - split; [reflexivity |]. split; [apply same_statics_refl |].
    split; [unfold snapshot_reads; simpl; now rewrite app_nil_r |].
    intros j Hj. lia.
  - intros i a w0 a' w0' _ Eb (Hb & Hs & Hj & Hv).
    apply bind_returned in Eb. destruct Eb as (v & w0'' & Eg & Er).
    unfold ret in Er. injection Er as _ <-.
    unfold call_GetConfigOption in Eg. simpl in Eg.
    destruct (GetConfigOption _ (backend w0)) as [v0 | e0] eqn:Ev;
      [| discriminate].
    injection Eg as _ <-. simpl.
    split; [exact Hb |].
    split; [eapply same_statics_trans;
            [exact Hs | now apply same_statics_record] |].
    split.
    + unfold snapshot_reads in *. rewrite seq_S, map_app, app_assoc, <- Hj.
      reflexivity.
    + intros j Hlt. destruct (Nat.eq_dec j i) as [-> | Hne].
      * exists v0. now rewrite <- Hb.
      * apply Hv. lia.
Qed.

(** X8.  An error of the snapshot.  When a call of the hook has found a
    rule and reading the current value of one of the settings it names
    raises, the hook raises that error: the journal then has the reads
    of the settings up to that one and nothing else (no assignment, no
    call of the planner), and the backend and the statics are as they
    were when the rule was found. *)
Theorem snapshot_error_stops_the_hook depth parse query_string cursorOptions
    boundParams w u w1 rule e w2 :
  po_enabled w = true -> loading_rules w = false ->
  refresh_if_expired (po_planner (S depth)) w = Returned u w1 ->
  find_matching_rule parse query_string w1 = Some rule ->
  save_guc_values rule w1 = Raised e w2 ->
  po_planner (S (S depth)) parse query_string cursorOptions boundParams w
  = Raised e w2
  /\ same_statics w1 w2 /\ backend w2 = backend w1
  /\ exists k,
       (k < Z.to_nat (num_gucs rule))%nat
       /\ GetConfigOption (nth k (guc_names rule) "") (backend w1) = Error e
       /\ (forall j, (j < k)%nat ->
             exists v,
               GetConfigOption (nth j (guc_names rule) "") (backend w1)
               = Normal v)
       /\ journal w2 = journal w1 ++ snapshot_reads rule (S k).
Proof.
  intros He Hl Hr Hf Hs. split.
  { rewrite (po_planner_matched _ _ _ _ _ _ _ _ _ He Hl Hr Hf).
    unfold plan_with_overrides. now rewrite (bind_raised _ _ _ _ _ Hs). }
  unfold save_guc_values in Hs.
  apply for_loop_raised_inv in Hs.
  destruct Hs as (k & acck & wk & Hk & Ek & Eb).
  apply save_guc_values_prefix in Ek.
  destruct Ek as (Hb & Hst & Hj & Hv).
  apply bind_raised_inv in Eb.
  destruct Eb as [Eb | (v & w0 & _ & Eb)]; [| discriminate].
  unfold call_GetConfigOption in Eb. simpl in Eb.
  destruct (GetConfigOption _ (backend wk)) as [v0 | e0] eqn:Ev;
    [discriminate |].
  injection Eb as <- <-. simpl.
  split; [eapply same_statics_trans;
          [exact Hst | now apply same_statics_record] |].
  split; [exact Hb |].
  exists k. split; [exact Hk |]. split; [now rewrite <- Hb |].
  split; [exact Hv |].
  unfold snapshot_reads in *. now rewrite seq_S, map_app, app_assoc, <- Hj.
Qed.

Lemma set_override_gucs_last_wins rule w w' :
  settings_table ->
  set_override_gucs rule w = Returned tt w' ->
  forall i, (i < Z.to_nat (num_gucs rule))%nat ->
    (forall j, (i < j < Z.to_nat (num_gucs rule))%nat ->
               nth j (guc_names rule) "" <> nth i (guc_names rule) "") ->
    GetConfigOption (nth i (guc_names rule) "") (backend w')
    = Normal (Some (nth i (guc_values rule) "")).
Proof.
  intros [Hsame Hother] E. unfold set_override_gucs in E.
  refine (for_loop_returned
            (fun n (_ : unit) w0 =>
               forall i, (i < n)%nat ->
                 (forall j, (i < j < n)%nat ->
                            nth j (guc_names rule) "" <> nth i (guc_names rule) "") ->
                 GetConfigOption (nth i (guc_names rule) "") (backend w0)
                 = Normal (Some (nth i (guc_values rule) "")))
            _ _ _ _ _ _ _ E _ _).
  - intros i Hi. lia.
  - intros n [] w0 [] w0' _ Eb Hinv i Hi Hlast.
    apply bind_returned in Eb. destruct Eb as (r & w0'' & Es & Er).
    unfold ret in Er. injection Er as <-.
    apply call_set_config_option_returned in Es.
    destruct (Nat.eq_dec i n) as [-> | Hne].
    + apply (Hsame _ _ _ _ _ Es).
    + rewrite (Hother _ _ _ _ _ _ Es).
      * apply Hinv; [lia |]. intros j Hj. apply Hlast. lia.
      * intro Eq. apply (Hlast n); [lia | now symmetry].
Qed.

(** X9.  The planner runs under the rule.  On a backend whose settings
    behave as a table, when a call of the hook has found a rule and the
    snapshot and the assignments of the rule have returned, the hook
    goes on as the protected call of the planner in a backend where
    every setting the rule names has the value of the rule: for a name
    the rule has several times, the value of its last entry. *)
Theorem overrides_reach_the_planner depth parse query_string cursorOptions
    boundParams w u w1 rule saved w2 w3 :
  settings_table ->
  po_enabled w = true -> loading_rules w = false ->
  refresh_if_expired (po_planner (S depth)) w = Returned u w1 ->
  find_matching_rule parse query_string w1 = Some rule ->
  save_guc_values rule w1 = Returned saved w2 ->
  apply_overrides rule w2 = Returned tt w3 ->
  po_planner (S (S depth)) parse query_string cursorOptions boundParams w
  = protected_planner rule saved parse query_string cursorOptions boundParams w3
  /\ (forall i, (i < Z.to_nat (num_gucs rule))%nat ->
        (forall j, (i < j < Z.to_nat (num_gucs rule))%nat ->
                   nth j (guc_names rule) "" <> nth i (guc_names rule) "") ->
        GetConfigOption (nth i (guc_names rule) "") (backend w3)
        = Normal (Some (nth i (guc_values rule) "")))
  /\ (forall name, names_setting rule name ->
        exists i, (i < Z.to_nat (num_gucs rule))%nat
                  /\ name = nth i (guc_names rule) ""
                  /\ GetConfigOption name (backend w3)
                     = Normal (Some (nth i (guc_values rule) ""))).
Proof.
  intros table He Hl Hr Hf Hs Ha.
  split.
  { rewrite (po_planner_matched _ _ _ _ _ _ _ _ _ He Hl Hr Hf).
    exact (plan_with_overrides_protected _ _ _ _ _ _ _ _ _ Hs Ha). }
  apply apply_overrides_returned in Ha. destruct Ha as (w0 & Ha & ->).
  pose proof (set_override_gucs_last_wins _ _ _ table Ha) as Hlast.
  split; [exact Hlast |].
  intros name (i0 & Hi0 & ->).
  set (n := Z.to_nat (num_gucs rule)) in *.
  set (name := nth i0 (guc_names rule) "").
  assert (Hex : forall m i, (i < n)%nat -> (n - i <= m)%nat ->
            nth i (guc_names rule) "" = name ->
            exists i', (i' < n)%nat /\ nth i' (guc_names rule) "" = name
                       /\ forall j, (i' < j < n)%nat ->
                                    nth j (guc_names rule) "" <> name).
  { induction m as [| m IH]; intros i Hi Hm Hn; [lia |].
    destruct (Exists_dec (fun j => (i < j)%nat
                                   /\ nth j (guc_names rule) "" = name)
                (seq 0 n)) as [Hyes | Hno].
    - intro j. destruct (lt_dec i j) as [Hlt | Hge];
        [| right; intros [? _]; contradiction].
      destruct (string_dec (nth j (guc_names rule) "") name) as [Heq | Hneq];
        [left; now split | right; intros [_ ?]; contradiction].
    - apply Exists_exists in Hyes. destruct Hyes as (j & Hin & Hlt & Hj).
      apply in_seq in Hin. apply (IH j); [lia | lia | exact Hj].
    - exists i. split; [exact Hi |]. split; [exact Hn |].
      intros j Hj Eq. apply Hno. apply Exists_exists. exists j.
      split; [apply in_seq; lia |]. split; [lia | exact Eq]. }
  destruct (Hex n i0 Hi0 ltac:(lia) eq_refl) as (i' & Hi' & Hn' & Hl').
  exists i'. split; [exact Hi' |]. split; [now symmetry |].
  fold name. rewrite <- Hn'. apply Hlast; [exact Hi' |].
  intros j Hj. rewrite Hn'. now apply Hl'.
Qed.



Lemma any_call_steps : step_relation (journal_adds (fun _ => True)) (fun _ => True).
Proof. apply journal_adds_steps. Qed.



Lemma not_spi_steps : step_relation (journal_adds not_spi) not_spi.
Proof. apply journal_adds_steps. Qed.


(* ------------------------------------------------------------------ *)
(** ** The ends of a refresh *)

Lemma ends_world_of {A} (R : World -> World -> Prop) w (o : outcome A) w' :
  ends R w o -> world_of o = Some w' -> R w w'.
Proof. destruct o; simpl; intros HR E; now inversion E; subst. Qed.

(** Every end of [load_rules], by its outcome: what has become of the
    guard, of [cache_loaded_at] and of the GUC variables, and what has
    been logged. *)
Lemma load_rules_cases depth w :
  match load_rules (po_planner (S depth)) w with
  | Returned _ w' =>
      loading_rules w' = false
      /\ po_cache_ttl w' = po_cache_ttl w
      /\ (if load_completes (po_planner (S depth)) w
          then cache_loaded_at w' = GetCurrentTimestamp (backend w')
          else cache_loaded_at w' = cache_loaded_at w)
  | Raised e w' =>
      loading_rules w' = true
      /\ po_cache_ttl w' = po_cache_ttl w
      /\ no_rules w'
      /\ cache_loaded_at w' = cache_loaded_at w
      /\ filter is_warning (journal w') = filter is_warning (journal w)
  | Unfinished => False
  end.
Proof.
  unfold load_completes. rewrite load_rules_connect_eq.
  unfold load_rules. rewrite load_rules_opening.
  set (code := fst (SPI_connect (backend w))).
  set (w1 := set_backend _ _).
  destruct (code =? SPI_OK_CONNECT)%Z eqn:Hcode; cbn [negb andb].
  2:{ cbn. repeat split; reflexivity. }
  assert (T2 := SPI_execute_while_loading depth rules_table_sql true 1 w1 eq_refl).
  destruct (SPI_execute (po_planner (S depth)) rules_table_sql true 1 w1)
    as [ret1 w2 | e2 w2 |] eqn:E2; simpl in T2.
  3:{ contradiction. }
  2:{ rewrite (bind_raised _ _ _ _ _ E2).
      destruct T2 as [(_ & _ & T & R2 & C2 & L2 & _ & G2) (calls & J2 & F2)].
      split; [rewrite G2; reflexivity |].
      split; [rewrite T; reflexivity |].
      split; [split; [rewrite R2 | rewrite C2]; reflexivity |].
      split; [rewrite L2; reflexivity |].
      rewrite J2. simpl. rewrite !warnings_app, (no_warnings _ F2). simpl.
      now rewrite !app_nil_r. }
  destruct T2 as [(_ & _ & T2 & R2 & C2 & L2 & _ & G2) (calls2 & J2 & F2)].
  rewrite (bind_step _ _ _ _ _ E2), bind_gets.
  destruct (negb (ret1 =? SPI_OK_SELECT)%Z
            || (SPI_processed (backend w2) =? 0)%Z) eqn:Hcond; cbn [orb].
  { cbn. rewrite T2. repeat split; reflexivity. }
  assert (T3 := SPI_execute_while_loading depth rules_query_sql true 0 w2 G2).
  destruct (SPI_execute (po_planner (S depth)) rules_query_sql true 0 w2)
    as [ret2 w3 | e3 w3 |] eqn:E3; simpl in T3.
  3:{ contradiction. }
  2:{ rewrite (bind_raised _ _ _ _ _ E3).
      destruct T3 as [(_ & _ & T3 & R3 & C3 & L3 & _ & G3) (calls3 & J3 & F3)].
      split; [rewrite G3, G2; reflexivity |].
      split; [rewrite T3, T2; reflexivity |].
      split; [split; [rewrite R3, R2 | rewrite C3, C2]; reflexivity |].
      split; [rewrite L3, L2; reflexivity |].
      rewrite J3, J2. simpl.
      rewrite !warnings_app, (no_warnings _ F2), (no_warnings _ F3). simpl.
      now rewrite !app_nil_r. }
  destruct T3 as [(_ & _ & T3 & R3 & C3 & L3 & _ & G3) _].
  rewrite (bind_step _ _ _ _ _ E3).
  destruct (ret2 =? SPI_OK_SELECT)%Z eqn:Hret2; cbn [negb].
  2:{ cbn. rewrite T3, T2, L3, L2. repeat split; reflexivity. }
  rewrite bind_gets, bind_modify, bind_gets.
  cbn [cached_rules_count set_cached_rules_count].
  destruct (to_int32 (SPI_processed (backend w3)) =? 0)%Z.
  { cbn. rewrite T3, T2. repeat split; reflexivity. }
  rewrite bind_modify.
  match goal with
  | |- context [bind (for_loop 0 ?n _ _) _ ?w4] =>
      destruct (load_rows_loop n 0 w4 (repeat zeroed_rule n) eq_refl)
        as (rules & w5 & E5 & _ & _ & _ & _ & Hs5);
        [rewrite length_repeat_rules; lia |]
  end.
  destruct Hs5 as (_ & _ & T5 & _).
  rewrite (bind_step _ _ _ _ _ E5).
  rewrite bind_SPI_finish, bind_gets, !bind_modify, bind_gets.
  match goal with
  | |- context [if ?d then _ else _] => destruct d
  end; cbn; rewrite T5; cbn; rewrite T3, T2; repeat split; reflexivity.
Qed.

(** C2, as the code has it.  In a refresh (with the hook of any depth as
    the planner hook of its SPI queries), once the opening statements
    of [load_rules] have returned from [SPI_connect]:
    - if the connection failed, [load_rules] returns with zero rules
      cached, the guard clear, a warning in the journal and
      [cache_loaded_at] as it was before the refresh;
    - if the query for the rules table returns something else than
      [SPI_OK_SELECT] or no row (the table is absent), [load_rules]
      returns with zero rules cached, the guard clear,
      [cache_loaded_at] set to the current time, and no warning added
      to the journal;
    - if the table is there and the rule query returns something else
      than [SPI_OK_SELECT], [load_rules] returns with zero rules
      cached, the guard clear, a warning in the journal and
      [cache_loaded_at] as it was before the refresh;
    - if the query for the rules table raises, or the table is there
      and the rule query raises, [load_rules] raises that error in the
      world the query has left; and whenever [load_rules] raises, the
      error is the one that one of its two queries has raised: zero
      rules are cached, [cache_loaded_at] is as it was before the
      refresh and no warning has been added to the journal. *)
Theorem load_rules_without_rules depth w code w1 :
  load_rules_connect w = Returned code w1 ->
  let hook := po_planner (S depth) in
  (code <> SPI_OK_CONNECT ->
   exists w',
     load_rules hook w = Returned tt w'
     /\ no_rules w' /\ loading_rules w' = false
     /\ cache_loaded_at w' = cache_loaded_at w
     /\ journal w' =
        journal w1 ++
        [Call_elog WARNING
           "pg_plan_override: SPI_connect failed, cache not loaded" []])
  /\ (code = SPI_OK_CONNECT ->
      forall ret w2,
        SPI_execute hook rules_table_sql true 1 w1 = Returned ret w2 ->
        (ret <> SPI_OK_SELECT \/ SPI_processed (backend w2) = 0%Z ->
         exists w',
           load_rules hook w = Returned tt w'
           /\ no_rules w' /\ loading_rules w' = false
           /\ cache_loaded_at w' = GetCurrentTimestamp (backend w')
           /\ journal w' = journal w2 ++ [Call_SPI_finish]
           /\ filter is_warning (journal w') = filter is_warning (journal w))
        /\ (ret = SPI_OK_SELECT -> SPI_processed (backend w2) <> 0%Z ->
            forall ret' w3,
              SPI_execute hook rules_query_sql true 0 w2 = Returned ret' w3 ->
              ret' <> SPI_OK_SELECT ->
              exists w',
                load_rules hook w = Returned tt w'
                /\ no_rules w' /\ loading_rules w' = false
                /\ cache_loaded_at w' = cache_loaded_at w
                /\ journal w' =
                   journal w3 ++
                   [Call_SPI_finish;
                    Call_elog WARNING
                      "pg_plan_override: failed to load rules (SPI error %d)"
                      [arg_d ret']]))
  /\ (code = SPI_OK_CONNECT ->
      (forall e w2,
          SPI_execute hook rules_table_sql true 1 w1 = Raised e w2 ->
          load_rules hook w = Raised e w2)
      /\ (forall w2 e w3,
          SPI_execute hook rules_table_sql true 1 w1
          = Returned SPI_OK_SELECT w2 ->
          SPI_processed (backend w2) <> 0%Z ->
          SPI_execute hook rules_query_sql true 0 w2 = Raised e w3 ->
          load_rules hook w = Raised e w3))
  /\ (forall e w',
      load_rules hook w = Raised e w' ->
      ((exists w0, SPI_execute hook rules_table_sql true 1 w0 = Raised e w')
       \/ (exists w0, SPI_execute hook rules_query_sql true 0 w0 = Raised e w'))
      /\ no_rules w'
      /\ cache_loaded_at w' = cache_loaded_at w
      /\ filter is_warning (journal w') = filter is_warning (journal w)).
Proof.
  intros Hc hook.
  pose proof (load_rules_returns_without_rules depth w code w1 Hc) as T.
  cbv zeta in T. destruct T as [T1 T2].
  split; [exact T1 |]. split; [exact T2 |]. subst hook. split.
  - intro Hcode. rewrite load_rules_connect_eq in Hc.
    injection Hc as Hc <-. rewrite Hcode in Hc.
    unfold load_rules. rewrite load_rules_opening.
    rewrite Hc, Z.eqb_refl. cbn [negb]. split.
    + intros e w2 E2. now rewrite (bind_raised _ _ _ _ _ E2).
    + intros w2 e w3 E2 Hproc E3.
      rewrite (bind_step _ _ _ _ _ E2), bind_gets.
      apply Z.eqb_neq in Hproc. rewrite Hproc, Z.eqb_refl. cbn [negb orb].
      now rewrite (bind_raised _ _ _ _ _ E3).
  - intros e w' E.
    destruct (load_rules_raised _ _ _ _ E) as (Hq & _).
    pose proof (load_rules_cases depth w) as Hcases. rewrite E in Hcases.
    destruct Hcases as (_ & _ & Hn & Hl & Hj).
    split; [exact Hq |]. split; [exact Hn |]. split; [exact Hl | exact Hj].
Qed.


(* ------------------------------------------------------------------ *)
(** ** The planner fails *)

Lemma restore_prefix_journal rule saved k w4 wk :
  for_loop 0 k
    (fun i (_ : unit) =>
       call_set_config_option (nth i (guc_names rule) "") (nth i saved None) ;;
       ret tt) tt w4 = Returned tt wk ->
  journal wk
  = journal w4
    ++ map (fun i => Call_set_config_option (nth i (guc_names rule) "")
                       (nth i saved None))
         (seq 0 k).
Proof.
  intro E.
  apply (for_loop_returned
           (fun i (_ : unit) w0 =>
              journal w0
              = journal w4
                ++ map (fun i => Call_set_config_option
                                   (nth i (guc_names rule) "") (nth i saved None))
                     (seq 0 i))) in E.
  - exact E.
  - simpl. now rewrite app_nil_r.
  - intros i [] w0 [] w0' _ Eb Hj.
    apply bind_returned in Eb. destruct Eb as (r & w0'' & Es & Er).
    unfold ret in Er. injection Er as <-.
    unfold call_set_config_option in Es.
    destruct (set_config_option _ _ _) as [[r0 | e0] b0]; simpl in Es;
      [| discriminate].
    injection Es as _ <-. rewrite seq_S, map_app, app_assoc, <- Hj.
    reflexivity.
Qed.

(** C1, as the code has it.  On a backend whose settings behave as a
    table, let a call of the hook find a rule, let the snapshot and the
    assignments of the rule return, and let the planner raise [e].
    The handler then runs the restore, which returns or raises.
    - If the restore returns, the hook raises [e], the planner's own
      error, in the world the restore has left: after the planner's
      failure the journal has the assignments of the saved values, one
      for each entry of the rule and in their order, and every setting
      the rule names then has the value it had before the snapshot.
    - If an assignment of the restore raises [e'], the hook raises
      [e'] and not [e], in the world that assignment has left: the
      journal has the assignments of the saved values up to that entry
      and none for the entries after it. *)
Theorem planner_error_is_rethrown_after_restore depth parse query_string
    cursorOptions boundParams w u w1 rule saved w2 w3 e w4 :
  settings_table ->
  po_enabled w = true -> loading_rules w = false ->
  refresh_if_expired (po_planner (S depth)) w = Returned u w1 ->
  find_matching_rule parse query_string w1 = Some rule ->
  save_guc_values rule w1 = Returned saved w2 ->
  apply_overrides rule w2 = Returned tt w3 ->
  next_planner parse query_string cursorOptions boundParams w3 = Raised e w4 ->
  let run :=
    po_planner (S (S depth)) parse query_string cursorOptions boundParams w in
  ((exists w5, restore_guc_values rule saved w4 = Returned tt w5)
   \/ (exists e' w5, restore_guc_values rule saved w4 = Raised e' w5))
  /\ (forall w5,
      restore_guc_values rule saved w4 = Returned tt w5 ->
      run = Raised e w5
      /\ journal w5 = journal w4 ++ restore_calls rule saved
      /\ (forall name, names_setting rule name ->
                       GetConfigOption name (backend w5)
                       = GetConfigOption name (backend w1)))
  /\ (forall e' w5,
      restore_guc_values rule saved w4 = Raised e' w5 ->
      run = Raised e' w5
      /\ exists k wk,
           (k < Z.to_nat (num_gucs rule))%nat
           /\ call_set_config_option (nth k (guc_names rule) "")
                (nth k saved None) wk = Raised e' w5
           /\ journal w5
              = journal w4
                ++ map (fun i => Call_set_config_option
                                   (nth i (guc_names rule) "")
                                   (nth i saved None))
                     (seq 0 (S k))).
Proof.
  intros table He Hl Hr Hf Hs Ha Hp run. subst run.
  rewrite (po_planner_matched _ _ _ _ _ _ _ _ _ He Hl Hr Hf).
  rewrite (plan_with_overrides_protected _ _ _ _ _ _ _ _ _ Hs Ha).
  unfold PG_TRY. rewrite (bind_raised _ _ _ _ _ Hp).
  split; [| split].
  - pose proof (respects_restore_guc_values _ _ any_call_steps rule
                  (fun _ _ _ => I) saved w4) as T.
    destruct (restore_guc_values rule saved w4) as [[] w5 | e' w5 |];
      simpl in T; [left | right | contradiction]; eauto.
  - intros w5 Hrest. rewrite (bind_step _ _ _ _ _ Hrest).
    split; [reflexivity |].
    split; [exact (restore_guc_values_journal _ _ _ _ Hrest) |].
    apply (restored_settings _ _ _ _ _ _ table Hs Hrest).
  - intros e' w5 Hrest. rewrite (bind_raised _ _ _ _ _ Hrest).
    split; [reflexivity |].
    unfold restore_guc_values in Hrest.
    apply for_loop_raised_inv in Hrest.
    destruct Hrest as (k & [] & wk & Hk & Ek & Eb).
    apply bind_raised_inv in Eb.
    destruct Eb as [Eb | (r & w0 & _ & Eb)]; [| discriminate].
    exists k, wk. split; [exact Hk |]. split; [exact Eb |].
    apply restore_prefix_journal in Ek.
    unfold call_set_config_option in Eb.
    destruct (set_config_option _ _ _) as [[r0 | e0] b0]; simpl in Eb;
      [discriminate |].
    injection Eb as _ <-.
    rewrite seq_S, map_app, app_assoc, <- Ek. reflexivity.
Qed.

(* ------------------------------------------------------------------ *)
(** ** Staleness in a session *)

Lemma after_refresh_no_spi p q c b :
  respects (fun w w' => same_statics w w' /\ journal_adds not_spi w w')
    (rule <- gets (find_matching_rule p q) ;;
     match rule with
     | None => next_planner p q c b
     | Some rule => plan_with_overrides rule p q c b
     end).
Proof.
  intro w. apply ends_and; [apply after_refresh_same_statics |].
  apply (respects_bind _ _ not_spi_steps);
    [apply (respects_gets _ _ not_spi_steps) |].
  intros [rule |].
  - apply (respects_plan_with_overrides _ _ not_spi_steps); simpl; auto.
  - now apply (respects_next_planner _ _ not_spi_steps).
Qed.

(** What a call of the hook makes of [cache_loaded_at] and of
    [po_cache_ttl]. *)
Lemma hook_stamp depth p q c b w w' last :
  cache_loaded_at w = loaded_time last ->
  world_of (po_planner (S (S depth)) p q c b w) = Some w' ->
  po_cache_ttl w' = po_cache_ttl w
  /\ cache_loaded_at w'
     = loaded_time
         (if po_enabled w && negb (loading_rules w) && cache_expired w
          then stamp_of_load (po_planner (S depth)) w last
          else last).
Proof.
  intros Hinv Hw.
  destruct (po_enabled w) eqn:He; [destruct (loading_rules w) eqn:Hl |];
    cbn [andb negb].
  - rewrite po_planner_fast_path in Hw by now right.
    apply (ends_world_of _ _ _ _ (next_planner_same_statics p q c b w)) in Hw.
    destruct Hw as (_ & _ & T & _ & _ & L & _). now rewrite T, L.
  - rewrite po_planner_unfold in Hw by assumption.
    unfold refresh_if_expired in Hw. rewrite bind_assoc, bind_gets in Hw.
    destruct (cache_expired w).
    + pose proof (load_rules_cases depth w) as Hcases.
      unfold stamp_of_load. unfold bind in Hw at 1.
      destruct (load_rules (po_planner (S depth)) w) as [u w1 | e w1 |].
      * apply (ends_world_of _ _ _ _ (after_refresh_same_statics p q c b w1))
          in Hw.
        destruct Hw as (_ & _ & T & _ & _ & L & _).
        destruct Hcases as (_ & T1 & L1). rewrite T, L, T1.
        split; [reflexivity |].
        destruct (load_completes _ w); simpl; congruence.
      * injection Hw as <-. destruct Hcases as (_ & T1 & _ & L1 & _).
        now rewrite T1, L1.
      * contradiction.
    + rewrite bind_ret in Hw.
      apply (ends_world_of _ _ _ _ (after_refresh_same_statics p q c b w)) in Hw.
      destruct Hw as (_ & _ & T & _ & _ & L & _). now rewrite T, L.
  - rewrite po_planner_fast_path in Hw by now left.
    apply (ends_world_of _ _ _ _ (next_planner_same_statics p q c b w)) in Hw.
    destruct Hw as (_ & _ & T & _ & _ & L & _). now rewrite T, L.
Qed.

(** In a session [cache_loaded_at] is the time of the last load that
    has loaded a rule set, and 0 as long as there was none; and
    [po_cache_ttl] is within the bounds [_PG_init] declares. *)
Lemma session_invariant w last :
  session w last ->
  cache_loaded_at w = loaded_time last /\ (1 <= po_cache_ttl w <= 3600)%Z.
Proof.
  induction 1 as [b | w last b _ IH | w last enabled debug ttl _ IH Httl
                  | w last depth p q c b w' _ IH Hw
                  | w last depth w' _ IH Hw].
  - simpl. split; [reflexivity | lia].
  - exact IH.
  - simpl. split; [apply IH | exact Httl].
  - destruct IH as [IH1 IH2].
    destruct (hook_stamp _ _ _ _ _ _ _ _ IH1 Hw) as [T L].
    split; [exact L | now rewrite T].
  - destruct IH as [IH1 IH2].
    unfold pg_plan_override_refresh_cache in Hw.
    pose proof (load_rules_cases depth w) as Hcases.
    unfold stamp_of_load.
    destruct (load_rules (po_planner (S depth)) w) as [u w1 | e w1 |];
      simpl in Hw; [| | discriminate]; injection Hw as <-.
    + destruct Hcases as (_ & T1 & L1). rewrite T1.
      split; [| exact IH2].
      destruct (load_completes _ w); simpl; congruence.
    + destruct Hcases as (_ & T1 & _ & L1 & _). rewrite T1, L1.
      split; [exact IH1 | exact IH2].
Qed.

(** C6.  In a session of the module, take a call of the hook with the
    module enabled and the guard clear, at a time that is at least
    [po_cache_ttl] seconds after the origin of the timestamps.  The
    test the hook makes is true if and only if the cache is stale: no
    load of the session has loaded a rule set, or the last one that
    has is at least [po_cache_ttl] seconds old.  If it is true the call
    starts with [load_rules], once: where [load_rules] returns, the
    call goes on from the world it has left without another SPI call
    and without touching the statics; where it raises, the call raises
    the same error there; and the journal of the call counts one
    refresh.  If it is false the call makes no SPI call and leaves the
    statics as they were. *)
Theorem refresh_iff_stale depth parse query_string cursorOptions boundParams
    w last :
  session w last ->
  po_enabled w = true ->
  loading_rules w = false ->
  (- 2 ^ 63 <= GetCurrentTimestamp (backend w) - loaded_time last < 2 ^ 63)%Z ->
  (po_cache_ttl w * 1000000 <= GetCurrentTimestamp (backend w))%Z ->
  let run :=
    po_planner (S (S depth)) parse query_string cursorOptions boundParams w in
  (cache_expired w = true
   <-> stale last (GetCurrentTimestamp (backend w)) (po_cache_ttl w))
  /\ (cache_expired w = true ->
      match load_rules (po_planner (S depth)) w with
      | Returned _ w1 =>
          ends (fun _ w' => same_statics w1 w' /\ journal_adds not_spi w1 w')
            w run
      | Raised e w1 => run = Raised e w1
      | Unfinished => False
      end
      /\ ends (refreshed 1) w run)
  /\ (cache_expired w = false ->
      ends (fun w w' => same_statics w w' /\ journal_adds not_spi w w') w run).
Proof.
  intros Hsess He Hl Hdiff Hclock run.
  destruct (session_invariant _ _ Hsess) as [Hinv Httl].
  assert (Hcount := hook_counts_refreshes depth parse query_string cursorOptions
                      boundParams w He Hl Httl).
  rewrite Hinv in Hcount. specialize (Hcount Hdiff).
  destruct Hcount as [Hiff Hcount]. fold run in Hcount.
  split; [| split].
  - rewrite Hiff. unfold stale. destruct last as [t |]; simpl in *.
    + split; [intros [-> | Ht]; right; lia | intros [Hn | Ht]; [discriminate |]].
      now right.
    + split; [now left | now left].
  - intro Hx. split; [| now rewrite Hx in Hcount].
    subst run. rewrite po_planner_unfold by assumption.
    unfold refresh_if_expired. rewrite bind_assoc, bind_gets, Hx.
    pose proof (load_rules_cases depth w) as Hcases.
    destruct (load_rules (po_planner (S depth)) w) as [u w1 | e w1 |] eqn:EL.
    + rewrite (bind_step _ _ _ _ _ EL).
      apply (ends_after
               (fun w0 w' => same_statics w0 w' /\ journal_adds not_spi w0 w')
               (fun _ w' => same_statics w1 w' /\ journal_adds not_spi w1 w')
               w w1); [intros w' Hw'; exact Hw' | apply after_refresh_no_spi].
    + exact (bind_raised _ _ _ _ _ EL).
    + exact Hcases.
  - intro Hx. subst run. rewrite po_planner_unfold by assumption.
    unfold refresh_if_expired. rewrite bind_assoc, bind_gets, Hx, bind_ret.
    apply after_refresh_no_spi.
Qed.

End MoreProperties.

(* ================================================================== *)
(** * The further properties on the small backends *)

Local Open Scope Z_scope.

Lemma find_matching_rule_sound_witness :
  (exists rules, cached_rules toy_loaded = Some rules /\ In toy_cached_2 rules)
  /\ ((@queryId toy 5 <> 0 /\ has_query_id (H:=toy) 5 toy_cached_2)
      \/ (exists text,
            Some "SELECT 1 FROM t1"%string = Some text
            /\ has_pattern_for text toy_cached_2))
  /\ ~ (query_id toy_cached_2 = 0 /\ query_pattern toy_cached_2 = None).
Proof.
  apply (find_matching_rule_sound (H:=toy) 5 (Some "SELECT 1 FROM t1"%string)
           toy_loaded toy_cached_2).
  vm_compute. reflexivity.
Defined.

Lemma load_rules_loads_the_rows_witness :
  exists w3 rules w',
    load_rules (po_planner 1) toy_world = Returned tt w'
    /\ cached_rules w' = Some rules
    /\ cached_rules_count w' = to_int32 (SPI_processed (backend w3))
    /\ Z.of_nat (List.length rules) = cached_rules_count w'
    /\ (forall i, (i < List.length rules)%nat ->
                  rule_of_tuple (nth i (SPI_tuptable (backend w3)) null_tuple)
                    (nth i rules zeroed_rule))
    /\ loading_rules w' = false
    /\ cache_loaded_at w' = GetCurrentTimestamp (backend w')
    /\ backend w' = SPI_finish (backend w3).
Proof.
  eexists.
  refine (proj2 (load_rules_loads_the_rows (H:=toy) 0 toy_world _ _ _ _ _ _ _) _).
  - vm_compute. reflexivity.
  - vm_compute. reflexivity.
  - vm_compute. discriminate.
  - vm_compute. reflexivity.
  - vm_compute. reflexivity.
Defined.

Lemma load_rules_raise_keeps_the_guard_witness :
  exists w' : @World toy_strict,
    load_rules (H:=toy_strict) (po_planner 1) strict_world
    = Raised (H:=toy_strict) "permission denied for table override_rules"%string w'
    /\ loading_rules w' = true
    /\ po_planner (H:=toy_strict) 2 42 (Some "SELECT 1"%string) 0 tt strict_world
       = Raised (H:=toy_strict) "permission denied for table override_rules"%string w'
    /\ po_planner (H:=toy_strict) 1 42 (Some "SELECT 1"%string) 0 tt w'
       = next_planner (H:=toy_strict) 42 (Some "SELECT 1"%string) 0 tt w'.
Proof.
  eexists.
  eassert (E : load_rules (H:=toy_strict) (po_planner 1) strict_world = _)
    by (vm_compute; reflexivity).
  destruct (load_rules_raise_keeps_the_guard (H:=toy_strict) 0 _ _ _ E)
    as (_ & Hg & _ & _ & _ & Hnext & Hhook).
  split; [exact E |]. split; [exact Hg |].
  split; [apply Hhook; vm_compute; reflexivity | apply Hnext].
Defined.

Lemma snapshot_error_stops_the_hook_witness :
  exists w2 : @World toy_strict,
    po_planner (H:=toy_strict) 2 9 (Some "SELECT 1"%string) 0 tt strict_cached
    = Raised (H:=toy_strict) "unrecognized configuration parameter enable_nosuch"%string w2
    /\ same_statics strict_cached w2
    /\ backend w2 = backend strict_cached
    /\ journal w2
       = journal strict_cached ++ snapshot_reads toy_unknown 2.
Proof.
  eexists.
  eassert (T : _).
  { eapply (snapshot_error_stops_the_hook (H:=toy_strict) 0 9
              (Some "SELECT 1"%string) 0 tt strict_cached);
      [reflexivity | reflexivity
       | vm_compute; reflexivity | vm_compute; reflexivity
       | vm_compute; reflexivity]. }
  destruct T as (T1 & T2 & T3 & _).
  split; [exact T1 |]. split; [exact T2 |]. split; [exact T3 |].
  vm_compute. reflexivity.
Defined.

Lemma overrides_reach_the_planner_witness :
  exists saved w3,
    po_planner 2 7 (Some "SELECT 1"%string) 0 tt toy_world_twice
    = protected_planner toy_twice saved 7 (Some "SELECT 1"%string) 0 tt w3
    /\ GetConfigOption "work_mem" (backend w3) = Normal (Some "2MB"%string)
    /\ GetConfigOption "jit" (backend w3) = Normal (Some "off"%string).
Proof.
  do 2 eexists.
  eassert (T : _).
  { eapply (overrides_reach_the_planner (H:=toy) 0 7 (Some "SELECT 1"%string)
              0 tt toy_world_twice);
      [exact toy_settings_table | reflexivity | reflexivity
       | vm_compute; reflexivity | vm_compute; reflexivity
       | vm_compute; reflexivity | vm_compute; reflexivity]. }
  destruct T as (T1 & T2 & _).
  split; [exact T1 |]. split.
  - apply (T2 2%nat); [simpl; lia |].
    intros j Hj. simpl in Hj. lia.
  - apply (T2 1%nat); [simpl; lia |].
    intros j Hj. simpl in Hj.
    assert (j = 2%nat) as -> by lia. discriminate.
Defined.




(* ------------------------------------------------------------------ *)
(** ** Refreshes, the guard and the planner's errors *)

Lemma load_rules_without_rules_witness :
  load_rules_connect (PG_init toy_env_bare)
  = Returned SPI_OK_CONNECT toy_bare_connected
  /\ SPI_execute (po_planner 1) rules_table_sql true 1 toy_bare_connected
     = Returned SPI_OK_SELECT toy_bare_checked
  /\ SPI_processed (backend toy_bare_checked) = 0
  /\ exists w',
       load_rules (po_planner 1) (PG_init toy_env_bare) = Returned tt w'
       /\ no_rules w' /\ loading_rules w' = false
       /\ cache_loaded_at w' = GetCurrentTimestamp (backend w')
       /\ journal w' = journal toy_bare_checked ++ [Call_SPI_finish]
       /\ filter is_warning (journal w')
          = filter is_warning (journal (PG_init toy_env_bare)).
Proof.
  assert (Hc : load_rules_connect (PG_init toy_env_bare)
               = Returned SPI_OK_CONNECT toy_bare_connected)
    by (vm_compute; reflexivity).
  assert (He : SPI_execute (po_planner 1) rules_table_sql true 1 toy_bare_connected
               = Returned SPI_OK_SELECT toy_bare_checked)
    by (vm_compute; reflexivity).
  split; [exact Hc |]. split; [exact He |]. split; [reflexivity |].
  pose proof (load_rules_without_rules (H:=toy) 0 _ _ _ Hc) as T.
  cbv zeta in T. destruct T as (_ & T & _).
  apply (proj1 (T eq_refl _ _ He)). right. reflexivity.
Defined.



Lemma refresh_iff_stale_witness :
  (cache_expired toy_world = true
   <-> stale None (GetCurrentTimestamp (backend toy_world))
         (po_cache_ttl toy_world))
  /\ ends (refreshed 1) toy_world
       (po_planner 2 42 (Some "SELECT 1"%string) 0 tt toy_world)
  /\ (cache_expired toy_loaded = true
      <-> stale (Some 1000000000) (GetCurrentTimestamp (backend toy_loaded))
            (po_cache_ttl toy_loaded))
  /\ ends (fun w w' => same_statics w w' /\ journal_adds not_spi w w') toy_loaded
       (po_planner 2 42 (Some "SELECT 1"%string) 0 tt toy_loaded).
Proof.
  assert (S0 : session toy_world None) by exact (session_start toy_env).
  assert (S1 : session toy_loaded (Some 1000000000)).
  { replace (Some 1000000000)
      with (stamp_of_load (po_planner 1) toy_world None)
      by (vm_compute; reflexivity).
    apply (session_refresh toy_world None 0 toy_loaded S0).
    vm_compute. reflexivity. }
  eassert (T0 : _).
  { refine (refresh_iff_stale (H:=toy) 0 42 (Some "SELECT 1"%string) 0 tt
              toy_world None S0 _ _ _ _);
      [reflexivity | reflexivity
       | vm_compute; split; [discriminate | reflexivity]
       | vm_compute; discriminate]. }
  eassert (T1 : _).
  { refine (refresh_iff_stale (H:=toy) 0 42 (Some "SELECT 1"%string) 0 tt
              toy_loaded (Some 1000000000) S1 _ _ _ _);
      [reflexivity | reflexivity
       | vm_compute; split; [discriminate | reflexivity]
       | vm_compute; discriminate]. }
  cbv zeta in T0, T1.
  destruct T0 as (A0 & B0 & _). destruct T1 as (A1 & _ & C1).
  split; [exact A0 |]. split; [apply B0; vm_compute; reflexivity |].
  split; [exact A1 |]. apply C1. vm_compute. reflexivity.
Defined.

Lemma planner_error_is_rethrown_after_restore_witness :
  exists w1 saved w4 w5,
    po_planner 2 13 (Some "SELECT a FROM t1"%string) 0 tt toy_world
    = Raised "planner failed"%string w5
    /\ journal w5 = journal w4 ++ restore_calls toy_cached_2 saved
    /\ (forall name, names_setting toy_cached_2 name ->
                     GetConfigOption name (backend w5)
                     = GetConfigOption name (backend w1)).
Proof.
  do 4 eexists.
  eassert (T : _).
  { eapply (planner_error_is_rethrown_after_restore (H:=toy) 0 13
              (Some "SELECT a FROM t1"%string) 0 tt toy_world);
      [exact toy_settings_table | reflexivity | reflexivity
       | vm_compute; reflexivity | vm_compute; reflexivity
       | vm_compute; reflexivity | vm_compute; reflexivity
       | vm_compute; reflexivity]. }
  cbv zeta in T. destruct T as (_ & T & _).
  eapply T. vm_compute. reflexivity.
Defined.

(** C1 fails on the code.  The hook finds the second rule for the
    query and assigns its settings; the planner raises its error and,
    in this backend, leaves [work_mem] frozen.  The first assignment of
    the restore then raises.  The hook raises the error of the restore,
    not the planner's, and [work_mem], 4MB before the call, is left at
    the value of the rule. *)
Lemma planner_error_replaced_by_restore_error :
  exists w1 saved w2 w3 w4 w5,
    refresh_if_expired (po_planner 1) toy_world = Returned tt w1
    /\ find_matching_rule 14 (Some "SELECT a FROM t1"%string) w1
       = Some toy_cached_2
    /\ save_guc_values toy_cached_2 w1 = Returned saved w2
    /\ apply_overrides toy_cached_2 w2 = Returned tt w3
    /\ next_planner 14 (Some "SELECT a FROM t1"%string) 0 tt w3
       = Raised "planner failed"%string w4
    /\ restore_guc_values toy_cached_2 saved w4
       = Raised "cannot set work_mem"%string w5
    /\ po_planner 2 14 (Some "SELECT a FROM t1"%string) 0 tt toy_world
       = Raised "cannot set work_mem"%string w5
    /\ GetConfigOption "work_mem" (backend w1) = Normal (Some "4MB"%string)
    /\ GetConfigOption "work_mem" (backend w5) = Normal (Some "128"%string).
Proof.
  do 6 eexists.
  split; [vm_compute; reflexivity |].
  split; [vm_compute; reflexivity |].
  split; [vm_compute; reflexivity |].
  split; [vm_compute; reflexivity |].
  split; [vm_compute; reflexivity |].
  split; [vm_compute; reflexivity |].
  split; [vm_compute; reflexivity |].
  split; vm_compute; reflexivity.
Qed.
